(** * dsd/np.py : a shallow embedding and its verified properties

    The Python module [dsd/np.py] stores DNA sequences as rows of a 2D numpy
    array of bytes (A=0, C=1, G=2, T=3) and processes them with bulk array
    operations.  This development embeds the functions of that module as Rocq
    functions and proves properties of them.

    Conventions of the embedding
    - a numpy array of [ubyte] is a list of [Z] in [0, 256); arithmetic on it
      wraps modulo 256; a 2D array is the list of its rows;
    - a numpy array of [np.int] holds 64-bit signed integers ([wrap64]);
    - a Python exception is the [Raise] constructor of [result];
    - a numpy or Python float is an IEEE 754 binary float ([spec_float] of
      the standard library): the energy table is a [float32] array, a Python
      float a [float64], and every operation rounds in the format numpy
      computes in; [np.sum] adds in numpy's blocked order, Python's [sum]
      from left to right;
    - a boolean array used as an index must have the shape of the axes it
      indexes, as numpy requires since its version 1.13: [IndexError]
      otherwise;
    - a [while] loop is unrolled over a fuel argument, and the fuel that
      suffices is proved;
    - the random generator is a parameter (a function permuting the rows). *)

From Stdlib Require Import String Ascii DecimalString.
From Stdlib Require Import ZArith List Bool Lia Arith.
From Stdlib Require Import SpecFloat.
From Stdlib Require Import Permutation Sorted.
From Stdlib Require DecimalPos.
Import ListNotations.
Open Scope Z_scope.

(* ================================================================== *)
(** * Part I : the embedding                                          *)
(* ================================================================== *)

(** ** Exceptions *)

Inductive exn : Type :=
| ValueError
| KeyError
| IndexError
| AssertionError
| OverflowError
| TypeError
| FileNotFoundError.

Inductive result (A : Type) : Type :=
| Ok (a : A)
| Raise (e : exn).

Arguments Ok {A} a.
Arguments Raise {A} e.

Definition bind {A B : Type} (m : result A) (k : A -> result B) : result B :=
  match m with
  | Ok a => k a
  | Raise e => Raise e
  end.

Notation "x <- m ;; k" := (bind m (fun x => k))
  (at level 61, m at next level, right associativity).
Notation "' p <- m ;; k" := (bind m (fun x => let p := x in k))
  (at level 61, p pattern, m at next level, right associativity).

(** [[f(x) for x in l]] where [f] may raise: evaluated left to right. *)
Fixpoint mapM {A B : Type} (f : A -> result B) (l : list A) : result (list B) :=
  match l with
  | [] => Ok []
  | a :: l' => b <- f a ;; bs <- mapM f l' ;; Ok (b :: bs)
  end.

(** ** Arrays *)

Abbreviation row := (list Z) (only parsing).
Abbreviation matrix := (list (list Z)) (only parsing).

(** [arr.shape[1]] of a 2D array given by its rows. *)
Definition shape1 {A : Type} (m : list (list A)) : nat :=
  match m with
  | [] => 0%nat
  | r :: _ => length r
  end.

(** A 2D array is rectangular. *)
Definition rect {A : Type} (n : nat) (m : list (list A)) : Prop :=
  Forall (fun r => length r = n) m.

(** Entries of a sequence array are the codes 0..3. *)
Definition is_code (z : Z) : Prop := 0 <= z <= 3.
Definition codes_row (r : row) : Prop := Forall is_code r.
Definition codes (m : matrix) : Prop := Forall codes_row m.

(** Arithmetic of dtype [np.ubyte]. *)
Definition wrap8 (z : Z) : Z := z mod 256.
Definition ubyte_sub (a b : Z) : Z := wrap8 (a - b).
Definition ubyte_add (a b : Z) : Z := wrap8 (a + b).
Definition ubyte_shl (a : Z) (n : Z) : Z := wrap8 (Z.shiftl a n).

(** Arithmetic of dtype [np.int] (a C long, 64 bits, two's complement). *)
Definition int_bits : Z := 64.
Definition wrap64 (z : Z) : Z :=
  (z + 2 ^ (int_bits - 1)) mod 2 ^ int_bits - 2 ^ (int_bits - 1).
Definition fits64 (z : Z) : bool :=
  (- 2 ^ (int_bits - 1) <=? z) && (z <? 2 ^ (int_bits - 1)).

(** Python indexing [l[i]] of a list with an integer: negative indices count
    from the end, out of range raises IndexError. *)
Definition getitem {A : Type} (l : list A) (i : Z) : result A :=
  let n := Z.of_nat (length l) in
  let j := if i <? 0 then i + n else i in
  if (j <? 0) || (n <=? j) then Raise IndexError
  else match nth_error l (Z.to_nat j) with
       | Some a => Ok a
       | None => Raise IndexError
       end.

(** ** The codec: [bits2base], [base2bits], [seq2arr], [seqs2arr], [arr2seq] *)

Definition bits2base : list ascii := ["A"; "C"; "G"; "T"]%char.

Definition base2bits (c : ascii) : result Z :=
  match c with
  | "A"%char => Ok 0
  | "C"%char => Ok 1
  | "G"%char => Ok 2
  | "T"%char => Ok 3
  | "a"%char => Ok 0
  | "c"%char => Ok 1
  | "g"%char => Ok 2
  | "t"%char => Ok 3
  | _ => Raise KeyError
  end.

(** [[base2bits[base] for base in seq]] *)
Definition seq2arr (seq : string) : result row :=
  mapM base2bits (list_ascii_of_string seq).

(** [''.join([bits2base[base] for base in arr])] *)
Definition arr2seq (arr : row) : result string :=
  bases_ch <- mapM (getitem bits2base) arr ;;
  Ok (string_of_list_ascii bases_ch).

Definition str_len (s : string) : nat := String.length s.

(** [seqs2arr]: all strings must have the length of the first. *)
Definition seqs2arr (seqs : list string) : result matrix :=
  match seqs with
  | [] => Ok []
  | s0 :: _ =>
      let seq_len := str_len s0 in
      if forallb (fun s => Nat.eqb (str_len s) seq_len) seqs
      then mapM seq2arr seqs
      else Raise ValueError
  end.

(** [wc_arr]: [(3 - seqarr)[:, ::-1]] on a ubyte array. *)
Definition wc_arr (seqarr : matrix) : matrix :=
  map (fun r => rev (map (fun x => ubyte_sub 3 x) r)) seqarr.

(** ** Array helpers of numpy *)

(** [np.repeat(x, n)] on a 1D array: every element [n] times in a row. *)
Definition np_repeat {A : Type} (x : list A) (n : nat) : list A :=
  flat_map (fun a => repeat a n) x.

(** [np.tile(x, n)] on a 1D array: the whole array [n] times. *)
Definition np_tile {A : Type} (x : list A) (n : nat) : list A :=
  concat (repeat x n).

(** Pointwise combination of two arrays of the same shape. *)
Fixpoint zip_with {A B C : Type} (f : A -> B -> C) (l1 : list A) (l2 : list B)
  : list C :=
  match l1, l2 with
  | a :: l1', b :: l2' => f a b :: zip_with f l1' l2'
  | _, _ => []
  end.

(** ** Floating-point numbers *)

(** The floats of numpy and of Python are IEEE 754 binary floats.  A value is
    a [spec_float] of the standard library; an operation rounds its exact
    result to the nearest value of the format it computes in, ties to even.
    A Python [float] and a [np.float64] are in [float64], the entries of a
    [np.float32] array in [float32]. *)
Inductive dtype : Type := float32 | float64.

Definition prec (d : dtype) : Z :=
  match d with float32 => 24 | float64 => 53 end.

Definition emax (d : dtype) : Z :=
  match d with float32 => 128 | float64 => 1024 end.

(** [x.astype(d)]: the value of format [d] nearest to [x]. *)
Definition astype (d : dtype) (x : spec_float) : spec_float :=
  match x with
  | S754_finite s m e => binary_normalize (prec d) (emax d) (cond_Zopp s (Zpos m)) e s
  | _ => x
  end.

Definition fadd (d : dtype) (x y : spec_float) : spec_float :=
  SFadd (prec d) (emax d) (astype d x) (astype d y).

Definition fsub (d : dtype) (x y : spec_float) : spec_float :=
  SFsub (prec d) (emax d) (astype d x) (astype d y).

Definition fmul (d : dtype) (x y : spec_float) : spec_float :=
  SFmul (prec d) (emax d) (astype d x) (astype d y).

Definition fdiv (d : dtype) (x y : spec_float) : spec_float :=
  SFdiv (prec d) (emax d) (astype d x) (astype d y).

(** [x <= y], both taken in the format [d]; false when one is a NaN. *)
Definition fleb (d : dtype) (x y : spec_float) : bool :=
  SFleb (astype d x) (astype d y).

(** The [float64] of an integer. *)
Definition float_of_int (z : Z) : spec_float := binary_normalize 53 1024 z 0 false.

(** A decimal literal [num / 10^k] of the source, as Python reads it: the
    [float64] nearest to it (for [|num| < 2^53] and [k <= 22], where both
    integers are floats and the quotient is rounded once). *)
Definition decimal (num : Z) (k : nat) : spec_float :=
  SFdiv 53 1024 (float_of_int num) (float_of_int (10 ^ Z.of_nat k)).

Definition fzero : spec_float := S754_zero false.

(** An array of floats with its dtype. *)
Record farray : Type := mk_farray { fdtype : dtype; fdata : list spec_float }.

(** [np.array([...], dtype=np.float32)] of Python floats. *)
Definition float32_array (l : list spec_float) : farray :=
  mk_farray float32 (map (astype float32) l).

(** The dtype numpy computes in.  Two arrays: the wider of the two.  An array
    and a Python float: the dtype of the array, unless the array is
    [float32] and the float is finite and outside (-3.4e38, 3.4e38), which
    gives [float64] (value-based casting of scalars). *)
Definition promote (d1 d2 : dtype) : dtype :=
  match d1, d2 with
  | float32, float32 => float32
  | _, _ => float64
  end.

Definition python_float_dtype (x : spec_float) : dtype :=
  match x with
  | S754_finite _ _ _ =>
      if SFltb (SFabs x) (float_of_int (34 * 10 ^ 37)) then float32 else float64
  | _ => float32
  end.

(** [x op a] and [a op x] for a Python float [x] and an array [a]. *)
Definition scalar_array (op : dtype -> spec_float -> spec_float -> spec_float)
  (x : spec_float) (a : farray) : farray :=
  let d := promote (python_float_dtype x) (fdtype a) in
  mk_farray d (map (fun y => op d x y) (fdata a)).

Definition array_scalar (op : dtype -> spec_float -> spec_float -> spec_float)
  (a : farray) (x : spec_float) : farray :=
  let d := promote (fdtype a) (python_float_dtype x) in
  mk_farray d (map (fun y => op d y x) (fdata a)).

(** [a op b] for two arrays of the same shape. *)
Definition array_array (op : dtype -> spec_float -> spec_float -> spec_float)
  (a b : farray) : farray :=
  let d := promote (fdtype a) (fdtype b) in
  mk_farray d (zip_with (op d) (fdata a) (fdata b)).

(** [x <= a] and [a <= x] for a Python float and an array: a boolean array. *)
Definition scalar_le_array (x : spec_float) (a : farray) : list bool :=
  let d := promote (python_float_dtype x) (fdtype a) in
  map (fun y => fleb d x y) (fdata a).

Definition array_le_scalar (a : farray) (x : spec_float) : list bool :=
  let d := promote (fdtype a) (python_float_dtype x) in
  map (fun y => fleb d y x) (fdata a).

(** [np.sum] of a 1D array, or of one row when an axis is reduced: numpy adds
    by blocks ([pairwise_sum] of its C sources).  Fewer than 8 terms are
    added to 0 from left to right.  Up to 128 terms go to 8 accumulators,
    term [i] to accumulator [i mod 8], that are then added as a balanced
    tree, and the terms beyond the last full block of 8 are added one by
    one.  More than 128 terms are split in two halves, the first a multiple
    of 8.  The sum is added to the 0 the result is initialised with. *)
Definition add_block (d : dtype) (r block : list spec_float) : list spec_float :=
  zip_with (fadd d) r block.

Fixpoint blocks8 {A : Type} (n : nat) (a : list A) : list (list A) :=
  match n with
  | O => []
  | S n' => firstn 8 a :: blocks8 n' (skipn 8 a)
  end.

Definition sum8 (d : dtype) (a : list spec_float) : spec_float :=
  let n := length a in
  let full := (n / 8)%nat in
  let r := fold_left (add_block d) (blocks8 (full - 1) (skipn 8 a)) (firstn 8 a) in
  let r k := nth k r fzero in
  let res :=
    fadd d (fadd d (fadd d (r 0%nat) (r 1%nat)) (fadd d (r 2%nat) (r 3%nat)))
           (fadd d (fadd d (r 4%nat) (r 5%nat)) (fadd d (r 6%nat) (r 7%nat))) in
  fold_left (fadd d) (skipn (8 * full) a) res.

Fixpoint pairwise_sum (fuel : nat) (d : dtype) (a : list spec_float) : spec_float :=
  let n := length a in
  if (n <? 8)%nat then fold_left (fadd d) a fzero
  else if (n <=? 128)%nat then sum8 d a
  else
    match fuel with
    | O => fzero
    | S fuel' =>
        let n2 := (n / 2 - (n / 2) mod 8)%nat in
        fadd d (pairwise_sum fuel' d (firstn n2 a))
               (pairwise_sum fuel' d (skipn n2 a))
    end.

Definition np_sum (d : dtype) (a : list spec_float) : spec_float :=
  fadd d fzero (pairwise_sum (length a) d a).

(** Python's [sum] of numpy floats: the accumulator starts as the integer
    0, and adding a numpy float to it gives a [np.float64], so the terms
    are added from left to right in [float64].  (The integer 0 that [sum]
    returns for no term is the float 0.) *)
Definition py_sum (terms : list spec_float) : spec_float :=
  fold_left (fadd float64) terms fzero.

(** ** The nearest-neighbour energy model *)

(** [_all_pairs]: [((i << 2) + j, bits2base[i] + bits2base[j])]. *)
Definition _all_pairs : list (Z * string) :=
  flat_map (fun i =>
    map (fun j =>
      (Z.shiftl (Z.of_nat i) 2 + Z.of_nat j,
       String (nth i bits2base "x"%char)
              (String (nth j bits2base "x"%char) EmptyString)))
      (seq 0 4))
    (seq 0 4).

(** A Python dict with string keys, as built by a dict comprehension. *)
Definition dict (V : Type) := list (string * V).

Fixpoint dict_get {V : Type} (d : dict V) (k : string) : result V :=
  match d with
  | [] => Raise KeyError
  | (k', v) :: d' => if String.eqb k' k then Ok v else dict_get d' k
  end.

Definition dict_set {V : Type} (d : dict V) (k : string) (v : V) : dict V :=
  if existsb (fun kv => String.eqb (fst kv) k) d
  then map (fun kv => if String.eqb (fst kv) k then (fst kv, v) else kv) d
  else d ++ [(k, v)].

(** [{pair[1]: loop_energies[pair[0]] for pair in _all_pairs}] *)
Definition dict_of_table {V : Type} (loop_energies : list V) : result (dict V) :=
  fold_left (fun acc pair =>
               d <- acc ;;
               e <- getitem loop_energies (fst pair) ;;
               Ok (dict_set d (snd pair) e))
            _all_pairs (Ok []).

(** [calculate_wc_energies].  The module constant [CACHE_WC] is [False], so
    the two blocks it guards do not run. *)
Definition pair_indices_row (r : row) : row :=
  let left_index_bits := map (fun x => ubyte_shl x 2) (removelast r) in
  let right_index_bits := tl r in
  zip_with ubyte_add left_index_bits right_index_bits.

(*                  AA    AC    AG    AT    CA    CC     CG    CT *)
Definition _dH : farray :=
  float32_array
    (map (fun tenths => decimal tenths 1)
         [-76; -84; -78; -72; -85; -80; -106; -78;
(*                  GA    GC    GG    GT    TA    TC    TG    TT *)
          -82; -98; -80; -84; -72; -82; -85; -76]).

(*                   AA     AC     AG     AT     CA     CC     CG     CT *)
Definition _dS : farray :=
  float32_array
    (map (fun tenths => decimal tenths 1)
         [-213; -224; -210; -204; -227; -199; -272; -210;
(*                   GA     GC     GG     GT     TA     TC     TG     TT *)
          -222; -244; -199; -224; -213; -222; -227; -213]).

(** [calculate_loop_energies]:
    [_dH - (temperature + 273.15) * _dS / 1000.0], negated on request.  The
    sum [temperature + 273.15] is one of Python floats; the product, the
    quotient and the difference are array operations. *)
Definition calculate_loop_energies (temperature : spec_float) (negate : bool)
  : farray :=
  let kelvin := fadd float64 temperature (decimal 27315 2) in
  let energies :=
    array_array fsub _dH
      (array_scalar fdiv (scalar_array fmul kelvin _dS) (float_of_int 1000)) in
  if negate then mk_farray (fdtype energies) (map SFopp (fdata energies))
  else energies.

(** [calculate_loop_energies_dict]: the values are the numpy floats of the
    table. *)
Definition calculate_loop_energies_dict (temperature : spec_float) (negate : bool)
  : result (dict spec_float) :=
  let loop_energies := calculate_loop_energies temperature negate in
  dict_of_table (fdata loop_energies).

(** [wcenergy]: [sum(loop_energies[seq[i:i + 2]] for i in range(len(seq) - 1))]. *)
Definition wcenergy (seq : string) (temperature : spec_float) (negate : bool)
  : result spec_float :=
  loop_energies <- calculate_loop_energies_dict temperature negate ;;
  terms <- mapM (fun i => dict_get loop_energies (substring i 2 seq))
                (List.seq 0 (str_len seq - 1)) ;;
  Ok (py_sum terms).

(** [calculate_wc_energies]: [np.sum(loop_energies[pair_indices], axis=1)],
    an array of the dtype of the table. *)
Definition calculate_wc_energies (seqarr : matrix) (temperature : spec_float)
  (negate : bool) : result farray :=
  let loop_energies := calculate_loop_energies temperature negate in
  let pair_indices := map pair_indices_row seqarr in
  pair_energies <- mapM (mapM (getitem (fdata loop_energies))) pair_indices ;;
  Ok (mk_farray (fdtype loop_energies)
                (map (np_sum (fdtype loop_energies)) pair_energies)).

(** ** Exhaustive and random construction *)

(** [l[c] = v] on a list, inside its bounds. *)
Fixpoint set_nth {A : Type} (c : nat) (v : A) (l : list A) : list A :=
  match l, c with
  | [], _ => []
  | _ :: l', O => v :: l'
  | a :: l', S c' => a :: set_nth c' v l'
  end.

(** [arr[:, c] = col]: the column must have one entry per row of [arr]. *)
Definition set_col (arr : matrix) (c : nat) (col : list Z) : result matrix :=
  if Nat.eqb (length col) (length arr)
  then Ok (zip_with (fun r v => set_nth c v r) arr col)
  else Raise ValueError.

(** [zip(a, b, c)] *)
Fixpoint zip3 {A B C : Type} (a : list A) (b : list B) (c : list C)
  : list (A * B * C) :=
  match a, b, c with
  | x :: a', y :: b', z :: c' => (x, y, z) :: zip3 a' b' c'
  | _, _, _ => []
  end.

(** [set(bases) <= {'A', 'C', 'G', 'T'}] *)
Definition subset_of_ACGT (bases : list ascii) : bool :=
  forallb (fun b => existsb (Ascii.eqb b) bits2base) bases.

(** [make_array_with_all_dna_seqs].  The flag [list_of_arrays] is [False]:
    the array is allocated once ([np.empty], here filled with 0) and written
    one column at a time. *)
Definition make_array_with_all_dna_seqs (length : nat) (bases : list ascii)
  : result matrix :=
  if negb (subset_of_ACGT bases) then Raise ValueError
  else if Nat.eqb (List.length bases) 0 then Raise ValueError
  else
    let num_bases := List.length bases in
    let num_seqs := (num_bases ^ length)%nat in
    let powers_num_bases := map (fun k => (num_bases ^ k)%nat) (seq 0 length) in
    base_bits <- mapM base2bits bases ;;
    let arr := repeat (repeat 0 length) num_seqs in
    fold_left
      (fun acc ijc =>
         let '(i, j, c) := ijc in
         arr <- acc ;;
         set_col arr c (np_tile (np_repeat base_bits i) j))
      (zip3 (rev powers_num_bases) powers_num_bases (seq 0 length))
      (Ok arr).

(** Lexicographic comparison of rows, the order of [np.unique(arr, axis=0)]. *)
Fixpoint row_compare (r1 r2 : row) : comparison :=
  match r1, r2 with
  | [], [] => Eq
  | [], _ :: _ => Lt
  | _ :: _, [] => Gt
  | a :: r1', b :: r2' =>
      match Z.compare a b with
      | Eq => row_compare r1' r2'
      | c => c
      end
  end.

Fixpoint insert_unique (r : row) (m : matrix) : matrix :=
  match m with
  | [] => [r]
  | r' :: m' =>
      match row_compare r r' with
      | Lt => r :: m
      | Eq => m
      | Gt => r' :: insert_unique r m'
      end
  end.

(** [np.unique(arr, axis=0)]: the distinct rows, sorted. *)
Definition np_unique_rows (m : matrix) : matrix :=
  fold_right insert_unique [] m.

(** ** Text: [str.split], [str.strip], [readline], [int], [str] *)

(** The characters below 256 that Python takes for whitespace: 9 to 13,
    28 to 32, 133 and 160. *)
Definition is_space (c : ascii) : bool :=
  let n := nat_of_ascii c in
  ((9 <=? n) && (n <=? 13) || (28 <=? n) && (n <=? 32) ||
   (n =? 133) || (n =? 160))%nat.

(** [s.split()]: the maximal runs of non-whitespace characters. *)
Fixpoint split_ws (cur : list ascii) (s : list ascii) : list (list ascii) :=
  match s with
  | [] => match cur with [] => [] | _ => [rev cur] end
  | c :: s' =>
      if is_space c
      then match cur with
           | [] => split_ws [] s'
           | _ => rev cur :: split_ws [] s'
           end
      else split_ws (c :: cur) s'
  end.

Definition split (s : list ascii) : list (list ascii) := split_ws [] s.

Fixpoint lstrip (s : list ascii) : list ascii :=
  match s with
  | c :: s' => if is_space c then lstrip s' else s
  | [] => []
  end.

Definition strip (s : list ascii) : list ascii :=
  rev (lstrip (rev (lstrip s))).

Definition newline : ascii := ascii_of_nat 10.
Definition carriage_return : ascii := ascii_of_nat 13.

(** [f.readline()] of a text file: the characters up to and including the
    first line end (which reads as a newline), and what remains. *)
Fixpoint readline (s : list ascii) : list ascii * list ascii :=
  match s with
  | [] => ([], [])
  | c :: s' =>
      if Ascii.eqb c newline then ([newline], s')
      else if Ascii.eqb c carriage_return then
        ([newline],
         match s' with
         | c' :: s'' => if Ascii.eqb c' newline then s'' else s'
         | [] => s'
         end)
      else let (l, rest) := readline s' in (c :: l, rest)
  end.

Definition digit_of (c : ascii) : option Z :=
  let n := nat_of_ascii c in
  if ((48 <=? n) && (n <=? 57))%nat then Some (Z.of_nat n - 48) else None.

(** Decimal digits, single underscores allowed between them. *)
Fixpoint parse_digits (acc : Z) (after_digit : bool) (s : list ascii)
  : result Z :=
  match s with
  | [] => if after_digit then Ok acc else Raise ValueError
  | c :: s' =>
      match digit_of c with
      | Some d => parse_digits (10 * acc + d) true s'
      | None =>
          if Ascii.eqb c "_"%char && after_digit
          then parse_digits acc false s'
          else Raise ValueError
      end
  end.

(** [int(s)] of a string. *)
Definition parse_int (s : list ascii) : result Z :=
  match strip s with
  | c :: s' =>
      if Ascii.eqb c "-"%char then n <- parse_digits 0 false s' ;; Ok (- n)
      else if Ascii.eqb c "+"%char then parse_digits 0 false s'
      else parse_digits 0 false (c :: s')
  | [] => Raise ValueError
  end.

(** [str(n)] of an integer. *)
Definition str_of_int (n : Z) : list ascii :=
  list_ascii_of_string (NilZero.string_of_int (Z.to_int n)).

(** The files: the text stored under each name. *)
Definition filesystem := string -> option (list ascii).

Definition fs_write (fs : filesystem) (name : string) (text : list ascii)
  : filesystem :=
  fun n => if String.eqb n name then Some text else fs n.

(** ** The class [DNASeqList] *)

(** A 2D numpy array: its rows and its [shape[1]]. *)
Record ndarray2 : Type := mk_ndarray2 { rows : matrix; ncols : nat }.

Record DNASeqList : Type := mk_DNASeqList {
  seqarr : ndarray2;
  numseqs : Z;
  seqlen : Z;
  shift : list Z
}.

(** The arguments of [DNASeqList.__init__]; [None] is the default of the
    four sources and of [num_random_seqs]. *)
Record init_args : Type := mk_init_args {
  arg_length : option nat;
  arg_num_random_seqs : option nat;
  arg_shuffle : bool;
  arg_alphabet : list ascii;
  arg_seqs : option (list string);
  arg_seqarr : option ndarray2;
  arg_filename : option string
}.

Definition default_args : init_args :=
  {| arg_length := None; arg_num_random_seqs := None; arg_shuffle := false;
     arg_alphabet := bits2base; arg_seqs := None; arg_seqarr := None;
     arg_filename := None |}.

Definition is_not_None {A : Type} (o : option A) : bool :=
  match o with Some _ => true | None => false end.

(** [it.combinations(l, 2)] *)
Fixpoint combinations2 {A : Type} (l : list A) : list (A * A) :=
  match l with
  | [] => []
  | a :: l' => map (fun b => (a, b)) l' ++ combinations2 l'
  end.

(** [np.arange(2 * (seqlen - 1), -1, -2)] *)
Definition arange_shift (seqlen : Z) : list Z :=
  map (fun k => 2 * Z.of_nat k) (rev (seq 0 (Z.to_nat seqlen))).

(** [seqarr[i] = values] for a row of [seqlen] entries: the values are as many,
    or a single one that is broadcast. *)
Definition assign_row (seqlen : nat) (values : row) : result row :=
  if Nat.eqb (length values) seqlen then Ok values
  else match values with
       | [v] => Ok (repeat v seqlen)
       | _ => Raise ValueError
       end.

(** The loop of [_read_from_file] over the lines after the header. *)
Fixpoint read_rows (n : nat) (seqlen : nat) (f : list ascii) : result matrix :=
  match n with
  | O => Ok []
  | S n' =>
      let (line, f') := readline f in
      let seq := strip line in
      values <- mapM base2bits seq ;;
      r <- assign_row seqlen values ;;
      rest <- read_rows n' seqlen f' ;;
      Ok (r :: rest)
  end.

(** [_read_from_file]: returns [(seqarr, numseqs, seqlen)].  The header must
    unpack into exactly three fields. *)
Definition _read_from_file (fs : filesystem) (filename : string)
  : result (ndarray2 * Z * Z) :=
  match fs filename with
  | None => Raise FileNotFoundError
  | Some f =>
      let (first_line, f') := readline f in
      match split first_line with
      | [num_seqs_str; seq_len_str; temperature] =>
          numseqs <- parse_int num_seqs_str ;;
          seqlen <- parse_int seq_len_str ;;
          if (numseqs <? 0) || (seqlen <? 0) then Raise ValueError
          else
            m <- read_rows (Z.to_nat numseqs) (Z.to_nat seqlen) f' ;;
            Ok (mk_ndarray2 m (Z.to_nat seqlen), numseqs, seqlen)
      | _ => Raise ValueError
      end
  end.

Section WithRng.

(** The random generator: [rng.choice(a, size=(n, l))] and the permutation
    applied by [rng.shuffle]. *)
Variable rng_choice : list Z -> nat -> nat -> matrix.
Variable rng_shuffle : matrix -> matrix.

(** [make_array_with_random_subset_of_dna_seqs] *)
Definition make_array_with_random_subset_of_dna_seqs
  (length num_seqs : nat) (bases : list ascii) : result matrix :=
  if negb (subset_of_ACGT bases) then Raise ValueError
  else if Nat.eqb (List.length bases) 0 then Raise ValueError
  else if Nat.eqb (List.length bases) 1 then Raise ValueError
  else
    base_bits <- mapM base2bits bases ;;
    let arr := rng_choice base_bits num_seqs length in
    Ok (np_unique_rows arr).

(** [DNASeqList.shuffle] *)
Definition shuffle (self : DNASeqList) : DNASeqList :=
  {| seqarr := mk_ndarray2 (rng_shuffle (rows (seqarr self))) (ncols (seqarr self));
     numseqs := numseqs self; seqlen := seqlen self; shift := shift self |}.

(** [DNASeqList.__init__] *)
Definition DNASeqList_init (fs : filesystem) (a : init_args) : result DNASeqList :=
  if existsb (fun v => fst v && snd v)
       (combinations2 [is_not_None (arg_length a); is_not_None (arg_seqs a);
                       is_not_None (arg_seqarr a); is_not_None (arg_filename a)])
  then Raise ValueError
  else
    fields <-
      match arg_seqarr a, arg_seqs a, arg_filename a, arg_length a with
      | Some seqarr, _, _, _ =>
          Ok (seqarr, Z.of_nat (length (rows seqarr)), Z.of_nat (ncols seqarr))
      | None, Some seqs, _, _ =>
          match seqs with
          | [] => Raise ValueError
          | s0 :: _ =>
              let seqlen := str_len s0 in
              if forallb (fun s => Nat.eqb (str_len s) seqlen) seqs
              then
                m <- seqs2arr seqs ;;
                Ok (mk_ndarray2 m seqlen, Z.of_nat (length seqs), Z.of_nat seqlen)
              else Raise ValueError
          end
      | None, None, Some filename, _ => _read_from_file fs filename
      | None, None, None, Some length =>
          m <- match arg_num_random_seqs a with
               | None => make_array_with_all_dna_seqs length (arg_alphabet a)
               | Some n =>
                   make_array_with_random_subset_of_dna_seqs length n (arg_alphabet a)
               end ;;
          Ok (mk_ndarray2 m length, Z.of_nat (List.length m), Z.of_nat length)
      | None, None, None, None => Raise ValueError
      end ;;
    let '(arr, n, l) := fields in
    let self := {| seqarr := arr; numseqs := n; seqlen := l; shift := arange_shift l |} in
    Ok (if arg_shuffle a then shuffle self else self).

(** [get_seq_str]: [arr2seq(self.seqarr[idx])] *)
Definition get_seq_str (self : DNASeqList) (idx : Z) : result string :=
  r <- getitem (rows (seqarr self)) idx ;;
  arr2seq r.

(** The loop of [write_to_file]: the text written so far, and whether a row
    raised. *)
Fixpoint write_rows (self : DNASeqList) (idxs : list nat) (written : list ascii)
  : list ascii * result unit :=
  match idxs with
  | [] => (written, Ok tt)
  | i :: idxs' =>
      match get_seq_str self (Z.of_nat i) with
      | Ok s => write_rows self idxs' (written ++ list_ascii_of_string s ++ [newline])
      | Raise e => (written, Raise e)
      end
  end.

(** [write_to_file]: the file is created or truncated, then receives the
    header [str(numseqs) + ' ' + str(seqlen)] and one line per sequence; it
    keeps what was written when a row raises. *)
Definition write_to_file (self : DNASeqList) (fs : filesystem) (filename : string)
  : filesystem * result unit :=
  let header :=
    str_of_int (numseqs self) ++ [" "%char] ++ str_of_int (seqlen self) ++ [newline] in
  let (text, r) :=
    write_rows self (seq 0 (Z.to_nat (numseqs self))) header in
  (fs_write fs filename text, r).

(** [pop_array]: remove and return the last row. *)
Definition pop_array (self : DNASeqList) : result (row * DNASeqList) :=
  arr <- getitem (rows (seqarr self)) (-1) ;;
  Ok (arr,
      {| seqarr := mk_ndarray2 (removelast (rows (seqarr self))) (ncols (seqarr self));
         numseqs := numseqs self - 1; seqlen := seqlen self; shift := shift self |}).

(** Hamming distance of two rows: [np.sum(np.bitwise_xor(a, b) != 0)]. *)
Definition hamming (a b : row) : Z :=
  Z.of_nat (length (filter (fun x => negb (x =? 0)) (zip_with Z.lxor a b))).

(** [np.min] of a 1D array; the empty array raises. *)
Definition np_min (l : list Z) : result Z :=
  match l with
  | [] => Raise ValueError
  | x :: l' => Ok (fold_left Z.min l' x)
  end.

(** [np.min(np.sum(np.bitwise_xor(arr_keep, seq) != 0, axis=1))] *)
Definition hamming_min_of (arr_keep : matrix) (seq : row) : result Z :=
  np_min (map (fun k => hamming k seq) arr_keep).

(** The loops of [filter_hamming].  A [while] loop is unrolled [fuel] times;
    [None] means the fuel ran out before the loop ended. *)
Fixpoint filter_hamming_inner (fuel : nat) (threshold : Z) (arr_keep : matrix)
  (seq : row) (self : DNASeqList) : option (result (row * DNASeqList)) :=
  match fuel with
  | O => None
  | S fuel' =>
      if (0 <? length (rows (seqarr self)))%nat then
        match hamming_min_of arr_keep seq with
        | Raise e => Some (Raise e)
        | Ok hamming_min =>
            let too_close := hamming_min <? threshold in
            if negb too_close then Some (Ok (seq, self))
            else match pop_array self with
                 | Raise e => Some (Raise e)
                 | Ok (seq', self') =>
                     filter_hamming_inner fuel' threshold arr_keep seq' self'
                 end
        end
      else Some (Ok (seq, self))
  end.

Fixpoint filter_hamming_outer (fuel : nat) (threshold : Z) (arr_keep : matrix)
  (self : DNASeqList) : option (result (matrix * DNASeqList)) :=
  match fuel with
  | O => None
  | S fuel' =>
      if (0 <? length (rows (seqarr self)))%nat then
        match pop_array self with
        | Raise e => Some (Raise e)
        | Ok (seq, self1) =>
            match filter_hamming_inner fuel threshold arr_keep seq self1 with
            | None => None
            | Some (Raise e) => Some (Raise e)
            | Some (Ok (seq', self2)) =>
                filter_hamming_outer fuel' threshold (arr_keep ++ [seq']) self2
            end
        end
      else Some (Ok (arr_keep, self))
  end.

(** [filter_hamming]: the receiver after the call. *)
Definition filter_hamming (fuel : nat) (self : DNASeqList) (threshold : Z)
  : option (result DNASeqList) :=
  match pop_array self with
  | Raise e => Some (Raise e)
  | Ok (seq, self1) =>
      let arr_keep := [seq] in
      let self2 := shuffle self1 in
      match filter_hamming_outer fuel threshold arr_keep self2 with
      | None => None
      | Some (Raise e) => Some (Raise e)
      | Some (Ok (arr_keep', self3)) =>
          Some (Ok {| seqarr := mk_ndarray2 arr_keep' (length seq);
                      numseqs := Z.of_nat (length arr_keep');
                      seqlen := seqlen self3; shift := shift self3 |})
      end
  end.

End WithRng.

(** ** The substring filter *)

(** [[4 ** k for k in range(sublen)]], a list of Python integers. *)
Definition powarr_of (sublen : nat) : list Z :=
  map (fun k => 4 ^ Z.of_nat k) (seq 0 sublen).

(** Storing a Python integer in an [np.int] array. *)
Definition to_int64 (z : Z) : result Z :=
  if fits64 z then Ok z else Raise OverflowError.

(** [np.dot] of two 1D arrays of Python integers (exact). *)
Definition dot_exact (u v : list Z) : Z :=
  fold_left Z.add (zip_with Z.mul u v) 0.

(** [np.dot] of two 1D arrays in [np.int] arithmetic: every product and every
    partial sum wraps. *)
Definition dot64 (u v : list Z) : Z :=
  fold_left (fun acc p => wrap64 (acc + p))
            (zip_with (fun a b => wrap64 (a * b)) u v) 0.

(** [np.roll(a, shift)] on a 1D array. *)
Definition np_roll {A : Type} (a : list A) (shift : nat) : list A :=
  match length a with
  | O => a
  | S _ =>
      let k := (shift mod length a)%nat in
      skipn (length a - k) a ++ firstn (length a - k) a
  end.

(** [create_toeplitz(seqlen, sublen)] *)
Definition create_toeplitz (seqlen : Z) (sublen : nat) : result (list (list Z)) :=
  let powarr := powarr_of sublen in
  let rows := seqlen - (Z.of_nat sublen - 1) in
  let cols := seqlen in
  if (rows <? 0) || (cols <? 0) then Raise ValueError
  else
    let toeplitz := repeat (repeat 0 (Z.to_nat cols)) (Z.to_nat rows) in
    (* toeplitz[:, 0:sublen] = [powarr] * rows *)
    toeplitz <-
      (if rows =? 0
       then (if cols =? 0 then Ok toeplitz else Raise ValueError)
       else
         powarr64 <- mapM to_int64 powarr ;;
         Ok (map (fun r => powarr64 ++ skipn sublen r) toeplitz)) ;;
    let shift := seq 0 (Z.to_nat rows) in
    (* for i in range(rows): toeplitz[i] = np.roll(toeplitz[i], shift[i]) *)
    Ok (zip_with (fun r s => np_roll r s) toeplitz shift).

(** [DNASeqList(seqarr=a)]: what the constructor builds from the source
    [seqarr] alone. *)
Definition DNASeqList_of_seqarr (a : ndarray2) : DNASeqList :=
  {| seqarr := a;
     numseqs := Z.of_nat (length (rows a));
     seqlen := Z.of_nat (ncols a);
     shift := arange_shift (Z.of_nat (ncols a)) |}.

(** [arr[mask]] on the rows of a 2D array, with a mask of one flag per row. *)
Fixpoint select_rows {A : Type} (mask : list bool) (arr : list A) : list A :=
  match mask, arr with
  | b :: mask', r :: arr' =>
      if b then r :: select_rows mask' arr' else select_rows mask' arr'
  | _, _ => []
  end.

(** [filter_substring].  The arrays [toeplitz] and [convolution] are [np.int]
    arrays; [subvals] is one when the powers of 4 fit [np.int], and an array
    of Python integers otherwise.  [convolution] is kept by columns: one list
    of window values per sequence. *)
Definition filter_substring (self : DNASeqList) (subs : list string)
  : result DNASeqList :=
  if negb (Nat.eqb (length (nodup Nat.eq_dec (map str_len subs))) 1)
  then Raise ValueError
  else
    let sublen := match subs with s0 :: _ => str_len s0 | [] => 0%nat end in
    subints <- mapM (fun sub => mapM base2bits (list_ascii_of_string sub)) subs ;;
    let powarr := powarr_of sublen in
    let subvals :=
      if forallb fits64 powarr
      then map (fun s => dot64 s powarr) subints
      else map (fun s => dot_exact s powarr) subints in
    toeplitz <- create_toeplitz (seqlen self) sublen ;;
    if negb (seqlen self =? Z.of_nat (ncols (seqarr self))) then Raise ValueError
    else
      let convolution :=
        map (fun r => map (fun t => dot64 t r) toeplitz) (rows (seqarr self)) in
      if negb (numseqs self =? Z.of_nat (length (rows (seqarr self))))
      then Raise ValueError
      else
        let passall := repeat true (Z.to_nat (numseqs self)) in
        let passall :=
          fold_left
            (fun passall subval =>
               let passsub :=
                 map (forallb (fun c => negb (c =? subval))) convolution in
               zip_with andb passall passsub)
            subvals passall in
        let seqarrpass := select_rows passall (rows (seqarr self)) in
        Ok (DNASeqList_of_seqarr (mk_ndarray2 seqarrpass (ncols (seqarr self)))).

(** ** Boolean masks *)

(** The number of flags of a mask that are set. *)
Definition count_true (m : list bool) : nat := length (filter (fun b : bool => b) m).

(** The values [vals] written over [arr] at the set flags of [m]. *)
Fixpoint overlay {A : Type} (m : list bool) (vals arr : list A) : list A :=
  match m, arr with
  | b :: m', a :: arr' =>
      if b then
        match vals with
        | v :: vals' => v :: overlay m' vals' arr'
        | [] => a :: overlay m' [] arr'
        end
      else a :: overlay m' vals arr'
  | _, _ => arr
  end.

(** The same on a 2D array, row after row, the values in one list. *)
Fixpoint overlay2 {A : Type} (masks : list (list bool)) (vals : list A)
  (arr : list (list A)) : list (list A) :=
  match masks, arr with
  | m :: masks', r :: arr' =>
      overlay m (firstn (count_true m) vals) r
      :: overlay2 masks' (skipn (count_true m) vals) arr'
  | _, _ => arr
  end.

(** A boolean array used as an index must have the shape of the axes it
    indexes: numpy raises [IndexError] when it has not.  (A mismatch was
    accepted, with a warning, up to numpy 1.12; the module needs numpy 1.17,
    for [np.random.default_rng].) *)
Definition same_shape2 {A B : Type} (m : list (list A)) (a : list (list B)) : bool :=
  Nat.eqb (length m) (length a) &&
  forallb (fun p => Nat.eqb (length (fst p)) (length (snd p))) (combine m a).

(** [arr[mask]] on a 1D array: the entries at the flags that are set. *)
Definition take_mask {A : Type} (mask : list bool) (arr : list A) : result (list A) :=
  if Nat.eqb (length mask) (length arr) then Ok (select_rows mask arr)
  else Raise IndexError.

(** [arr[mask]] with a 2D mask on a 2D array: a 1D array, row after row. *)
Definition take_mask2 {A : Type} (mask : list (list bool)) (arr : list (list A))
  : result (list A) :=
  if same_shape2 mask arr then Ok (concat (zip_with (@select_rows A) mask arr))
  else Raise IndexError.

(** The values assigned through a mask that has [n] flags set: as many
    values, or a single value for all of them. *)
Definition assigned_values {A : Type} (n : nat) (values : list A) : result (list A) :=
  if Nat.eqb (length values) n then Ok values
  else match values with
       | [v] => Ok (repeat v n)
       | _ => Raise ValueError
       end.

(** [arr[mask] = values] on a 1D array. *)
Definition put_mask1 {A : Type} (mask : list bool) (arr : list A)
  (values : list A) : result (list A) :=
  if negb (Nat.eqb (length mask) (length arr)) then Raise IndexError
  else
    vals <- assigned_values (count_true mask) values ;;
    Ok (overlay mask vals arr).

(** [arr[mask] = values] with a 2D mask on a 2D array. *)
Definition put_mask2 {A : Type} (mask : list (list bool)) (arr : list (list A))
  (values : list A) : result (list (list A)) :=
  if negb (same_shape2 mask arr) then Raise IndexError
  else
    vals <- assigned_values (count_true (concat mask)) values ;;
    Ok (overlay2 mask vals arr).

(** ** Longest common substrings *)

(** [t[i]] of an array along its first axis. *)
Definition get_layer {L : Type} (t : list L) (i : nat) : result L :=
  match nth_error t i with
  | Some l => Ok l
  | None => Raise IndexError
  end.

(** The loop [for i1 in range(n): counter[i1 + 1, ...] = f(counter[i1, ...])]
    shared by the matchers: [step i1 prev next] is the new value of the slice
    [counter[i1 + 1]], from the slices [counter[i1]] and [counter[i1 + 1]]. *)
Definition dp_loop {L : Type} (step : nat -> L -> L -> result L) (n : nat)
  (counter : list L) : result (list L) :=
  fold_left
    (fun acc i1 =>
       counter <- acc ;;
       prev <- get_layer counter i1 ;;
       next <- get_layer counter (S i1) ;;
       next' <- step i1 prev next ;;
       Ok (set_nth (S i1) next' counter))
    (seq 0 n) (Ok counter).

(** [np.argmax] of a 1D array: the first index of a largest entry. *)
Fixpoint argmax_from {A : Type} (ltb : A -> A -> bool) (best_i : nat) (best : A)
  (i : nat) (l : list A) : nat :=
  match l with
  | [] => best_i
  | x :: l' =>
      if ltb best x then argmax_from ltb i x (S i) l'
      else argmax_from ltb best_i best (S i) l'
  end.

Definition np_argmax {A : Type} (ltb : A -> A -> bool) (l : list A) : result nat :=
  match l with
  | [] => Raise ValueError
  | x :: l' => Ok (argmax_from ltb 0 x 1 l')
  end.

(** [np.unravel_index(idx, (rows, cols))] *)
Definition unravel_index (idx cols : nat) : nat * nat :=
  ((idx / cols)%nat, (idx mod cols)%nat).

(** The state of the scalar loops of [longest_common_substring]. *)
Record lcs_state : Type := mk_lcs_state {
  st_counter : list (list Z);
  st_a1idx : Z;
  st_a2idx : Z;
  st_len : Z
}.

Definition get2 (counter : list (list Z)) (i j : nat) : Z :=
  nth j (nth i counter []) 0.

Definition set2 (counter : list (list Z)) (i j : nat) (v : Z) : list (list Z) :=
  set_nth i (set_nth j v (nth i counter [])) counter.

(** [longest_common_substring(a1, a2, vectorized)] *)
Definition longest_common_substring (a1 a2 : list Z) (vectorized : bool)
  : result (Z * Z * Z) :=
  let counter := repeat (repeat 0 (S (length a2))) (S (length a1)) in
  if vectorized then
    counter <-
      dp_loop
        (fun i1 prev next =>
           let idx := map (fun y => y =? nth i1 a1 0) a2 in
           let idx_shifted := false :: idx in
           values <- take_mask idx prev ;;
           put_mask1 idx_shifted next (map (fun c => c + 1) values))
        (length a1) counter ;;
    let flat := concat counter in
    raveled <- np_argmax Z.ltb flat ;;
    let idx_longest := unravel_index raveled (S (length a2)) in
    if (0 <? fst idx_longest)%nat then
      let len_longest := get2 counter (fst idx_longest) (snd idx_longest) in
      Ok (Z.of_nat (fst idx_longest) - len_longest,
          Z.of_nat (snd idx_longest) - len_longest,
          len_longest)
    else Ok (-1, -1, 0)
  else
    let final :=
      fold_left
        (fun st i1 =>
           fold_left
             (fun st i2 =>
                if nth i1 a1 0 =? nth i2 a2 0 then
                  let c := get2 (st_counter st) i1 i2 + 1 in
                  let counter := set2 (st_counter st) (S i1) (S i2) c in
                  if st_len st <? c
                  then mk_lcs_state counter (Z.of_nat i1 + 1 - c)
                                    (Z.of_nat i2 + 1 - c) c
                  else mk_lcs_state counter (st_a1idx st) (st_a2idx st) (st_len st)
                else st)
             (seq 0 (length a2)) st)
        (seq 0 (length a1)) (mk_lcs_state counter (-1) (-1) 0) in
    Ok (st_a1idx final, st_a2idx final, st_len final).

(** [counter.swapaxes(0, 1)] of a 3D array with [numpairs] entries on its
    second axis. *)
Definition swapaxes01 {A : Type} (t : list (list (list A))) (numpairs : nat)
  : list (list (list A)) :=
  map (fun p => map (fun layer => nth p layer []) t) (seq 0 numpairs).

(** [a[np.arange(len(a)), idx]] *)
Definition pick {A : Type} (default : A) (a : list (list A)) (idx : list nat)
  : list A :=
  zip_with (fun r i => nth i r default) a idx.

(** The match mask of column [i1] of [a1s] against [a2s]:
    [a2s == np.repeat(a1s[:, i1].reshape(numpairs, 1), len_a2, axis=1)]. *)
Definition match_mask (a1s a2s : list (list Z)) (len_a2 i1 : nat)
  : list (list bool) :=
  let a1s_col := map (fun r => nth i1 r 0) a1s in
  let a1s_col_rp := map (fun x => repeat x len_a2) a1s_col in
  zip_with (zip_with Z.eqb) a2s a1s_col_rp.

(** [_longest_common_substrings_pairs(a1s, a2s)] *)
Definition _longest_common_substrings_pairs (a1s a2s : list (list Z))
  : result (list Z * list Z * list Z) :=
  if negb (Nat.eqb (length a1s) (length a2s)) then Raise AssertionError
  else
    let numpairs := length a1s in
    let len_a1 := shape1 a1s in
    let len_a2 := shape1 a2s in
    let counter := repeat (repeat (repeat 0 (S len_a2)) numpairs) (S len_a1) in
    counter <-
      dp_loop
        (fun i1 prev next =>
           let idx := match_mask a1s a2s len_a2 i1 in
           let idx_shifted := map (cons false) idx in
           values <- take_mask2 idx prev ;;
           put_mask2 idx_shifted next (map (fun c => c + 1) values))
        len_a1 counter ;;
    let counter := swapaxes01 counter numpairs in
    let counter_flat := map (@concat Z) counter in
    idx_longest_raveled <- mapM (np_argmax Z.ltb) counter_flat ;;
    let len_longest := pick 0 counter_flat idx_longest_raveled in
    let idx_longest := map (fun i => unravel_index i (S len_a2)) idx_longest_raveled in
    let a1idx_longest :=
      zip_with (fun i l => Z.of_nat (fst i) - l) idx_longest len_longest in
    let a2idx_longest :=
      zip_with (fun i l => Z.of_nat (snd i) - l) idx_longest len_longest in
    Ok (a1idx_longest, a2idx_longest, len_longest).



(** ** Strongest common substrings *)

(** The test by which [np.argmax] moves on to a later entry [x] of an array
    of floats: [not (x <= best)], and never past a NaN, which is maximal. *)
Definition float_gtb (best x : spec_float) : bool :=
  match best with
  | S754_nan => false
  | _ => negb (fleb float64 x best)
  end.

(** Elementwise sum of two 1D arrays, in [float64]; an array of one entry is
    broadcast. *)
Definition add_arrays (u v : list spec_float) : result (list spec_float) :=
  if Nat.eqb (length u) (length v) then Ok (zip_with (fadd float64) u v)
  else
    match u, v with
    | [x], _ => Ok (map (fun y => fadd float64 x y) v)
    | _, [y] => Ok (map (fun x => fadd float64 x y) u)
    | _, _ => Raise ValueError
    end.

(** The state of the loop: the two tables and [prev_match_shifted_idxs]. *)
Record strongest_state : Type := mk_strongest_state {
  ss_counter : list (list (list Z));
  ss_energies : list (list (list spec_float));
  ss_prev : option (list (list bool))
}.

(** One iteration of the loop of
    [_strongest_common_substrings_all_pairs_return_energies_and_counter]. *)
Definition strongest_iteration (a1s a2s : list (list Z)) (len_a2 : nat)
  (loop_energies : farray) (st : strongest_state) (i1 : nat)
  : result strongest_state :=
  (* find matching chars and extend length of substring *)
  let match_idxs := match_mask a1s a2s len_a2 i1 in
  let match_shifted_idxs := map (cons false) match_idxs in
  c_prev <- get_layer (ss_counter st) i1 ;;
  c_next <- get_layer (ss_counter st) (S i1) ;;
  values <- take_mask2 match_idxs c_prev ;;
  c_next <- put_mask2 match_shifted_idxs c_next (map (fun c => c + 1) values) ;;
  let counter := set_nth (S i1) c_next (ss_counter st) in
  energies <-
    (if (0 <? i1)%nat then
       (* calculate energy if matching substring has length > 1 *)
       match ss_prev st with
       | None => Raise TypeError
       | Some prev_match_shifted_idxs =>
           let prev_bases := map (fun r => nth (i1 - 1) r 0) a1s in
           let cur_bases := map (fun r => nth i1 r 0) a1s in
           let loops :=
             zip_with (fun p c => ubyte_add (ubyte_shl p 2) c) prev_bases cur_bases in
           latest_energies <- mapM (getitem (fdata loop_energies)) loops ;;
           let latest_energies_rp := map (fun e => repeat e len_a2) latest_energies in
           let match_idxs_false_at_end := map (fun r => r ++ [false]) match_idxs in
           let both_match_idxs :=
             zip_with (zip_with andb) match_idxs_false_at_end prev_match_shifted_idxs in
           let prev_match_shifted_shifted_idxs :=
             map (fun r => removelast (false :: r)) prev_match_shifted_idxs in
           let both_match_shifted_idxs :=
             zip_with (zip_with andb) match_shifted_idxs
                      prev_match_shifted_shifted_idxs in
           e_prev <- get_layer (ss_energies st) i1 ;;
           e_next <- get_layer (ss_energies st) (S i1) ;;
           v1 <- take_mask2 both_match_idxs e_prev ;;
           v2 <- take_mask2 both_match_idxs latest_energies_rp ;;
           values <- add_arrays v1 v2 ;;
           e_next <- put_mask2 both_match_shifted_idxs e_next values ;;
           Ok (set_nth (S i1) e_next (ss_energies st))
       end
     else Ok (ss_energies st)) ;;
  Ok (mk_strongest_state counter energies (Some match_shifted_idxs)).

(** [_strongest_common_substrings_all_pairs_return_energies_and_counter] *)
Definition _strongest_common_substrings_all_pairs_return_energies_and_counter
  (a1s a2s : list (list Z)) (temperature : spec_float)
  : result (list (list (list Z)) * list (list (list spec_float))) :=
  if negb (Nat.eqb (length a1s) (length a2s)) then Raise AssertionError
  else
    let numpairs := length a1s in
    let len_a1 := shape1 a1s in
    let len_a2 := shape1 a2s in
    let counter := repeat (repeat (repeat 0 (S len_a2)) numpairs) (S len_a1) in
    let energies := repeat (repeat (repeat fzero (S len_a2)) numpairs) (S len_a1) in
    let loop_energies := calculate_loop_energies temperature false in
    st <- fold_left
            (fun acc i1 =>
               st <- acc ;;
               strongest_iteration a1s a2s len_a2 loop_energies st i1)
            (seq 0 len_a1)
            (Ok (mk_strongest_state counter energies None)) ;;
    Ok (swapaxes01 (ss_counter st) numpairs, swapaxes01 (ss_energies st) numpairs).

(** [_strongest_common_substrings_all_pairs]: returns
    [(a1idx_strongest, a2idx_strongest, len_strongest, energy_strongest)]. *)
Definition _strongest_common_substrings_all_pairs (a1s a2s : list (list Z))
  (temperature : spec_float)
  : result (list Z * list Z * list Z * list spec_float) :=
  let len_a2 := shape1 a2s in
  r <- _strongest_common_substrings_all_pairs_return_energies_and_counter
         a1s a2s temperature ;;
  let counter_flat := map (@concat Z) (fst r) in
  let energies_flat := map (@concat spec_float) (snd r) in
  idx_strongest_raveled <- mapM (np_argmax float_gtb) energies_flat ;;
  let len_strongest := pick 0 counter_flat idx_strongest_raveled in
  let energy_strongest := pick fzero energies_flat idx_strongest_raveled in
  let idx_strongest :=
    map (fun i => unravel_index i (S len_a2)) idx_strongest_raveled in
  let a1idx_strongest :=
    zip_with (fun i l => Z.of_nat (fst i) - l) idx_strongest len_strongest in
  let a2idx_strongest :=
    zip_with (fun i l => Z.of_nat (snd i) - l) idx_strongest len_strongest in
  Ok (a1idx_strongest, a2idx_strongest, len_strongest, energy_strongest).

(** [strongest_common_substrings_all_pairs_string] *)
Definition strongest_common_substrings_all_pairs_string (seqs1 seqs2 : list string)
  (temperature : spec_float)
  : result (list Z * list Z * list Z * list spec_float) :=
  a1s <- seqs2arr seqs1 ;;
  a2s <- seqs2arr seqs2 ;;
  _strongest_common_substrings_all_pairs a1s (wc_arr a2s) temperature.

(** ** Notions used to state the properties *)

(** The number of construction sources passed to the constructor. *)
Definition num_sources (a : init_args) : nat :=
  length (filter (fun b : bool => b)
    [is_not_None (arg_length a); is_not_None (arg_seqs a);
     is_not_None (arg_seqarr a); is_not_None (arg_filename a)]).

(** The strings over the upper-case alphabet {A, C, G, T}. *)
Definition upper_base (c : ascii) : Prop := In c bits2base.

(** The symbol of a code. *)
Definition base_of (z : Z) : ascii := nth (Z.to_nat z) bits2base "x"%char.

(** The dinucleotides of a string, from left to right. *)
Fixpoint pairs_of (s : string) : list string :=
  match s with
  | String c1 s' =>
      match s' with
      | String c2 _ => String c1 (String c2 EmptyString) :: pairs_of s'
      | EmptyString => []
      end
  | EmptyString => []
  end.

(** The code of a symbol ([0] outside the domain of [base2bits]). *)
Definition bits_of_base (c : ascii) : Z :=
  match base2bits c with
  | Ok z => z
  | Raise _ => 0
  end.

(** All words of a given length over the symbols [bits], the last position
    varying fastest. *)
Fixpoint enumerate (bits : list Z) (length : nat) : matrix :=
  match length with
  | O => [[]]
  | S n => flat_map (fun r => map (fun b => r ++ [b]) bits) (enumerate bits n)
  end.

(** The strict lexicographic order on rows induced by an order [R] on the
    entries: the rows agree up to a position where the entries are related. *)
Inductive lex (R : Z -> Z -> Prop) : row -> row -> Prop :=
| lex_head (a b : Z) (r1 r2 : row) : R a b -> lex R (a :: r1) (b :: r2)
| lex_tail (a : Z) (r1 r2 : row) : lex R r1 r2 -> lex R (a :: r1) (a :: r2).

(** Naive containment: does [sub] occur in [r] as a contiguous block? *)
Fixpoint is_prefix (sub r : list Z) : bool :=
  match sub, r with
  | [], _ => true
  | a :: sub', b :: r' => (a =? b) && is_prefix sub' r'
  | _ :: _, [] => false
  end.

Fixpoint contains (sub r : list Z) : bool :=
  is_prefix sub r ||
  match r with
  | [] => false
  | _ :: r' => contains sub r'
  end.

(** A DNASeqList as the constructor and the mutators leave it: the counters
    agree with the shape of the array, whose entries are codes. *)
Definition wf_DNASeqList (self : DNASeqList) : Prop :=
  numseqs self = Z.of_nat (length (rows (seqarr self))) /\
  seqlen self = Z.of_nat (ncols (seqarr self)) /\
  rect (ncols (seqarr self)) (rows (seqarr self)) /\
  codes (rows (seqarr self)).

(** The slices computed by a loop that derives slice [i + 1] from slice [i]. *)
Fixpoint layer_at {L : Type} (F : nat -> L -> L) (z : L) (i : nat) : L :=
  match i with
  | O => z
  | S k => F k (layer_at F z k)
  end.

(** One row of the match-length table from the previous one: the count grows
    along the diagonal where the symbols match and restarts at 0 elsewhere. *)
Definition lcs_next (m : list bool) (prev : list Z) : list Z :=
  0 :: zip_with (fun (b : bool) c => if b then c + 1 else 0) m prev.

(** The match-length table of two rows: row [i + 1] extends the matches of
    row [i] by the symbol [a1[i]]. *)
Definition lcs_step (a1 a2 : list Z) (i : nat) (prev : list Z) : list Z :=
  lcs_next (map (fun y => y =? nth i a1 0) a2) prev.

Definition lcs_table (a1 a2 : list Z) : list (list Z) :=
  map (layer_at (lcs_step a1 a2) (repeat 0 (S (length a2))))
      (seq 0 (S (length a1))).

(** The first index of a largest entry. *)
Definition first_max (l : list Z) : nat :=
  match l with
  | [] => 0%nat
  | x :: l' => argmax_from Z.ltb 0 x 1 l'
  end.

(** The window that the first largest entry of the table stands for:
    (start in [a1], start in [a2], length). *)
Definition best_window (a1 a2 : list Z) : Z * Z * Z :=
  let flat := concat (lcs_table a1 a2) in
  let r := first_max flat in
  let l := nth r flat 0 in
  (Z.of_nat (r / S (length a2)) - l, Z.of_nat (r mod S (length a2)) - l, l).


(** The stacking energies of a row of codes: the entry of the table for
    every two adjacent symbols, from left to right. *)
Definition row_terms (table : farray) (r : row) : list spec_float :=
  zip_with (fun a b => nth (Z.to_nat (4 * a + b)) (fdata table) S754_nan)
           (removelast r) (tl r).

(** Their sum as [np.sum] computes it in the dtype of the table, and as
    Python's [sum] computes it. *)
Definition batched_energy (temperature : spec_float) (negate : bool) (r : row)
  : spec_float :=
  let table := calculate_loop_energies temperature negate in
  np_sum (fdtype table) (row_terms table r).

Definition scalar_energy (temperature : spec_float) (negate : bool) (r : row)
  : spec_float :=
  py_sum (row_terms (calculate_loop_energies temperature negate) r).

(** ** The other methods of [DNASeqList] *)

(** [to_list]: [[self.get_seq_str(idx) for idx in range(self.numseqs)]] *)
Definition to_list (self : DNASeqList) : result (list string) :=
  mapM (fun idx => get_seq_str self (Z.of_nat idx))
       (seq 0 (Z.to_nat (numseqs self))).

(** [pop]: removes and returns the last sequence, as a string.  The string
    is computed first: when that raises, the list is unchanged. *)
Definition pop (self : DNASeqList) : result (string * DNASeqList) :=
  seq_str <- get_seq_str self (-1) ;;
  Ok (seq_str,
      {| seqarr := mk_ndarray2 (removelast (rows (seqarr self))) (ncols (seqarr self));
         numseqs := numseqs self - 1; seqlen := seqlen self; shift := shift self |}).

(** [append_arr]: [np.vstack([self.seqarr, newarr])] needs a row of as many
    entries as the array has columns. *)
Definition append_arr (self : DNASeqList) (newarr : row) : result DNASeqList :=
  if Nat.eqb (length newarr) (ncols (seqarr self)) then
    Ok {| seqarr := mk_ndarray2 (rows (seqarr self) ++ [newarr]) (ncols (seqarr self));
          numseqs := numseqs self + 1; seqlen := seqlen self; shift := shift self |}
  else Raise ValueError.

(** [append_seq] *)
Definition append_seq (self : DNASeqList) (newseq : string) : result DNASeqList :=
  newarr <- seq2arr newseq ;;
  append_arr self newarr.

(** [op(a, v)] for a 2D array [a] and a 1D array [v], with numpy's
    broadcasting: [v] is combined with every row; an axis of length 1 is
    stretched; other shapes raise. *)
Definition broadcast_rows (op : Z -> Z -> Z) (a : ndarray2) (v : row)
  : result matrix :=
  if Nat.eqb (length v) (ncols a)
  then Ok (map (fun r => zip_with op r v) (rows a))
  else if Nat.eqb (length v) 1
  then Ok (map (fun r => map (fun x => op x (hd 0 v)) r) (rows a))
  else if Nat.eqb (ncols a) 1
  then Ok (map (fun r => map (fun y => op (hd 0 r) y) v) (rows a))
  else Raise ValueError.

(** [x != 0] on a 1D array *)
Definition nonzero (r : row) : list bool := map (fun x => negb (x =? 0)) r.

(** [__contains__]: [np.any(~np.any(self.seqarr - arr, 1))] *)
Definition DNASeqList_contains (self : DNASeqList) (seq : string) : result bool :=
  if negb (Z.of_nat (str_len seq) =? seqlen self) then Ok false
  else
    arr <- seq2arr seq ;;
    diff <- broadcast_rows ubyte_sub (seqarr self) arr ;;
    Ok (existsb (fun r => negb (existsb (fun b : bool => b) (nonzero r))) diff).

(** [hamming_min]: the minimum Hamming distance between [arr] and any
    sequence of the list. *)
Definition hamming_min (self : DNASeqList) (arr : row) : result Z :=
  x <- broadcast_rows Z.lxor (seqarr self) arr ;;
  let distances :=
    map (fun r => Z.of_nat (length (filter (fun x => negb (x =? 0)) r))) x in
  np_min distances.

(** [seqarr[:, pos]]: one column; [pos] may count from the end. *)
Definition column (a : ndarray2) (pos : Z) : result (list Z) :=
  let n := Z.of_nat (ncols a) in
  let j := if pos <? 0 then pos + n else pos in
  if (j <? 0) || (n <=? j) then Raise IndexError
  else Ok (map (fun r => nth (Z.to_nat j) r 0) (rows a)).

(** [col == bits], [m1 | m2] and [m1 & m2] on 1D arrays *)
Definition eq_arr (col : list Z) (bits : Z) : list bool :=
  map (fun x => x =? bits) col.
Definition or_arr (m1 m2 : list bool) : list bool := zip_with orb m1 m2.
Definition and_arr (m1 m2 : list bool) : list bool := zip_with andb m1 m2.

(** [DNASeqList(seqarr=self.seqarr[good])] *)
Definition keep_rows (self : DNASeqList) (good : list bool) : DNASeqList :=
  DNASeqList_of_seqarr
    (mk_ndarray2 (select_rows good (rows (seqarr self))) (ncols (seqarr self))).

(** [filter_end_gc] *)
Definition filter_end_gc (self : DNASeqList) : result DNASeqList :=
  left <- column (seqarr self) 0 ;;
  right <- column (seqarr self) (-1) ;;
  left_p1 <- column (seqarr self) 1 ;;
  left_p2 <- column (seqarr self) 2 ;;
  right_m1 <- column (seqarr self) (-2) ;;
  right_m2 <- column (seqarr self) (-3) ;;
  abits <- base2bits "A" ;;
  cbits <- base2bits "C" ;;
  gbits <- base2bits "G" ;;
  tbits <- base2bits "T" ;;
  let good :=
    and_arr
      (and_arr
         (and_arr (or_arr (eq_arr left cbits) (eq_arr left gbits))
                  (or_arr (eq_arr right cbits) (eq_arr right gbits)))
         (or_arr (or_arr (or_arr (eq_arr left_p1 abits) (eq_arr left_p1 tbits))
                         (eq_arr left_p2 abits))
                 (eq_arr left_p2 tbits)))
      (or_arr (or_arr (or_arr (eq_arr right_m1 abits) (eq_arr right_m1 tbits))
                      (eq_arr right_m2 abits))
              (eq_arr right_m2 tbits)) in
  Ok (keep_rows self good).

(** [filter_end_at] *)
Definition filter_end_at (self : DNASeqList) (gc_near_end : bool)
  : result DNASeqList :=
  left <- column (seqarr self) 0 ;;
  right <- column (seqarr self) (-1) ;;
  abits <- base2bits "A" ;;
  tbits <- base2bits "T" ;;
  let good :=
    and_arr (or_arr (eq_arr left abits) (eq_arr left tbits))
            (or_arr (eq_arr right abits) (eq_arr right tbits)) in
  good <-
    (if gc_near_end then
       cbits <- base2bits "C" ;;
       gbits <- base2bits "G" ;;
       left_p1 <- column (seqarr self) 1 ;;
       left_p2 <- column (seqarr self) 2 ;;
       right_m1 <- column (seqarr self) (-2) ;;
       right_m2 <- column (seqarr self) (-3) ;;
       Ok (and_arr
             (and_arr good
                (or_arr (or_arr (or_arr (eq_arr left_p1 cbits) (eq_arr left_p1 gbits))
                                (eq_arr left_p2 cbits))
                        (eq_arr left_p2 gbits)))
             (or_arr (or_arr (or_arr (eq_arr right_m1 cbits) (eq_arr right_m1 gbits))
                             (eq_arr right_m2 cbits))
                     (eq_arr right_m2 gbits)))
     else Ok good) ;;
  Ok (keep_rows self good).

(** [base2bits[base]] for a string [base]: the keys are single characters. *)
Definition base2bits_key (base : string) : result Z :=
  match base with
  | String c EmptyString => base2bits c
  | _ => Raise KeyError
  end.

(** [filter_base_nowhere] *)
Definition filter_base_nowhere (self : DNASeqList) (base : string)
  : result DNASeqList :=
  bits <- base2bits_key base ;;
  let good := map (forallb (fun x => negb (x =? bits))) (rows (seqarr self)) in
  Ok (keep_rows self good).

(** [filter_base_count] *)
Definition filter_base_count (self : DNASeqList) (base : string) (low high : Z)
  : result DNASeqList :=
  bits <- base2bits_key base ;;
  let sumarr :=
    map (fun r => Z.of_nat (count_true (eq_arr r bits))) (rows (seqarr self)) in
  let good :=
    and_arr (map (fun s => low <=? s) sumarr) (map (fun s => s <=? high) sumarr) in
  Ok (keep_rows self good).

(** [filter_base_at_pos] *)
Definition filter_base_at_pos (self : DNASeqList) (pos : Z) (base : string)
  : result DNASeqList :=
  mid <- column (seqarr self) pos ;;
  bits <- base2bits_key base ;;
  Ok (keep_rows self (eq_arr mid bits)).

(** [filter_seqs_by_g_quad] and [filter_seqs_by_g_quad_c_quad] *)
Definition filter_seqs_by_g_quad (self : DNASeqList) : result DNASeqList :=
  filter_substring self ["GGGG"%string].

Definition filter_seqs_by_g_quad_c_quad (self : DNASeqList) : result DNASeqList :=
  filter_substring self ["GGGG"%string; "CCCC"%string].

(** [energies] *)
Definition energies (self : DNASeqList) (temperature : spec_float) : result farray :=
  calculate_wc_energies (rows (seqarr self)) temperature false.

(** [filter_energy]: [low] and [high] are Python floats. *)
Definition filter_energy (self : DNASeqList) (low high temperature : spec_float)
  : result DNASeqList :=
  wcenergies <- calculate_wc_energies (rows (seqarr self)) temperature false ;;
  let within_range :=
    and_arr (scalar_le_array low wcenergies) (array_le_scalar wcenergies high) in
  Ok (keep_rows self within_range).

(** [wcenergies_str] and [wcenergy_str] *)
Definition wcenergies_str (seqs : list string) (temperature : spec_float)
  (negate : bool) : result (list spec_float) :=
  seqarr <- seqs2arr seqs ;;
  es <- calculate_wc_energies seqarr temperature negate ;;
  Ok (fdata es).

Definition wcenergy_str (seq : string) (temperature : spec_float) (negate : bool)
  : result spec_float :=
  seqarr <- seqs2arr [seq] ;;
  es <- calculate_wc_energies seqarr temperature negate ;;
  getitem (fdata es) 0.

(** ** [idx2seq] and [pair_index] *)

(** [idx2seq]: the loop runs [i] from [length - 1] down to 0, writes
    [bits2base[idx & 0b11]] at [seq[i]] and shifts [idx] right by 2. *)
Definition idx2seq (idx : Z) (length : Z) : result string :=
  let n := Z.to_nat length in
  let seq0 := repeat "x"%char n in
  st <- fold_left
          (fun acc i =>
             st <- acc ;;
             b <- getitem bits2base (Z.land (snd st) 3) ;;
             Ok (set_nth i b (fst st), Z.shiftr (snd st) 2))
          (rev (seq 0 n)) (Ok (seq0, idx)) ;;
  Ok (string_of_list_ascii (fst st)).

(** [np.fromiter(it, int, count)]: the first [count] items; an iterator with
    fewer items raises; a negative [count] (the default is -1) reads them
    all. *)
Definition fromiter (it : list Z) (count : Z) : result (list Z) :=
  if count <? 0 then Ok it
  else if Z.of_nat (length it) <? count then Raise ValueError
  else Ok (firstn (Z.to_nat count) it).

(** [index.reshape(-1, 2)]: an odd number of entries raises. *)
Fixpoint reshape_pairs (index : list Z) : result (list (list Z)) :=
  match index with
  | [] => Ok []
  | [_] => Raise ValueError
  | a :: b :: index' => rest <- reshape_pairs index' ;; Ok ([a; b] :: rest)
  end.

(** [pair_index(n)] *)
Definition pair_index (n : Z) : result (list (list Z)) :=
  let range_n := map Z.of_nat (seq 0 (Z.to_nat n)) in
  let chained := flat_map (fun p => [fst p; snd p]) (combinations2 range_n) in
  index <- fromiter chained (n * (n - 1)) ;;
  reshape_pairs index.

(** ** The other matchers *)

(** [longest_common_substrings_singlea1(a1, a2s)] *)
Definition longest_common_substrings_singlea1 (a1 : list Z) (a2s : list (list Z))
  : result (list Z * list Z * list Z) :=
  let numa2s := length a2s in
  let len_a1 := length a1 in
  let len_a2 := shape1 a2s in
  let counter := repeat (repeat (repeat 0 (S len_a2)) numa2s) (S len_a1) in
  counter <-
    dp_loop
      (fun i1 prev next =>
         let idx := map (map (fun y => y =? nth i1 a1 0)) a2s in
         let idx_shifted := map (cons false) idx in
         values <- take_mask2 idx prev ;;
         put_mask2 idx_shifted next (map (fun c => c + 1) values))
      len_a1 counter ;;
  let counter := swapaxes01 counter numa2s in
  let counter_flat := map (@concat Z) counter in
  idx_longest_raveled <- mapM (np_argmax Z.ltb) counter_flat ;;
  let len_longest := pick 0 counter_flat idx_longest_raveled in
  let idx_longest := map (fun i => unravel_index i (S len_a2)) idx_longest_raveled in
  let a1idx_longest :=
    zip_with (fun i l => Z.of_nat (fst i) - l) idx_longest len_longest in
  let a2idx_longest :=
    zip_with (fun i l => Z.of_nat (snd i) - l) idx_longest len_longest in
  Ok (a1idx_longest, a2idx_longest, len_longest).

(** [longest_common_substrings_all_pairs_strings] *)
Definition longest_common_substrings_all_pairs_strings (seqs1 seqs2 : list string)
  : result (list Z * list Z * list Z) :=
  a1s <- seqs2arr seqs1 ;;
  a2s <- seqs2arr seqs2 ;;
  _longest_common_substrings_pairs a1s a2s.

(** [energies_strongest_common_substrings] *)
Definition energies_strongest_common_substrings (seqs1 seqs2 : list string)
  (temperature : spec_float) : result (list spec_float) :=
  a1s <- seqs2arr seqs1 ;;
  a2s <- seqs2arr seqs2 ;;
  r <- _strongest_common_substrings_all_pairs a1s (wc_arr a2s) temperature ;;
  Ok (snd r).

(** ** [prefilter_length_10_11] *)

(** Code that prints: the lines printed, and the result.  [bind_printing]
    runs silent code first; when that raises, nothing is printed. *)
Definition printing (A : Type) : Type := (list string * result A)%type.

Definition bind_printing {A B : Type} (m : result A) (k : A -> printing B)
  : printing B :=
  match m with
  | Ok a => k a
  | Raise e => ([], Raise e)
  end.

Section Prefilter.

Variable rng_choice : list Z -> nat -> nat -> matrix.
Variable rng_shuffle : matrix -> matrix.

(** [[f'{a}{b}{c}{d}' for a in ['G', 'C'] for b in ['G', 'C']
      for c in ['G', 'C'] for d in ['G', 'C']]] *)
Definition forbidden_subs : list string :=
  flat_map
    (fun a =>
       flat_map
         (fun b =>
            flat_map
              (fun c =>
                 map (fun d => String a (String b (String c (String d EmptyString))))
                     ["G"; "C"]%char)
              ["G"; "C"]%char)
         ["G"; "C"]%char)
    ["G"; "C"]%char.

Definition prefilter_message : string :=
  "Removing any domains that end in either A or T; also ensuring every domain has an A or T within 2 indexes of the end".

(** [prefilter_length_10_11].  The result is a pair of lists of strings when
    [convert_to_list] is set and a pair of [DNASeqList]s otherwise.
    [len(seqs)] is [seqs.numseqs]. *)
Definition prefilter_length_10_11 (fs : filesystem)
  (low_dg high_dg temperature : spec_float)
  (end_gc convert_to_list : bool)
  : printing ((list string * list string) + (DNASeqList * DNASeqList)) :=
  let of_length n :=
    DNASeqList_init rng_choice rng_shuffle fs
      {| arg_length := Some n; arg_num_random_seqs := None; arg_shuffle := false;
         arg_alphabet := bits2base; arg_seqs := None; arg_seqarr := None;
         arg_filename := None |} in
  bind_printing
    (s10 <- of_length 10%nat ;;
     s11 <- of_length 11%nat ;;
     s10 <- filter_energy s10 low_dg high_dg temperature ;;
     s11 <- filter_energy s11 low_dg high_dg temperature ;;
     s10 <- filter_substring s10 forbidden_subs ;;
     s11 <- filter_substring s11 forbidden_subs ;;
     Ok (s10, s11))
    (fun s =>
       (if end_gc then [prefilter_message] else [],
        s <- (if end_gc
              then s10 <- filter_end_gc (fst s) ;;
                   s11 <- filter_end_gc (snd s) ;;
                   Ok (s10, s11)
              else Ok s) ;;
        if numseqs (fst s) =? 0 then Raise ValueError
        else if numseqs (snd s) =? 0 then Raise ValueError
        else if convert_to_list
             then l10 <- to_list (fst s) ;;
                  l11 <- to_list (snd s) ;;
                  Ok (inl (l10, l11))
             else Ok (inr s))).

End Prefilter.

(** ** Notions used to state the properties of the other methods *)

(** Two rows are equal. *)
Definition row_eqb (r1 r2 : row) : bool :=
  Nat.eqb (length r1) (length r2) && forallb (fun p => fst p =? snd p) (combine r1 r2).

(** The symbols C and G, and the symbols A and T. *)
Definition is_strong (z : Z) : bool := (z =? 1) || (z =? 2).
Definition is_weak (z : Z) : bool := (z =? 0) || (z =? 3).

(** A row passes the end test of [filter_end_gc]: C or G at both ends, and an
    A or T among the two symbols next to each end. *)
Definition end_gc_ok (n : nat) (r : row) : bool :=
  is_strong (nth 0 r 0) && is_strong (nth (n - 1) r 0) &&
  (is_weak (nth 1 r 0) || is_weak (nth 2 r 0)) &&
  (is_weak (nth (n - 2) r 0) || is_weak (nth (n - 3) r 0)).

(** A row passes the end test of [filter_end_at]. *)
Definition end_at_ok (n : nat) (gc_near_end : bool) (r : row) : bool :=
  is_weak (nth 0 r 0) && is_weak (nth (n - 1) r 0) &&
  (negb gc_near_end ||
   ((is_strong (nth 1 r 0) || is_strong (nth 2 r 0)) &&
    (is_strong (nth (n - 2) r 0) || is_strong (nth (n - 3) r 0)))).

(** [low <= e <= high] as [filter_energy] tests it on an entry [e] of an
    array of dtype [d]. *)
Definition within_range (d : dtype) (low high e : spec_float) : bool :=
  fleb (promote (python_float_dtype low) d) low e &&
  fleb (promote d (python_float_dtype high)) e high.


(** The base-4 digits of [idx], the most significant of [n] first: digit [i]
    is [(idx >> 2 (n - 1 - i)) & 3]. *)
Definition digits4 (idx : Z) (n : nat) : list Z :=
  map (fun i => Z.land (Z.shiftr idx (2 * Z.of_nat (n - 1 - i))) 3) (seq 0 n).

(** The number of symbols on which [a1[:i]] and [a2[:j]] agree at their
    ends. *)
Fixpoint common_suffix (a1 a2 : list Z) (i j : nat) : nat :=
  match i, j with
  | S i', S j' =>
      if nth i' a1 0 =? nth j' a2 0 then S (common_suffix a1 a2 i' j') else 0%nat
  | _, _ => 0%nat
  end.

(** The window of [k] symbols of [a] that starts at position [s]. *)
Definition window (a : list Z) (s k : nat) : list Z := firstn k (skipn s a).

(** The number that a row of codes spells in base 4, the first symbol the
    most significant. *)
Definition base4_value (r : list Z) : Z := fold_left (fun acc d => 4 * acc + d) r 0.

(** The number that decimal digits spell, after the digits read so far. *)
Fixpoint uint_value (acc : Z) (d : Decimal.uint) : Z :=
  match d with
  | Decimal.Nil => acc
  | Decimal.D0 d' => uint_value (10 * acc) d'
  | Decimal.D1 d' => uint_value (10 * acc + 1) d'
  | Decimal.D2 d' => uint_value (10 * acc + 2) d'
  | Decimal.D3 d' => uint_value (10 * acc + 3) d'
  | Decimal.D4 d' => uint_value (10 * acc + 4) d'
  | Decimal.D5 d' => uint_value (10 * acc + 5) d'
  | Decimal.D6 d' => uint_value (10 * acc + 6) d'
  | Decimal.D7 d' => uint_value (10 * acc + 7) d'
  | Decimal.D8 d' => uint_value (10 * acc + 8) d'
  | Decimal.D9 d' => uint_value (10 * acc + 9) d'
  end.

(** The entry of the match-length table for the cell of [a1[i]] and
    [a2[j]]. *)
Definition lcs_cell (a1 a2 : list Z) (i j : nat) : Z :=
  Z.of_nat (common_suffix a1 a2 (S i) (S j)).

(** The running best window of the scalar loops, after the cell [(i, j)]. *)
Definition lcs_track (a1 a2 : list Z) (st : Z * Z * Z) (i j : nat) : Z * Z * Z :=
  let c := lcs_cell a1 a2 i j in
  if snd st <? c then (Z.of_nat i + 1 - c, Z.of_nat j + 1 - c, c) else st.

Definition lcs_scan (a1 a2 : list Z) : Z * Z * Z :=
  fold_left
    (fun st i =>
       fold_left (fun st j => lcs_track a1 a2 st i j) (seq 0 (length a2)) st)
    (seq 0 (length a1)) (-1, -1, 0).

(** The cells of the table written before the loops reach the cell
    [(i1, i2)]. *)
Definition written (i1 i2 i j : nat) : bool :=
  ((1 <=? i) && (1 <=? j) &&
   ((i - 1 <? i1) || ((i - 1 =? i1) && (j - 1 <? i2))))%nat.

(** [np.argmax] with the largest entry next to its index. *)
Fixpoint best_from (bi : nat) (b : Z) (i : nat) (l : list Z) : nat * Z :=
  match l with
  | [] => (bi, b)
  | x :: l' => if b <? x then best_from i x (S i) l' else best_from bi b (S i) l'
  end.

(** The string of a row of codes. *)
Definition row_string (r : row) : string := string_of_list_ascii (map base_of r).

(** The 16 words of four symbols over G and C, as codes. *)
Definition gc_quads : matrix := enumerate [2; 1] 4.

(** The test a sequence of [n] symbols has to pass in
    [prefilter_length_10_11]: batched energy within the bounds, no four
    consecutive symbols among C and G, and the end test of [filter_end_gc]
    when asked. *)
Definition prefilter_keep (low high temperature : spec_float) (end_gc : bool)
  (n : nat) (r : row) : bool :=
  within_range (fdtype (calculate_loop_energies temperature false)) low high
               (batched_energy temperature false r) &&
  negb (existsb (fun q => contains q r) gc_quads) &&
  (if end_gc then end_gc_ok n r else true).

(** The sequences of [n] symbols that pass, in lexicographic order. *)
Definition prefilter_rows (low high temperature : spec_float) (end_gc : bool)
  (n : nat) : matrix :=
  filter (prefilter_keep low high temperature end_gc n)
         (enumerate [0; 1; 2; 3] n).
(* ================================================================== *)
(** * Part II : properties                                            *)
(* ================================================================== *)

(** ** Generic facts *)

Lemma bind_Ok {A B : Type} (m : result A) (k : A -> result B) (b : B) :
  bind m k = Ok b -> exists a, m = Ok a /\ k a = Ok b.
Proof.
  destruct m as [a|e]; simpl; intros H; [exists a; auto | discriminate].
Qed.

Lemma mapM_Ok_map {A B : Type} (f : A -> result B) (g : A -> B) (l : list A) :
  Forall (fun a => f a = Ok (g a)) l -> mapM f l = Ok (map g l).
Proof.
  induction 1 as [|a l Ha _ IH]; simpl; [reflexivity|].
  now rewrite Ha, IH.
Qed.

(** ** Codec round trip *)


Lemma bits2base_base2bits (c : ascii) :
  upper_base c ->
  exists z, base2bits c = Ok z /\ getitem bits2base z = Ok c.
Proof.
  unfold upper_base, bits2base; simpl.
  intros [<-|[<-|[<-|[<-|[]]]]]; eexists; split; reflexivity.
Qed.

Lemma arr2seq_seq2arr_list (l : list ascii) :
  Forall upper_base l ->
  exists arr, mapM base2bits l = Ok arr /\ mapM (getitem bits2base) arr = Ok l.
Proof.
  induction 1 as [|c l Hc _ [arr [E1 E2]]]; simpl.
  - exists []; auto.
  - destruct (bits2base_base2bits c Hc) as [z [Hz1 Hz2]].
    exists (z :: arr); simpl. now rewrite Hz1, E1, Hz2, E2.
Qed.

(** C8. Decoding the encoding of a string over the fixed alphabet
    {A, C, G, T} returns that string: [arr2seq (seq2arr s) = s], for every
    length (in particular every length >= 1). *)
Theorem arr2seq_seq2arr_roundtrip (s : string) :
  Forall upper_base (list_ascii_of_string s) ->
  (arr <- seq2arr s ;; arr2seq arr) = Ok s.
Proof.
  intros H. unfold seq2arr, arr2seq.
  destruct (arr2seq_seq2arr_list _ H) as [arr [E1 E2]].
  rewrite E1; simpl. rewrite E2; simpl.
  now rewrite string_of_list_ascii_of_string.
Qed.

Lemma arr2seq_seq2arr_roundtrip_witness :
  (arr <- seq2arr "GATTACA" ;; arr2seq arr) = Ok "GATTACA"%string.
Proof.
  apply (arr2seq_seq2arr_roundtrip "GATTACA").
  repeat constructor; unfold upper_base, bits2base; simpl; tauto.
Defined.

(** ** Reverse complement *)

Lemma ubyte_sub_3_involutive (x : Z) :
  0 <= x < 256 -> ubyte_sub 3 (ubyte_sub 3 x) = x.
Proof.
  intros H. unfold ubyte_sub, wrap8.
  rewrite Zminus_mod_idemp_r.
  replace (3 - (3 - x)) with x by lia.
  apply Z.mod_small; lia.
Qed.

Lemma wc_row_involutive (r : row) :
  Forall (fun x => 0 <= x < 256) r ->
  rev (map (fun x => ubyte_sub 3 x) (rev (map (fun x => ubyte_sub 3 x) r))) = r.
Proof.
  intros H. rewrite map_rev, rev_involutive, map_map.
  induction H as [|x r Hx _ IH]; simpl; [reflexivity|].
  now rewrite ubyte_sub_3_involutive, IH.
Qed.

(** C10. The reverse complement is an involution: for every 2D code matrix
    with entries in {0,1,2,3}, [wc_arr (wc_arr m) = m]. *)
Theorem wc_arr_involutive (m : matrix) :
  codes m -> wc_arr (wc_arr m) = m.
Proof.
  unfold wc_arr, codes. intros H. rewrite map_map.
  induction H as [|r m Hr _ IH]; simpl; [reflexivity|].
  rewrite IH, wc_row_involutive; [reflexivity|].
  eapply Forall_impl; [|exact Hr]. unfold is_code; simpl; lia.
Qed.

Lemma wc_arr_involutive_witness :
  wc_arr (wc_arr [[0; 1; 2; 3]; [3; 3; 0; 1]]) = [[0; 1; 2; 3]; [3; 3; 0; 1]].
Proof.
  apply (wc_arr_involutive [[0; 1; 2; 3]; [3; 3; 0; 1]]).
  repeat constructor; unfold is_code; lia.
Defined.

(** ** Batched and scalar duplex energies *)

Lemma mapM_map {A B C : Type} (f : B -> result C) (g : A -> B) (l : list A) :
  mapM f (map g l) = mapM (fun a => f (g a)) l.
Proof.
  induction l as [|a l IH]; simpl; [reflexivity|]. now rewrite IH.
Qed.


Lemma pairs_of_cons2 (c1 c2 : ascii) (s : string) :
  pairs_of (String c1 (String c2 s)) =
  String c1 (String c2 EmptyString) :: pairs_of (String c2 s).
Proof. reflexivity. Qed.

Lemma substring_0_0 (s : string) : substring 0 0 s = EmptyString.
Proof. destruct s; reflexivity. Qed.

Lemma wcenergy_terms {B : Type} (F : string -> result B) (s : string) :
  mapM (fun i => F (substring i 2 s)) (List.seq 0 (str_len s - 1)) =
  mapM F (pairs_of s).
Proof.
  unfold str_len. induction s as [|c s IH]; [reflexivity|].
  destruct s as [|c2 s]; [reflexivity|].
  replace (String.length (String c (String c2 s)) - 1)%nat
    with (S (String.length (String c2 s) - 1)) by (simpl; lia).
  change (pairs_of (String c (String c2 s)))
    with (String c (String c2 EmptyString) :: pairs_of (String c2 s)).
  cbn [mapM]. rewrite <- IH.
  cbn [List.seq]. rewrite <- seq_shift. cbn [mapM]. rewrite mapM_map.
  change (substring 0 2 (String c (String c2 s)))
    with (String c (String c2 (substring 0 0 s))).
  rewrite substring_0_0. reflexivity.
Qed.


Lemma is_code_cases (z : Z) : is_code z -> z = 0 \/ z = 1 \/ z = 2 \/ z = 3.
Proof. unfold is_code; lia. Qed.

Lemma getitem_bits2base (z : Z) :
  is_code z -> getitem bits2base z = Ok (base_of z).
Proof.
  intros H. destruct (is_code_cases z H) as [->|[->|[->| ->]]]; reflexivity.
Qed.

Lemma arr2seq_codes (r : row) :
  codes_row r -> arr2seq r = Ok (string_of_list_ascii (map base_of r)).
Proof.
  intros H. unfold arr2seq.
  rewrite (mapM_Ok_map _ base_of); [reflexivity|].
  eapply Forall_impl; [|exact H]. apply getitem_bits2base.
Qed.

Lemma pair_indices_row_cons2 (a b : Z) (r : row) :
  pair_indices_row (a :: b :: r) =
  ubyte_add (ubyte_shl a 2) b :: pair_indices_row (b :: r).
Proof. reflexivity. Qed.

Lemma dict_of_table_lookup {V : Type} (tbl : list V) (a b : Z) :
  length tbl = 16%nat -> is_code a -> is_code b ->
  exists d e,
    dict_of_table tbl = Ok d /\
    getitem tbl (ubyte_add (ubyte_shl a 2) b) = Ok e /\
    dict_get d (String (base_of a) (String (base_of b) EmptyString)) = Ok e.
Proof.
  intros Hlen Ha Hb.
  do 16 (destruct tbl as [|? tbl]; [discriminate|]).
  destruct tbl; [|discriminate].
  destruct (is_code_cases a Ha) as [->|[->|[->| ->]]];
  destruct (is_code_cases b Hb) as [->|[->|[->| ->]]];
  eexists; eexists; (split; [reflexivity|split; reflexivity]).
Qed.

Lemma dict_of_table_defined {V : Type} (tbl : list V) :
  length tbl = 16%nat -> exists d, dict_of_table tbl = Ok d.
Proof.
  intros H. destruct (dict_of_table_lookup tbl 0 0 H) as [d [_ [E _]]];
    unfold is_code; try lia. eauto.
Qed.

Lemma scalar_terms_batched {V : Type} (tbl : list V) (d : dict V) (r : row) :
  length tbl = 16%nat -> dict_of_table tbl = Ok d -> codes_row r ->
  exists terms,
    mapM (getitem tbl) (pair_indices_row r) = Ok terms /\
    mapM (dict_get d) (pairs_of (string_of_list_ascii (map base_of r))) = Ok terms.
Proof.
  intros Hlen Hd Hr. induction Hr as [|a r Ha Hr IH].
  - exists []; auto.
  - destruct r as [|b r].
    + exists []; auto.
    + destruct IH as [terms [E1 E2]].
      inversion Hr as [|? ? Hb _]; subst.
      destruct (dict_of_table_lookup tbl a b Hlen Ha Hb) as [d' [e [Hd' [G1 G2]]]].
      rewrite Hd in Hd'; injection Hd' as <-.
      exists (e :: terms). rewrite pair_indices_row_cons2.
      cbn [map string_of_list_ascii] in E2 |- *.
      rewrite pairs_of_cons2. cbn [mapM].
      rewrite G1, E1, G2, E2. auto.
Qed.

Lemma getitem_code_pair {V : Type} (tbl : list V) (z : V) (a b : Z) :
  length tbl = 16%nat -> is_code a -> is_code b ->
  getitem tbl (ubyte_add (ubyte_shl a 2) b) = Ok (nth (Z.to_nat (4 * a + b)) tbl z).
Proof.
  intros Hlen Ha Hb.
  do 16 (destruct tbl as [|? tbl]; [discriminate|]).
  destruct tbl; [|discriminate].
  destruct (is_code_cases a Ha) as [->|[->|[->| ->]]];
  destruct (is_code_cases b Hb) as [->|[->|[->| ->]]]; reflexivity.
Qed.

Lemma gathered_row_terms (table : farray) (r : row) :
  length (fdata table) = 16%nat -> codes_row r ->
  mapM (getitem (fdata table)) (pair_indices_row r) = Ok (row_terms table r).
Proof.
  intros Hlen Hr. induction Hr as [|a r Ha Hr IH]; [reflexivity|].
  destruct r as [|b r]; [reflexivity|].
  inversion Hr as [|? ? Hb _]; subst.
  rewrite pair_indices_row_cons2. cbn [mapM].
  rewrite (getitem_code_pair _ S754_nan a b Hlen Ha Hb), IH. reflexivity.
Qed.

Lemma loop_energies_length (t : spec_float) (negate : bool) :
  length (fdata (calculate_loop_energies t negate)) = 16%nat.
Proof.
  unfold calculate_loop_energies, array_array, array_scalar, scalar_array.
  destruct negate; cbn [fdata fdtype]; rewrite ?length_map; reflexivity.
Qed.

(** C1. For every 2D code matrix, every temperature and every row index [i],
    the batched [calculate_wc_energies] and the scalar [wcenergy] add the
    same terms, the table entries of the adjacent symbols of row [i] from
    left to right, each in its own way: the batched result for row [i] is
    their [np.sum] in the dtype of the table, the scalar result on the
    string of the row is their left-to-right sum in [float64]. *)
Theorem calculate_wc_energies_row
  (seqarr : matrix) (t : spec_float) (negate : bool) (i : nat) (r : row) :
  codes seqarr -> nth_error seqarr i = Some r ->
  exists energies,
    calculate_wc_energies seqarr t negate = Ok energies /\
    fdtype energies = fdtype (calculate_loop_energies t negate) /\
    nth_error (fdata energies) i = Some (batched_energy t negate r) /\
    (seq <- arr2seq r ;; wcenergy seq t negate) = Ok (scalar_energy t negate r).
Proof.
  intros Hc Hi. unfold calculate_wc_energies, wcenergy, calculate_loop_energies_dict.
  unfold batched_energy, scalar_energy.
  pose proof (loop_energies_length t negate) as Hlen.
  set (table := calculate_loop_energies t negate) in *.
  destruct (dict_of_table_defined (fdata table) Hlen) as [d Hd].
  rewrite mapM_map.
  rewrite (mapM_Ok_map _ (row_terms table)).
  2:{ eapply Forall_impl; [|exact Hc]. intros r0 Hr0.
      now apply gathered_row_terms. }
  cbn [bind]. eexists. split; [reflexivity|]. cbn [fdtype fdata].
  split; [reflexivity|]. split.
  - rewrite !nth_error_map, Hi. reflexivity.
  - assert (Hr : codes_row r)
      by (eapply Forall_forall in Hc; [exact Hc|eapply nth_error_In; eauto]).
    rewrite (arr2seq_codes r Hr); cbn [bind]. rewrite Hd; cbn [bind].
    rewrite wcenergy_terms.
    destruct (scalar_terms_batched (fdata table) d r Hlen Hd Hr) as [terms [E1 E2]].
    rewrite (gathered_row_terms table r Hlen Hr) in E1. injection E1 as <-.
    now rewrite E2.
Qed.

Lemma calculate_wc_energies_row_witness :
  exists energies,
    calculate_wc_energies [[0; 1; 2; 3]; [2; 2; 1; 0]] (float_of_int 37) false
      = Ok energies /\
    fdtype energies = fdtype (calculate_loop_energies (float_of_int 37) false) /\
    nth_error (fdata energies) 1
      = Some (batched_energy (float_of_int 37) false [2; 2; 1; 0]) /\
    (seq <- arr2seq [2; 2; 1; 0] ;; wcenergy seq (float_of_int 37) false)
      = Ok (scalar_energy (float_of_int 37) false [2; 2; 1; 0]).
Proof.
  apply (calculate_wc_energies_row [[0; 1; 2; 3]; [2; 2; 1; 0]]
           (float_of_int 37) false 1).
  - repeat constructor; unfold is_code; lia.
  - reflexivity.
Defined.

(** The two results are not always equal.  At 37.0 degrees the batched
    energy of ACGCG, a [float32], is -8.012821197509765625 and the scalar
    energy, a [float64], is about -8.012820720672607: the first is
    smaller. *)
Lemma batched_differs_from_scalar :
  calculate_wc_energies [[0; 1; 2; 1; 2]] (float_of_int 37) false
    = Ok (mk_farray float32 [S754_finite true 8402052 (-20)]) /\
  arr2seq [0; 1; 2; 1; 2] = Ok "ACGCG"%string /\
  wcenergy "ACGCG" (float_of_int 37) false
    = Ok (S754_finite true 4510817051475968 (-49)) /\
  SFcompare (astype float64 (S754_finite true 8402052 (-20)))
            (S754_finite true 4510817051475968 (-49)) = Some Lt.
Proof. repeat split; vm_compute; reflexivity. Qed.
(** ** The constructor requires exactly one source *)

(** The number of construction sources that were supplied. *)
Lemma init_two_sources_check (a : init_args) :
  (2 <= num_sources a)%nat ->
  existsb (fun v => fst v && snd v)
    (combinations2 [is_not_None (arg_length a); is_not_None (arg_seqs a);
                    is_not_None (arg_seqarr a); is_not_None (arg_filename a)])
  = true.
Proof.
  unfold num_sources.
  destruct (arg_length a), (arg_seqs a), (arg_seqarr a), (arg_filename a);
    simpl; intros H; try reflexivity; lia.
Qed.

(** C7. The constructor requires exactly one of the four sources [length],
    [seqs], [seqarr], [filename]: when two or more are supplied, and when
    none is, it raises ValueError and builds no DNASeqList, whatever the other
    arguments, the generator and the files are. *)
Theorem init_requires_exactly_one_source
  (rng_choice : list Z -> nat -> nat -> matrix) (rng_shuffle : matrix -> matrix)
  (fs : filesystem) (a : init_args) :
  num_sources a <> 1%nat ->
  DNASeqList_init rng_choice rng_shuffle fs a = Raise ValueError.
Proof.
  intros H. unfold DNASeqList_init.
  destruct (Nat.le_gt_cases 2 (num_sources a)) as [H2|H0].
  - now rewrite init_two_sources_check.
  - assert (E : num_sources a = 0%nat) by lia. clear H H0.
    unfold num_sources in E.
    destruct (arg_length a), (arg_seqs a), (arg_seqarr a), (arg_filename a);
      simpl in E; try discriminate. reflexivity.
Qed.

Lemma init_requires_exactly_one_source_witness :
  DNASeqList_init (fun _ _ _ => []) (fun m => m) (fun _ => None)
    {| arg_length := Some 3%nat; arg_num_random_seqs := None;
       arg_shuffle := false; arg_alphabet := bits2base;
       arg_seqs := Some ["ACG"%string]; arg_seqarr := None;
       arg_filename := None |}
  = Raise ValueError.
Proof.
  apply init_requires_exactly_one_source. vm_compute. discriminate.
Defined.

(** ** The writer and the reader of files *)

Lemma uint_chars_not_space (d : Decimal.uint) :
  Forall (fun c => is_space c = false)
         (list_ascii_of_string (NilEmpty.string_of_uint d)).
Proof.
  induction d; simpl; constructor; auto.
Qed.

Lemma str_of_int_not_space (n : Z) :
  Forall (fun c => is_space c = false) (str_of_int n).
Proof.
  unfold str_of_int, NilZero.string_of_int, NilZero.string_of_uint.
  destruct (Z.to_int n) as [d|d]; destruct d; simpl;
    repeat constructor; apply uint_chars_not_space.
Qed.

Lemma str_of_int_nonempty (n : Z) : str_of_int n <> [].
Proof.
  unfold str_of_int, NilZero.string_of_int, NilZero.string_of_uint.
  destruct (Z.to_int n) as [d|d]; destruct d; simpl; discriminate.
Qed.

Lemma is_space_newline : is_space newline = true.
Proof. reflexivity. Qed.

Lemma not_space_not_line_end (c : ascii) :
  is_space c = false ->
  Ascii.eqb c newline = false /\ Ascii.eqb c carriage_return = false.
Proof.
  intros H; split; apply Ascii.eqb_neq; intros ->; discriminate.
Qed.

Lemma readline_word (w rest : list ascii) :
  Forall (fun c => is_space c = false \/ c = " "%char) w ->
  readline (w ++ newline :: rest) = (w ++ [newline], rest).
Proof.
  induction 1 as [|c w Hc _ IH]; simpl.
  - reflexivity.
  - assert (E : Ascii.eqb c newline = false /\ Ascii.eqb c carriage_return = false).
    { destruct Hc as [Hc| ->]; [now apply not_space_not_line_end|split; reflexivity]. }
    destruct E as [-> ->]. now rewrite IH.
Qed.

Lemma split_ws_word (w cur s : list ascii) :
  Forall (fun c => is_space c = false) w ->
  split_ws cur (w ++ s) = split_ws (rev w ++ cur) s.
Proof.
  intros H; revert cur. induction H as [|c w Hc _ IH]; intros cur; simpl.
  - reflexivity.
  - rewrite Hc, IH. now rewrite <- app_assoc.
Qed.

(** The header written by [write_to_file] has exactly two fields. *)
Lemma header_two_fields (n l : Z) :
  split (str_of_int n ++ [" "%char] ++ str_of_int l ++ [newline]) =
  [str_of_int n; str_of_int l].
Proof.
  unfold split.
  rewrite split_ws_word by apply str_of_int_not_space.
  rewrite app_nil_r. cbn [app split_ws].
  change (is_space " ") with true. cbv iota.
  destruct (rev (str_of_int n)) as [|c0 w0] eqn:E0.
  { apply (f_equal (@rev ascii)) in E0. rewrite rev_involutive in E0.
    now apply str_of_int_nonempty in E0. }
  rewrite <- E0, rev_involutive. f_equal.
  rewrite split_ws_word by apply str_of_int_not_space.
  rewrite app_nil_r. cbn [split_ws]. rewrite is_space_newline.
  destruct (rev (str_of_int l)) as [|c1 w1] eqn:E1.
  { apply (f_equal (@rev ascii)) in E1. rewrite rev_involutive in E1.
    now apply str_of_int_nonempty in E1. }
  now rewrite <- E1, rev_involutive.
Qed.

Lemma write_rows_extends (self : DNASeqList) (idxs : list nat)
  (written : list ascii) :
  exists more,
    fst (write_rows self idxs written) = written ++ more.
Proof.
  revert written. induction idxs as [|i idxs IH]; intros written; simpl.
  - exists []. now rewrite app_nil_r.
  - destruct (get_seq_str self (Z.of_nat i)) as [s|e]; simpl.
    + destruct (IH (written ++ list_ascii_of_string s ++ [newline])) as [more E].
      rewrite E. rewrite <- app_assoc. eauto.
    + exists []. now rewrite app_nil_r.
Qed.

(** The reader rejects every file whose first line does not have exactly
    three fields. *)
Lemma read_from_file_needs_three_fields (fs : filesystem) (filename : string)
  (f : list ascii) :
  fs filename = Some f ->
  length (split (fst (readline f))) <> 3%nat ->
  _read_from_file fs filename = Raise ValueError.
Proof.
  intros Hf Hn. unfold _read_from_file. rewrite Hf.
  destruct (readline f) as [first_line f']. simpl in Hn.
  destruct (split first_line) as [|a [|b [|c [|d l]]]]; try reflexivity.
  now elim Hn.
Qed.

(** C6. The writer and the reader are incompatible.  [write_to_file] puts a
    header of exactly two whitespace-separated fields ([numseqs] and [seqlen])
    on the first line of the file, the reader unpacks the header into exactly
    three fields; so, for every DNASeqList, constructing a DNASeqList from the
    file that [write_to_file] produced raises an error. *)
Theorem written_file_cannot_be_read
  (rng_choice : list Z -> nat -> nat -> matrix) (rng_shuffle : matrix -> matrix)
  (self : DNASeqList) (fs : filesystem) (filename : string)
  (num_random_seqs : option nat) (shuffle_flag : bool) (alphabet : list ascii) :
  let fs' := fst (write_to_file self fs filename) in
  (exists text,
     fs' filename = Some text /\
     split (fst (readline text)) = [str_of_int (numseqs self); str_of_int (seqlen self)]) /\
  DNASeqList_init rng_choice rng_shuffle fs'
    {| arg_length := None; arg_num_random_seqs := num_random_seqs;
       arg_shuffle := shuffle_flag; arg_alphabet := alphabet;
       arg_seqs := None; arg_seqarr := None; arg_filename := Some filename |}
  = Raise ValueError.
Proof.
  intros fs'.
  assert (H : exists text,
     fs' filename = Some text /\
     split (fst (readline text)) = [str_of_int (numseqs self); str_of_int (seqlen self)]).
  { subst fs'. unfold write_to_file.
    set (header := str_of_int (numseqs self) ++ [" "%char] ++ str_of_int (seqlen self) ++ [newline]).
    destruct (write_rows_extends self (seq 0 (Z.to_nat (numseqs self))) header)
      as [more E].
    destruct (write_rows self (seq 0 (Z.to_nat (numseqs self))) header) as [text r].
    simpl in E; subst text. simpl. unfold fs_write. rewrite String.eqb_refl.
    eexists; split; [reflexivity|].
    subst header.
    replace ((str_of_int (numseqs self) ++ [" "%char] ++ str_of_int (seqlen self) ++ [newline]) ++ more)
      with ((str_of_int (numseqs self) ++ [" "%char] ++ str_of_int (seqlen self)) ++ newline :: more)
      by (now rewrite <- !app_assoc).
    rewrite readline_word.
    - simpl fst. rewrite <- !app_assoc. apply header_two_fields.
    - apply Forall_app; split; [|constructor; [now right|]];
        (eapply Forall_impl; [|apply str_of_int_not_space]); auto. }
  split; [exact H|].
  destruct H as [text [Ht Hs]].
  unfold DNASeqList_init. simpl.
  rewrite (read_from_file_needs_three_fields fs' filename text Ht); [reflexivity|].
  rewrite Hs. simpl. lia.
Qed.

(** ** The Hamming filter *)

Lemma getitem_last {A : Type} (l : list A) (d : A) :
  l <> [] -> getitem l (-1) = Ok (last l d).
Proof.
  intros Hl. unfold getitem.
  assert (Hn : (0 < length l)%nat) by (destruct l; [congruence | simpl; lia]).
  replace (-1 <? 0) with true by reflexivity.
  replace ((-1 + Z.of_nat (length l) <? 0)
           || (Z.of_nat (length l) <=? -1 + Z.of_nat (length l))) with false
    by (symmetry; apply orb_false_iff; split; [apply Z.ltb_ge | apply Z.leb_gt]; lia).
  replace (Z.to_nat (-1 + Z.of_nat (length l))) with (length l - 1)%nat by lia.
  rewrite nth_error_nth' with (d := d) by lia.
  f_equal. clear Hn.
  induction l as [|a [|b l'] IH]; [congruence | reflexivity |].
  replace (length (a :: b :: l') - 1)%nat with (S (length (b :: l') - 1))
    by (cbn [length]; lia).
  change (nth (S (length (b :: l') - 1)) (a :: b :: l') d)
    with (nth (length (b :: l') - 1) (b :: l') d).
  rewrite IH by discriminate. reflexivity.
Qed.

Lemma pop_array_nonempty (self : DNASeqList) :
  rows (seqarr self) <> [] ->
  exists seq self',
    pop_array self = Ok (seq, self') /\
    rows (seqarr self') = removelast (rows (seqarr self)).
Proof.
  intros Hne. unfold pop_array.
  rewrite (getitem_last _ []) by assumption. cbn [bind].
  eexists. eexists. split; [reflexivity | reflexivity].
Qed.

Lemma removelast_length {A : Type} (l : list A) :
  length (removelast l) = (length l - 1)%nat.
Proof.
  induction l as [|a [|b l'] IH]; [reflexivity | reflexivity |].
  change (removelast (a :: b :: l')) with (a :: removelast (b :: l')).
  cbn [length] in *. lia.
Qed.

Lemma hamming_min_of_nonempty (arr_keep : matrix) (seq : row) :
  arr_keep <> [] -> exists m, hamming_min_of arr_keep seq = Ok m.
Proof.
  intros Hne. destruct arr_keep as [|k ks]; [congruence|].
  unfold hamming_min_of. cbn [map np_min]. eexists. reflexivity.
Qed.

Lemma rows_nonempty_ltb (self : DNASeqList) :
  (0 <? length (rows (seqarr self)))%nat = true -> rows (seqarr self) <> [].
Proof.
  intros H E. rewrite E in H. discriminate.
Qed.

(** The inner loop ends within as many rounds as rows remain, and only removes
    rows. *)
Lemma filter_hamming_inner_returns (fuel : nat) (threshold : Z) :
  forall (arr_keep : matrix) (seq : row) (self : DNASeqList),
    arr_keep <> [] ->
    (length (rows (seqarr self)) < fuel)%nat ->
    exists seq' self',
      filter_hamming_inner fuel threshold arr_keep seq self = Some (Ok (seq', self')) /\
      (length (rows (seqarr self')) <= length (rows (seqarr self)))%nat.
Proof.
  induction fuel as [|fuel IH]; intros arr_keep seq self Hk Hf; [lia|].
  cbn [filter_hamming_inner].
  destruct (0 <? length (rows (seqarr self)))%nat eqn:E.
  - destruct (hamming_min_of_nonempty arr_keep seq Hk) as [m Hm]. rewrite Hm.
    destruct (negb (m <? threshold)).
    + eexists. eexists. split; [reflexivity | lia].
    + destruct (pop_array_nonempty self (rows_nonempty_ltb _ E)) as [s [self1 [Hp Hr]]].
      rewrite Hp.
      assert (Hl : length (rows (seqarr self1)) = (length (rows (seqarr self)) - 1)%nat)
        by (rewrite Hr; apply removelast_length).
      assert (Hpos : (0 < length (rows (seqarr self)))%nat)
        by (apply Nat.ltb_lt; exact E).
      destruct (IH arr_keep s self1 Hk) as [s' [self' [H1 H2]]]; [lia|].
      exists s', self'. split; [exact H1 | lia].
  - eexists. eexists. split; [reflexivity | lia].
Qed.

Lemma filter_hamming_outer_returns (fuel : nat) (threshold : Z) :
  forall (arr_keep : matrix) (self : DNASeqList),
    arr_keep <> [] ->
    (length (rows (seqarr self)) < fuel)%nat ->
    exists arr_keep' self',
      filter_hamming_outer fuel threshold arr_keep self = Some (Ok (arr_keep', self')).
Proof.
  induction fuel as [|fuel IH]; intros arr_keep self Hk Hf; [lia|].
  cbn [filter_hamming_outer].
  destruct (0 <? length (rows (seqarr self)))%nat eqn:E.
  - destruct (pop_array_nonempty self (rows_nonempty_ltb _ E)) as [s [self1 [Hp Hr]]].
    rewrite Hp.
    assert (Hl : length (rows (seqarr self1)) = (length (rows (seqarr self)) - 1)%nat)
      by (rewrite Hr; apply removelast_length).
    assert (Hpos : (0 < length (rows (seqarr self)))%nat) by (apply Nat.ltb_lt; exact E).
    destruct (filter_hamming_inner_returns (S fuel) threshold arr_keep s self1 Hk)
      as [s' [self2 [H1 H2]]]; [lia|].
    rewrite H1.
    apply IH; [destruct arr_keep; discriminate | lia].
  - eexists. eexists. reflexivity.
Qed.

(** [filter_hamming] returns on every non-empty list, whatever the shuffle, as
    long as the shuffle keeps the number of rows: both loops end after at most
    as many rounds as the list has rows. *)
Lemma filter_hamming_returns (rng_shuffle : matrix -> matrix)
  (self : DNASeqList) (threshold : Z) :
  (forall m, length (rng_shuffle m) = length m) ->
  rows (seqarr self) <> [] ->
  exists kept,
    filter_hamming rng_shuffle (length (rows (seqarr self))) self threshold
    = Some (Ok kept).
Proof.
  intros Hlen Hne. unfold filter_hamming.
  destruct (pop_array_nonempty self Hne) as [s [self1 [Hp Hr]]]. rewrite Hp.
  assert (Hpos : (0 < length (rows (seqarr self)))%nat)
    by (destruct (rows (seqarr self)); [congruence | simpl; lia]).
  destruct (filter_hamming_outer_returns (length (rows (seqarr self))) threshold
              [s] (shuffle rng_shuffle self1)) as [k [self3 H]];
    [discriminate | |].
  - unfold shuffle. cbn [rows seqarr]. rewrite Hlen, Hr, removelast_length. lia.
  - rewrite H. eexists. reflexivity.
Qed.

(** C2 (the code departs from the claim).  The list built from the two equal
    sequences AAAA and AAAA is filtered with threshold 1: whatever permutation
    the shuffle applies, [filter_hamming] returns and retains both rows,
    although their Hamming distance is 0 < 1.  The row popped last is appended
    without the distance test, because the inner loop that holds the test only
    runs while rows remain. *)
Theorem filter_hamming_keeps_close_rows
  (rng_choice : list Z -> nat -> nat -> matrix) (rng_shuffle : matrix -> matrix)
  (fs : filesystem) :
  (forall m, Permutation m (rng_shuffle m)) ->
  exists self kept,
    DNASeqList_init rng_choice rng_shuffle fs
      {| arg_length := None; arg_num_random_seqs := None; arg_shuffle := false;
         arg_alphabet := bits2base; arg_seqs := Some ["AAAA"%string; "AAAA"%string];
         arg_seqarr := None; arg_filename := None |} = Ok self /\
    filter_hamming rng_shuffle 2 self 1 = Some (Ok kept) /\
    rows (seqarr kept) = [[0; 0; 0; 0]; [0; 0; 0; 0]] /\
    numseqs kept = 2 /\
    hamming [0; 0; 0; 0] [0; 0; 0; 0] < 1.
Proof.
  intros Hperm.
  eexists. eexists. split; [vm_compute; reflexivity|].
  unfold filter_hamming.
  match goal with
  | |- context [pop_array ?x] =>
      let v := eval vm_compute in (pop_array x) in change (pop_array x) with v
  end.
  cbv beta iota. unfold shuffle. cbn [rows seqarr ncols numseqs seqlen shift].
  match goal with
  | |- context [rng_shuffle ?m] =>
      replace (rng_shuffle m) with m
        by (symmetry; apply Permutation_length_1_inv, Hperm)
  end.
  split; [cbv; reflexivity|].
  repeat split; reflexivity.
Qed.

Lemma filter_hamming_keeps_close_rows_witness :
  exists self kept,
    DNASeqList_init (fun _ _ _ => []) (fun m => m) (fun _ => None)
      {| arg_length := None; arg_num_random_seqs := None; arg_shuffle := false;
         arg_alphabet := bits2base; arg_seqs := Some ["AAAA"%string; "AAAA"%string];
         arg_seqarr := None; arg_filename := None |} = Ok self /\
    filter_hamming (fun m => m) 2 self 1 = Some (Ok kept) /\
    rows (seqarr kept) = [[0; 0; 0; 0]; [0; 0; 0; 0]] /\
    numseqs kept = 2 /\
    hamming [0; 0; 0; 0] [0; 0; 0; 0] < 1.
Proof.
  apply (filter_hamming_keeps_close_rows (fun _ _ _ => []) (fun m => m) (fun _ => None)).
  intros m. apply Permutation_refl.
Defined.

(** ** Exhaustive enumeration *)

Lemma zip_with_app {A B C : Type} (f : A -> B -> C) (l1 l1' : list A)
  (l2 l2' : list B) :
  length l1 = length l2 ->
  zip_with f (l1 ++ l1') (l2 ++ l2') = zip_with f l1 l2 ++ zip_with f l1' l2'.
Proof.
  revert l2. induction l1 as [|a l1 IH]; intros [|b l2]; simpl; intros H;
    try discriminate; [reflexivity|]. f_equal. apply IH. lia.
Qed.

Lemma zip_with_length {A B C : Type} (f : A -> B -> C) (l1 : list A) (l2 : list B) :
  length (zip_with f l1 l2) = Nat.min (length l1) (length l2).
Proof.
  revert l2. induction l1 as [|a l1 IH]; intros [|b l2]; simpl; auto.
Qed.

Lemma zip_with_repeat {A B C : Type} (f : A -> B -> C) (a : A) (b : B) (n : nat) :
  zip_with f (repeat a n) (repeat b n) = repeat (f a b) n.
Proof. induction n; simpl; [reflexivity|now f_equal]. Qed.

Lemma zip_with_map_l {A A' B C : Type} (f : A' -> B -> C) (g : A -> A')
  (l1 : list A) (l2 : list B) :
  zip_with f (map g l1) l2 = zip_with (fun a b => f (g a) b) l1 l2.
Proof.
  revert l2. induction l1 as [|a l1 IH]; intros [|b l2]; simpl; auto.
  now rewrite IH.
Qed.

Lemma np_repeat_length {A : Type} (x : list A) (n : nat) :
  length (np_repeat x n) = (length x * n)%nat.
Proof.
  unfold np_repeat. induction x as [|a x IH]; simpl; [reflexivity|].
  now rewrite length_app, repeat_length, IH.
Qed.

Lemma np_tile_length {A : Type} (x : list A) (n : nat) :
  length (np_tile x n) = (n * length x)%nat.
Proof.
  unfold np_tile. induction n as [|n IH]; simpl; [reflexivity|].
  now rewrite length_app, IH.
Qed.

Lemma np_repeat_cons {A : Type} (a : A) (x : list A) (n : nat) :
  np_repeat (a :: x) n = repeat a n ++ np_repeat x n.
Proof. reflexivity. Qed.

Lemma np_repeat_app {A : Type} (x y : list A) (n : nat) :
  np_repeat (x ++ y) n = np_repeat x n ++ np_repeat y n.
Proof. unfold np_repeat. apply flat_map_app. Qed.

Lemma np_tile_S {A : Type} (x : list A) (n : nat) :
  np_tile x (S n) = x ++ np_tile x n.
Proof. reflexivity. Qed.

Lemma np_repeat_1 {A : Type} (x : list A) : np_repeat x 1 = x.
Proof.
  unfold np_repeat. induction x as [|a x IH]; simpl; [reflexivity|now f_equal].
Qed.

Lemma repeat_add {A : Type} (a : A) (n m : nat) :
  repeat a (n + m) = repeat a n ++ repeat a m.
Proof. apply repeat_app. Qed.

(** One row of the previous enumeration, repeated, against one period of the
    new column. *)
Lemma snoc_block (r : row) (bits : list Z) (m : nat) :
  zip_with (fun r v => r ++ [v]) (repeat r (length bits * m)) (np_repeat bits m) =
  np_repeat (map (fun b => r ++ [b]) bits) m.
Proof.
  induction bits as [|b bits IH]; [reflexivity|].
  cbn [length map]. rewrite !np_repeat_cons.
  replace (S (length bits) * m)%nat with (m + length bits * m)%nat by lia.
  rewrite repeat_add, zip_with_app by now rewrite !repeat_length.
  now rewrite zip_with_repeat, IH.
Qed.

Lemma snoc_column (x : matrix) (bits : list Z) (m : nat) :
  zip_with (fun r v => r ++ [v])
    (np_repeat x (length bits * m)) (np_tile (np_repeat bits m) (length x)) =
  np_repeat (flat_map (fun r => map (fun b => r ++ [b]) bits) x) m.
Proof.
  induction x as [|r x IH]; [reflexivity|].
  cbn [length flat_map]. rewrite np_repeat_cons, np_tile_S, np_repeat_app.
  rewrite zip_with_app by now rewrite repeat_length, np_repeat_length.
  now rewrite snoc_block, IH.
Qed.

Lemma flat_map_length_const {A B : Type} (f : A -> list B) (c : nat) (l : list A) :
  (forall a, length (f a) = c) -> length (flat_map f l) = (c * length l)%nat.
Proof.
  intros H. induction l as [|a l IH]; cbn [flat_map length]; [lia|].
  rewrite length_app, H, IH. lia.
Qed.

Lemma enumerate_length (bits : list Z) (n : nat) :
  length (enumerate bits n) = (length bits ^ n)%nat.
Proof.
  induction n as [|n IH]; [reflexivity|]. cbn [enumerate Nat.pow].
  rewrite (flat_map_length_const _ (length bits)), IH; [reflexivity|].
  intros r. apply length_map.
Qed.

Lemma enumerate_row_length (bits : list Z) (n : nat) :
  rect n (enumerate bits n).
Proof.
  unfold rect. induction n as [|n IH]; [repeat constructor|].
  cbn [enumerate]. apply Forall_flat_map.
  eapply Forall_impl; [|exact IH]. intros r Hr. apply Forall_map.
  apply Forall_forall. intros b _. rewrite length_app, Hr. simpl; lia.
Qed.

Lemma set_nth_pad (c : nat) (v : Z) (r pad : row) :
  length r = c -> set_nth c v (r ++ 0 :: pad) = (r ++ [v]) ++ pad.
Proof.
  revert c. induction r as [|a r IH]; intros c <-; simpl; [reflexivity|].
  f_equal. now apply IH.
Qed.

Lemma set_col_pad (c m : nat) (x : matrix) (col : list Z) :
  rect c x ->
  zip_with (fun r v => set_nth c v r) (map (fun r => r ++ repeat 0 (S m)) x) col =
  map (fun r => r ++ repeat 0 m) (zip_with (fun r v => r ++ [v]) x col).
Proof.
  intros H; revert col. induction H as [|r x Hr _ IH]; intros [|v col]; simpl;
    try reflexivity.
  rewrite IH. f_equal. now apply set_nth_pad.
Qed.

Lemma zip3_rev_seq {A B C : Type} (f : nat -> A) (g : nat -> B) (h : nat -> C)
  (n : nat) :
  zip3 (rev (map f (seq 0 n))) (map g (seq 0 n)) (map h (seq 0 n)) =
  map (fun c => (f (n - 1 - c)%nat, g c, h c)) (seq 0 n).
Proof.
  revert g h. induction n as [|n IH]; intros g h; [reflexivity|].
  rewrite seq_S at 1. rewrite map_app, rev_app_distr. cbn [map rev app seq zip3].
  rewrite <- seq_shift, !map_map, IH.
  f_equal; [do 3 f_equal; lia|].
  apply map_ext. intros c. do 3 f_equal. lia.
Qed.

Lemma fold_left_map {A B C : Type} (f : A -> B -> A) (g : C -> B) (l : list C) (a : A) :
  fold_left f (map g l) a = fold_left (fun x c => f x (g c)) l a.
Proof.
  revert a. induction l as [|c l IH]; intros a; simpl; auto.
Qed.

(** The array after the first [c] columns were written. *)
Lemma columns_invariant (bits : list Z) (total c : nat) :
  (c <= total)%nat ->
  fold_left
    (fun acc c' =>
       arr <- acc ;;
       set_col arr c'
         (np_tile (np_repeat bits (length bits ^ (total - 1 - c'))) (length bits ^ c')))
    (seq 0 c) (Ok (repeat (repeat 0 total) (length bits ^ total))) =
  Ok (map (fun r => r ++ repeat 0 (total - c))
          (np_repeat (enumerate bits c) (length bits ^ (total - c)))).
Proof.
  set (k := length bits).
  induction c as [|c IH]; intros Hc.
  - cbn [seq fold_left enumerate]. rewrite Nat.sub_0_r.
    unfold np_repeat. simpl. rewrite app_nil_r. f_equal.
    induction (k ^ total)%nat as [|n IHn]; simpl; [reflexivity|now f_equal].
  - rewrite seq_S, fold_left_app, IH by lia. cbn [fold_left bind Nat.add].
    unfold set_col.
    rewrite length_map, np_tile_length, !np_repeat_length, enumerate_length.
    fold k.
    replace (total - c)%nat with (S (total - S c)) by lia.
    replace (total - 1 - c)%nat with (total - S c)%nat by lia.
    cbn [Nat.pow].
    replace (k ^ c * (k * k ^ (total - S c)) =? k ^ c * (k * k ^ (total - S c)))%nat
      with true by (symmetry; apply Nat.eqb_refl).
    replace (k ^ c * (k * k ^ (total - S c)) =? k ^ c * (k * k ^ (total - S c)))%nat
      with true by (symmetry; apply Nat.eqb_refl).
    f_equal. rewrite set_col_pad.
    + f_equal. cbn [enumerate].
      unfold k. rewrite <- (enumerate_length bits c). apply snoc_column.
    + unfold rect, np_repeat. apply Forall_flat_map.
      eapply Forall_impl; [|apply enumerate_row_length].
      intros r Hr. apply Forall_forall. intros r' Hr'.
      apply repeat_spec in Hr'. now subst.
Qed.

Lemma StronglySorted_app {A : Type} (R : A -> A -> Prop) (l1 l2 : list A) :
  StronglySorted R l1 -> StronglySorted R l2 ->
  (forall a b, In a l1 -> In b l2 -> R a b) ->
  StronglySorted R (l1 ++ l2).
Proof.
  induction 1 as [|a l1 H1 IH Ha]; intros H2 H12; simpl; [exact H2|].
  constructor.
  - apply IH; [exact H2|]. intros x y Hx Hy. apply H12; simpl; auto.
  - apply Forall_app; split; [exact Ha|].
    apply Forall_forall. intros y Hy. apply H12; simpl; auto.
Qed.

Lemma StronglySorted_map {A B : Type} (R : A -> A -> Prop) (Q : B -> B -> Prop)
  (g : A -> B) (l : list A) :
  (forall a b, R a b -> Q (g a) (g b)) ->
  StronglySorted R l -> StronglySorted Q (map g l).
Proof.
  intros Hg. induction 1 as [|a l _ IH Ha]; simpl; constructor; [exact IH|].
  apply Forall_map. eapply Forall_impl; [|exact Ha]. intros b. apply Hg.
Qed.

Lemma StronglySorted_flat_map {A B : Type} (R : A -> A -> Prop)
  (Q : B -> B -> Prop) (f : A -> list B) (l : list A) :
  (forall x, StronglySorted Q (f x)) ->
  (forall x y a b, R x y -> In a (f x) -> In b (f y) -> Q a b) ->
  StronglySorted R l -> StronglySorted Q (flat_map f l).
Proof.
  intros Hf Hxy. induction 1 as [|x l _ IH Hx]; simpl; [constructor|].
  apply StronglySorted_app; [apply Hf|exact IH|].
  intros a b Ha Hb. apply in_flat_map in Hb as [y [Hy Hb]].
  rewrite Forall_forall in Hx. eapply Hxy; eauto.
Qed.

Lemma NoDup_flat_map {A B : Type} (f : A -> list B) (l : list A) :
  (forall x, NoDup (f x)) ->
  (forall x y a, In a (f x) -> In a (f y) -> x = y) ->
  NoDup l -> NoDup (flat_map f l).
Proof.
  intros Hf Hxy. induction 1 as [|x l Hx _ IH]; simpl; [constructor|].
  apply NoDup_app; [apply Hf|exact IH|].
  intros a Ha Hb. apply in_flat_map in Hb as [y [Hy Hb]].
  rewrite (Hxy x y a Ha Hb) in Hx. contradiction.
Qed.

Lemma lex_snoc (R : Z -> Z -> Prop) (r : list Z) (a b : Z) :
  R a b -> lex R (r ++ [a]) (r ++ [b]).
Proof.
  intros H. induction r as [|x r IH]; simpl; [now apply lex_head|now apply lex_tail].
Qed.

Lemma lex_app (R : Z -> Z -> Prop) (r1 r2 x y : list Z) :
  lex R r1 r2 -> lex R (r1 ++ x) (r2 ++ y).
Proof.
  induction 1; simpl; [now apply lex_head|now apply lex_tail].
Qed.

Lemma enumerate_sorted (R : Z -> Z -> Prop) (bits : list Z) (n : nat) :
  StronglySorted R bits -> StronglySorted (lex R) (enumerate bits n).
Proof.
  intros HR. induction n as [|n IH]; [repeat constructor|].
  cbn [enumerate]. eapply StronglySorted_flat_map; [| |exact IH].
  - intros r. eapply StronglySorted_map; [|exact HR]. intros a b. apply lex_snoc.
  - intros r1 r2 a b H12 Ha Hb.
    apply in_map_iff in Ha as [a' [<- _]]. apply in_map_iff in Hb as [b' [<- _]].
    now apply lex_app.
Qed.

Lemma enumerate_NoDup (bits : list Z) (n : nat) :
  NoDup bits -> NoDup (enumerate bits n).
Proof.
  intros Hb. induction n as [|n IH]; [repeat constructor; auto|].
  cbn [enumerate]. apply NoDup_flat_map; [| |exact IH].
  - intros r. apply Finite.Injective_map_NoDup; [|exact Hb].
    intros a b E. now apply app_inj_tail in E.
  - intros r1 r2 a Ha Hb'.
    apply in_map_iff in Ha as [a' [<- _]]. apply in_map_iff in Hb' as [b' [E _]].
    now apply app_inj_tail in E.
Qed.

Lemma subset_of_ACGT_upper (bases : list ascii) :
  subset_of_ACGT bases = true -> Forall upper_base bases.
Proof.
  unfold subset_of_ACGT. rewrite forallb_forall. intros H.
  apply Forall_forall. intros c Hc. specialize (H c Hc).
  apply existsb_exists in H as [c' [Hc' E]].
  apply Ascii.eqb_eq in E. now subst.
Qed.

Lemma base2bits_upper (c : ascii) :
  upper_base c -> base2bits c = Ok (bits_of_base c).
Proof.
  unfold upper_base, bits2base; simpl.
  intros [<-|[<-|[<-|[<-|[]]]]]; reflexivity.
Qed.

Lemma bits_of_base_inj (c1 c2 : ascii) :
  upper_base c1 -> upper_base c2 -> bits_of_base c1 = bits_of_base c2 -> c1 = c2.
Proof.
  unfold upper_base, bits2base; simpl.
  intros [<-|[<-|[<-|[<-|[]]]]] [<-|[<-|[<-|[<-|[]]]]]; cbv; congruence.
Qed.

Lemma NoDup_map_on {A B : Type} (f : A -> B) (l : list A) :
  (forall a b, In a l -> In b l -> f a = f b -> a = b) ->
  NoDup l -> NoDup (map f l).
Proof.
  intros Hf. induction 1 as [|a l Ha _ IH]; simpl; constructor.
  - intros Hin. apply in_map_iff in Hin as [b [E Hb]].
    apply Hf in E; simpl; auto. now subst.
  - apply IH. intros x y Hx Hy. apply Hf; simpl; auto.
Qed.

(** The array that [make_array_with_all_dna_seqs] builds column by column is
    the enumeration of the words over the listed symbols. *)
Lemma make_array_with_all_dna_seqs_enumerate (length : nat) (bases : list ascii) :
  subset_of_ACGT bases = true -> bases <> [] ->
  make_array_with_all_dna_seqs length bases =
  Ok (enumerate (map bits_of_base bases) length).
Proof.
  intros Hsub Hne. unfold make_array_with_all_dna_seqs.
  rewrite Hsub. cbn [negb].
  destruct bases as [|b0 bases']; [contradiction|].
  set (bases := b0 :: bases') in *.
  change (List.length bases =? 0)%nat with false. cbv iota.
  rewrite (mapM_Ok_map _ bits_of_base).
  2:{ eapply Forall_impl; [|apply subset_of_ACGT_upper, Hsub].
      apply base2bits_upper. }
  cbn [bind].
  rewrite <- (map_id (seq 0 length)) at 3.
  rewrite zip3_rev_seq, fold_left_map.
  rewrite <- (length_map bits_of_base bases).
  rewrite (columns_invariant (map bits_of_base bases) length length) by lia.
  rewrite Nat.sub_diag. cbn [Nat.pow repeat]. rewrite np_repeat_1.
  f_equal. rewrite <- (map_id (enumerate _ _)) at 2.
  apply map_ext. intros r. apply app_nil_r.
Qed.

(** C4 (amended).  For every length and every alphabet of k distinct valid
    symbols, [make_array_with_all_dna_seqs] returns k^length rows, all
    distinct, strictly increasing in the lexicographic order induced by the
    order in which the alphabet lists its symbols: whenever the listed codes
    are increasing for an order [R] (as those of the default ACGT are for
    [<]), the rows are increasing for [lex R]. *)
Theorem make_array_with_all_dna_seqs_complete (length : nat) (bases : list ascii) :
  subset_of_ACGT bases = true -> bases <> [] -> NoDup bases ->
  exists arr,
    make_array_with_all_dna_seqs length bases = Ok arr /\
    List.length arr = (List.length bases ^ length)%nat /\
    rect length arr /\
    NoDup arr /\
    forall R : Z -> Z -> Prop,
      StronglySorted R (map bits_of_base bases) -> StronglySorted (lex R) arr.
Proof.
  intros Hsub Hne Hnd. eexists. split.
  { now apply make_array_with_all_dna_seqs_enumerate. }
  split; [now rewrite enumerate_length, length_map|].
  split; [apply enumerate_row_length|].
  split.
  - apply enumerate_NoDup. apply NoDup_map_on; [|exact Hnd].
    intros a b Ha Hb. pose proof (subset_of_ACGT_upper _ Hsub) as Hu.
    rewrite Forall_forall in Hu. apply bits_of_base_inj; auto.
  - intros R. apply enumerate_sorted.
Qed.

Lemma make_array_with_all_dna_seqs_complete_witness :
  exists arr,
    make_array_with_all_dna_seqs 2 bits2base = Ok arr /\
    List.length arr = (List.length bits2base ^ 2)%nat /\
    rect 2 arr /\
    NoDup arr /\
    forall R : Z -> Z -> Prop,
      StronglySorted R (map bits_of_base bits2base) -> StronglySorted (lex R) arr.
Proof.
  apply (make_array_with_all_dna_seqs_complete 2 bits2base).
  - reflexivity.
  - discriminate.
  - unfold bits2base. repeat constructor; simpl; intuition discriminate.
Defined.

(** With the default alphabet the rows increase in the order of the codes. *)
Corollary make_array_with_all_dna_seqs_default (length : nat) :
  exists arr,
    make_array_with_all_dna_seqs length bits2base = Ok arr /\
    List.length arr = (4 ^ length)%nat /\
    StronglySorted (lex Z.lt) arr.
Proof.
  eexists. split.
  { apply make_array_with_all_dna_seqs_enumerate; [reflexivity|discriminate]. }
  split.
  - now rewrite enumerate_length.
  - apply enumerate_sorted. simpl. repeat constructor; lia.
Qed.

Lemma lex_lt_irrefl_head (a b : Z) : lex Z.lt [a] [b] -> a < b.
Proof.
  intros H. inversion H as [? ? ? ? Hab|? ? ? Ht]; subst; [exact Hab|inversion Ht].
Qed.

(** C4 as stated fails: for the alphabet listed as T, A and length 1 the rows
    are [3] then [0], which is not increasing in the order of the codes. *)
Lemma make_array_with_all_dna_seqs_not_code_sorted :
  ~ (exists arr,
       make_array_with_all_dna_seqs 1 ["T"; "A"]%char = Ok arr /\
       List.length arr = (2 ^ 1)%nat /\
       NoDup arr /\
       StronglySorted (lex Z.lt) arr).
Proof.
  intros [arr [E [_ [_ HS]]]].
  vm_compute in E. injection E as <-.
  inversion HS as [|? ? _ HF]; subst.
  inversion HF as [|? ? H30 _]; subst.
  apply lex_lt_irrefl_head in H30. lia.
Qed.

(** ** The substring filter *)

Lemma wrap64_add_l (a b : Z) : wrap64 (wrap64 a + b) = wrap64 (a + b).
Proof.
  unfold wrap64, int_bits. f_equal.
  replace ((a + 2 ^ (64 - 1)) mod 2 ^ 64 - 2 ^ (64 - 1) + b + 2 ^ (64 - 1))
    with ((a + 2 ^ (64 - 1)) mod 2 ^ 64 + b) by lia.
  rewrite Zplus_mod_idemp_l. f_equal. lia.
Qed.

Lemma wrap64_add_r (a b : Z) : wrap64 (a + wrap64 b) = wrap64 (a + b).
Proof. rewrite Z.add_comm, wrap64_add_l. f_equal. lia. Qed.

Lemma wrap64_idem (a : Z) : wrap64 (wrap64 a) = wrap64 a.
Proof.
  replace (wrap64 a) with (wrap64 a + 0) at 1 by lia.
  rewrite wrap64_add_l. f_equal. lia.
Qed.

Lemma wrap64_inj (a b : Z) :
  0 <= a < 2 ^ 64 -> 0 <= b < 2 ^ 64 -> wrap64 a = wrap64 b -> a = b.
Proof.
  unfold wrap64, int_bits. intros Ha Hb H.
  assert (E : (a + 2 ^ (64 - 1)) mod 2 ^ 64 = (b + 2 ^ (64 - 1)) mod 2 ^ 64) by lia.
  clear H. change (2 ^ (64 - 1)) with 9223372036854775808 in *.
  change (2 ^ 64) with 18446744073709551616 in *.
  destruct (Z_lt_le_dec a 9223372036854775808) as [Ha'|Ha'];
  destruct (Z_lt_le_dec b 9223372036854775808) as [Hb'|Hb'].
  - rewrite !Z.mod_small in E by lia. lia.
  - rewrite (Z.mod_small (a + _)) in E by lia.
    replace (b + 9223372036854775808)
      with (b - 9223372036854775808 + 1 * 18446744073709551616) in E by lia.
    rewrite Z.mod_add, Z.mod_small in E by lia. lia.
  - rewrite (Z.mod_small (b + _)) in E by lia.
    replace (a + 9223372036854775808)
      with (a - 9223372036854775808 + 1 * 18446744073709551616) in E by lia.
    rewrite Z.mod_add, Z.mod_small in E by lia. lia.
  - replace (a + 9223372036854775808)
      with (a - 9223372036854775808 + 1 * 18446744073709551616) in E by lia.
    replace (b + 9223372036854775808)
      with (b - 9223372036854775808 + 1 * 18446744073709551616) in E by lia.
    rewrite !Z.mod_add, !Z.mod_small in E by lia. lia.
Qed.

Lemma fold_add_acc (l : list Z) (a : Z) :
  fold_left Z.add l a = a + fold_left Z.add l 0.
Proof.
  revert a. induction l as [|x l IH]; intros a; simpl; [lia|].
  rewrite IH, (IH x). lia.
Qed.

Lemma dot_exact_cons (a b : Z) (u v : list Z) :
  dot_exact (a :: u) (b :: v) = a * b + dot_exact u v.
Proof. unfold dot_exact. simpl. now rewrite fold_add_acc. Qed.

Lemma dot_exact_nil_l (v : list Z) : dot_exact [] v = 0.
Proof. reflexivity. Qed.

Lemma dot_exact_nil_r (u : list Z) : dot_exact u [] = 0.
Proof. destruct u; reflexivity. Qed.

Lemma dot_exact_comm (u v : list Z) : dot_exact u v = dot_exact v u.
Proof.
  revert v. induction u as [|a u IH]; intros [|b v];
    rewrite ?dot_exact_nil_l, ?dot_exact_nil_r, ?dot_exact_cons; auto.
  rewrite IH. lia.
Qed.

Lemma dot64_acc (l : list Z) (a : Z) :
  fold_left (fun acc p => wrap64 (acc + p)) (map wrap64 l) (wrap64 a) =
  wrap64 (fold_left Z.add l a).
Proof.
  revert a. induction l as [|x l IH]; intros a; simpl; [reflexivity|].
  rewrite wrap64_add_l, wrap64_add_r. apply IH.
Qed.

Lemma zip_with_map_out {A B C D : Type} (g : C -> D) (f : A -> B -> C)
  (u : list A) (v : list B) :
  zip_with (fun a b => g (f a b)) u v = map g (zip_with f u v).
Proof.
  revert v. induction u as [|a u IH]; intros [|b v]; simpl; auto.
  now rewrite IH.
Qed.

(** Wrapping at every step agrees with wrapping the exact result. *)
Lemma dot64_exact (u v : list Z) : dot64 u v = wrap64 (dot_exact u v).
Proof.
  unfold dot64, dot_exact.
  rewrite (zip_with_map_out wrap64 Z.mul).
  change 0 with (wrap64 0) at 1. apply dot64_acc.
Qed.

(** The value of a window in base 4, least significant digit first. *)
Lemma powarr_of_S (n : nat) :
  powarr_of (S n) = 1 :: map (fun p => 4 * p) (powarr_of n).
Proof.
  unfold powarr_of. cbn [seq map]. f_equal.
  rewrite <- seq_shift, !map_map. apply map_ext. intros k.
  rewrite Nat2Z.inj_succ, Z.pow_succ_r by lia. reflexivity.
Qed.

Lemma powarr_of_length (n : nat) : length (powarr_of n) = n.
Proof. unfold powarr_of. now rewrite length_map, length_seq. Qed.

Lemma dot_exact_scale (w p : list Z) (c : Z) :
  dot_exact w (map (fun x => c * x) p) = c * dot_exact w p.
Proof.
  revert p. induction w as [|a w IH]; intros [|b p]; simpl map;
    rewrite ?dot_exact_nil_l, ?dot_exact_nil_r, ?dot_exact_cons; try lia.
  rewrite IH. lia.
Qed.

Lemma window_value_cons (a : Z) (w : list Z) (n : nat) :
  dot_exact (a :: w) (powarr_of (S n)) = a + 4 * dot_exact w (powarr_of n).
Proof.
  rewrite powarr_of_S, dot_exact_cons, dot_exact_scale. lia.
Qed.

Lemma window_value_bound (w : list Z) :
  codes_row w -> 0 <= dot_exact w (powarr_of (length w)) < 4 ^ Z.of_nat (length w).
Proof.
  induction 1 as [|a w Ha _ IH].
  - cbv. split; [discriminate|reflexivity].
  - cbn [length]. rewrite window_value_cons, Nat2Z.inj_succ, Z.pow_succ_r by lia.
    unfold is_code in Ha. lia.
Qed.

Lemma window_value_inj (w1 w2 : list Z) :
  codes_row w1 -> codes_row w2 -> length w1 = length w2 ->
  dot_exact w1 (powarr_of (length w1)) = dot_exact w2 (powarr_of (length w2)) ->
  w1 = w2.
Proof.
  intros H1; revert w2. induction H1 as [|a w1 Ha _ IH]; intros [|b w2] H2 Hl E;
    try discriminate; [reflexivity|].
  inversion H2 as [|? ? Hb H2']; subst.
  cbn [length] in E. rewrite !window_value_cons in E.
  unfold is_code in Ha, Hb.
  assert (a = b /\ dot_exact w1 (powarr_of (length w1)) =
                   dot_exact w2 (powarr_of (length w2))) as [-> E'] by lia.
  f_equal. apply IH; auto.
Qed.

Lemma dot_exact_firstn (p r : list Z) :
  dot_exact p r = dot_exact p (firstn (length p) r).
Proof.
  revert r. induction p as [|a p IH]; intros [|b r]; cbn [length firstn];
    rewrite ?dot_exact_nil_l, ?dot_exact_nil_r, ?dot_exact_cons; auto.
  now rewrite <- IH.
Qed.

Lemma dot_exact_zeros_l (i : nat) (t r : list Z) :
  dot_exact (repeat 0 i ++ t) r = dot_exact t (skipn i r).
Proof.
  revert r. induction i as [|i IH]; intros r; [reflexivity|].
  destruct r as [|b r]; cbn [repeat app skipn].
  - now rewrite !dot_exact_nil_r.
  - rewrite dot_exact_cons, IH. lia.
Qed.

Lemma dot_exact_zeros_r (t r : list Z) (m : nat) :
  dot_exact (t ++ repeat 0 m) r = dot_exact t r.
Proof.
  revert r. induction t as [|a t IH]; intros r.
  - cbn [app]. rewrite dot_exact_nil_l.
    revert r. induction m as [|m IHm]; intros [|b r]; cbn [repeat];
      rewrite ?dot_exact_nil_l, ?dot_exact_nil_r, ?dot_exact_cons; auto.
    rewrite IHm. lia.
  - destruct r as [|b r]; cbn [app];
      rewrite ?dot_exact_nil_r, ?dot_exact_cons; auto.
    now rewrite IH.
Qed.

(** The entry of [convolution] for offset [i] and sequence [r] is the wrapped
    value of the window of [r] at [i]. *)
Lemma convolution_entry (i m sublen : nat) (r : list Z) :
  dot64 (repeat 0 i ++ powarr_of sublen ++ repeat 0 m) r =
  wrap64 (dot_exact (firstn sublen (skipn i r)) (powarr_of sublen)).
Proof.
  rewrite dot64_exact, dot_exact_zeros_l, dot_exact_zeros_r.
  rewrite dot_exact_firstn, powarr_of_length. f_equal. apply dot_exact_comm.
Qed.

Lemma firstn_repeat {A : Type} (a : A) (k m : nat) :
  (k <= m)%nat -> firstn k (repeat a m) = repeat a k.
Proof.
  revert m. induction k as [|k IH]; intros [|m] H; simpl; try reflexivity; try lia.
  f_equal. apply IH. lia.
Qed.

Lemma skipn_repeat {A : Type} (a : A) (k m : nat) :
  skipn k (repeat a m) = repeat a (m - k).
Proof.
  revert m. induction k as [|k IH]; intros [|m]; simpl; auto.
Qed.

Lemma zip_with_repeat_seq {A B : Type} (f : A -> nat -> B) (x : A) (s k : nat) :
  zip_with f (repeat x k) (seq s k) = map (f x) (seq s k).
Proof.
  revert s. induction k as [|k IH]; intros s; simpl; [reflexivity|].
  now rewrite IH.
Qed.

Lemma np_roll_band (p : list Z) (n i : nat) :
  (length p + i <= n)%nat ->
  np_roll (p ++ repeat 0 (n - length p)) i =
  repeat 0 i ++ p ++ repeat 0 (n - length p - i).
Proof.
  intros H. unfold np_roll.
  rewrite length_app, repeat_length.
  replace (length p + (n - length p))%nat with n by lia.
  destruct n as [|n'].
  - destruct p; [|simpl in H; lia]. now replace i with 0%nat by lia.
  - set (n := S n') in *.
    destruct (Nat.eq_dec i n) as [->|Hi].
    + destruct p; [|simpl in H; lia].
      rewrite Nat.Div0.mod_same. cbn [length app].
      rewrite !Nat.sub_0_r, Nat.sub_diag, skipn_all2, firstn_all2
        by (rewrite repeat_length; lia).
      simpl. now rewrite app_nil_r.
    + rewrite Nat.mod_small by lia.
      rewrite skipn_app, firstn_app.
      rewrite skipn_all2, firstn_all2 by lia.
      rewrite skipn_repeat, firstn_repeat by lia.
      cbn [app]. f_equal; [f_equal; lia|]. f_equal. f_equal. lia.
Qed.

Lemma fits64_pow4 (k : nat) : (k < 32)%nat -> fits64 (4 ^ Z.of_nat k) = true.
Proof.
  intros H. unfold fits64, int_bits.
  assert (0 < 4 ^ Z.of_nat k) by (apply Z.pow_pos_nonneg; lia).
  assert (4 ^ Z.of_nat k <= 4 ^ 31) by (apply Z.pow_le_mono_r; lia).
  change (4 ^ 31) with 4611686018427387904 in *.
  change (2 ^ (64 - 1)) with 9223372036854775808.
  apply andb_true_iff; split; [apply Z.leb_le|apply Z.ltb_lt]; lia.
Qed.

Lemma powarr_fits (sublen : nat) :
  (sublen <= 32)%nat -> Forall (fun z => fits64 z = true) (powarr_of sublen).
Proof.
  intros H. unfold powarr_of. apply Forall_map, Forall_forall.
  intros k Hk. apply in_seq in Hk. apply fits64_pow4. lia.
Qed.

(** The Toeplitz matrix: row [i] holds the powers of 4 from column [i] on. *)
Lemma create_toeplitz_band (n sublen : nat) :
  (sublen <= n)%nat -> (sublen <= 32)%nat ->
  create_toeplitz (Z.of_nat n) sublen =
  Ok (map (fun i => repeat 0 i ++ powarr_of sublen ++ repeat 0 (n - sublen - i))
          (seq 0 (n - sublen + 1))).
Proof.
  intros Hn H32. unfold create_toeplitz.
  replace (Z.of_nat n - (Z.of_nat sublen - 1)) with (Z.of_nat (n - sublen + 1)) by lia.
  replace ((Z.of_nat (n - sublen + 1) <? 0) || (Z.of_nat n <? 0)) with false
    by (symmetry; apply orb_false_iff; split; apply Z.ltb_ge; lia).
  replace (Z.of_nat (n - sublen + 1) =? 0) with false
    by (symmetry; apply Z.eqb_neq; lia).
  rewrite (mapM_Ok_map _ (fun z => z)).
  2:{ eapply Forall_impl; [|apply powarr_fits, H32].
      intros z Hz. unfold to_int64. now rewrite Hz. }
  rewrite map_id. cbn [bind]. rewrite !Nat2Z.id. f_equal.
  rewrite map_repeat, skipn_repeat, zip_with_repeat_seq.
  apply map_ext_in. intros i Hi. apply in_seq in Hi.
  rewrite <- (powarr_of_length sublen) at 2 4.
  apply np_roll_band. rewrite powarr_of_length. lia.
Qed.

Lemma is_prefix_spec (s l : list Z) :
  is_prefix s l = true <-> firstn (length s) l = s.
Proof.
  revert l. induction s as [|a s IH]; intros [|b l]; simpl; split; intros H;
    try reflexivity; try discriminate.
  - apply andb_true_iff in H as [E H]. apply Z.eqb_eq in E. subst.
    f_equal. now apply IH.
  - injection H as -> H. rewrite Z.eqb_refl. simpl. now apply IH.
Qed.

Lemma is_prefix_short (s l : list Z) :
  (length l < length s)%nat -> is_prefix s l = false.
Proof.
  revert l. induction s as [|a s IH]; intros [|b l]; simpl; intros H;
    try reflexivity; try lia.
  rewrite IH by lia. apply andb_false_r.
Qed.

Lemma contains_short (s l : list Z) :
  (length l < length s)%nat -> contains s l = false.
Proof.
  induction l as [|b l IH]; intros H.
  - simpl. rewrite is_prefix_short by exact H. reflexivity.
  - cbn [contains]. rewrite is_prefix_short by exact H.
    rewrite IH by (simpl in H; lia). reflexivity.
Qed.

Lemma existsb_map {A B : Type} (f : B -> bool) (g : A -> B) (l : list A) :
  existsb f (map g l) = existsb (fun a => f (g a)) l.
Proof. induction l as [|a l IH]; simpl; [reflexivity|now rewrite IH]. Qed.

(** Naive containment looks at every offset that leaves room for [s]. *)
Lemma contains_offsets (s r : list Z) :
  (length s <= length r)%nat ->
  contains s r =
  existsb (fun i => is_prefix s (skipn i r)) (seq 0 (length r - length s + 1)).
Proof.
  induction r as [|b r IH]; intros H.
  - destruct s; [reflexivity|simpl in H; lia].
  - cbn [contains].
    destruct (Nat.eq_dec (length s) (length (b :: r))) as [E|E].
    + rewrite E, Nat.sub_diag. cbn [Nat.add seq existsb skipn].
      rewrite contains_short by (simpl in E; lia). reflexivity.
    + cbn [length] in *.
      replace (S (length r) - length s + 1)%nat
        with (S (length r - length s + 1)) by lia.
      cbn [seq existsb skipn]. f_equal.
      rewrite <- seq_shift, existsb_map. cbn [skipn]. apply IH. lia.
Qed.


Lemma base2bits_code (c : ascii) (z : Z) : base2bits c = Ok z -> is_code z.
Proof.
  destruct c as [[] [] [] [] [] [] [] []]; simpl; intros [=]; subst;
    unfold is_code; lia.
Qed.

Lemma mapM_base2bits_codes (l : list ascii) (w : list Z) :
  mapM base2bits l = Ok w -> length w = length l /\ codes_row w.
Proof.
  revert w. induction l as [|c l IH]; simpl; intros w H.
  - injection H as <-. split; [reflexivity|constructor].
  - apply bind_Ok in H as [z [Hz H]]. apply bind_Ok in H as [w' [Hw H]].
    injection H as <-. destruct (IH w' Hw) as [Hl Hc].
    split; [simpl; now rewrite Hl|]. constructor; [|exact Hc].
    eapply base2bits_code; eauto.
Qed.

Lemma mapM_Forall2_inv {A B : Type} (f : A -> result B) (l : list A) (bs : list B) :
  mapM f l = Ok bs -> Forall2 (fun a b => f a = Ok b) l bs.
Proof.
  revert bs. induction l as [|a l IH]; simpl; intros bs H.
  - injection H as <-. constructor.
  - apply bind_Ok in H as [b [Hb H]]. apply bind_Ok in H as [bs' [Hbs H]].
    injection H as <-. constructor; auto.
Qed.

Lemma forallb_negb_existsb {A : Type} (g : A -> bool) (l : list A) :
  forallb (fun a => negb (g a)) l = negb (existsb g l).
Proof.
  induction l as [|a l IH]; simpl; [reflexivity|].
  rewrite IH. now rewrite negb_orb.
Qed.

Lemma forallb_map {A B : Type} (f : B -> bool) (g : A -> B) (l : list A) :
  forallb f (map g l) = forallb (fun a => f (g a)) l.
Proof. induction l as [|a l IH]; simpl; [reflexivity|now rewrite IH]. Qed.

Lemma forallb_ext_in {A : Type} (f g : A -> bool) (l : list A) :
  (forall a, In a l -> f a = g a) -> forallb f l = forallb g l.
Proof.
  induction l as [|a l IH]; simpl; intros H; [reflexivity|].
  rewrite H, IH; auto.
Qed.

Lemma existsb_ext_in {A : Type} (f g : A -> bool) (l : list A) :
  (forall a, In a l -> f a = g a) -> existsb f l = existsb g l.
Proof.
  induction l as [|a l IH]; simpl; intros H; [reflexivity|].
  rewrite H, IH; auto.
Qed.

Lemma codes_row_skipn (i : nat) (r : list Z) : codes_row r -> codes_row (skipn i r).
Proof.
  unfold codes_row. rewrite !Forall_forall. intros H x Hx.
  apply H. rewrite <- (firstn_skipn i r). apply in_or_app. now right.
Qed.

Lemma codes_row_firstn (i : nat) (r : list Z) : codes_row r -> codes_row (firstn i r).
Proof.
  unfold codes_row. rewrite !Forall_forall. intros H x Hx.
  apply H. rewrite <- (firstn_skipn i r). apply in_or_app. now left.
Qed.

(** At an offset that leaves room, the window value of [r] equals the value
    of [s] exactly when [s] lies at that offset. *)
Lemma window_test (s r : list Z) (i : nat) :
  codes_row s -> codes_row r -> (length s <= 32)%nat ->
  (i + length s <= length r)%nat ->
  (wrap64 (dot_exact (firstn (length s) (skipn i r)) (powarr_of (length s))) =?
   wrap64 (dot_exact s (powarr_of (length s)))) =
  is_prefix s (skipn i r).
Proof.
  intros Hs Hr H32 Hi.
  set (w := firstn (length s) (skipn i r)).
  assert (Hw : codes_row w) by (apply codes_row_firstn, codes_row_skipn, Hr).
  assert (Hlw : length w = length s).
  { unfold w. rewrite length_firstn, length_skipn. lia. }
  assert (B : 4 ^ Z.of_nat (length s) <= 2 ^ 64).
  { change (2 ^ 64) with (4 ^ 32). apply Z.pow_le_mono_r; lia. }
  pose proof (window_value_bound w Hw) as Bw.
  pose proof (window_value_bound s Hs) as Bs.
  rewrite Hlw in Bw.
  destruct (is_prefix s (skipn i r)) eqn:E.
  - apply is_prefix_spec in E. fold w in E. rewrite E. apply Z.eqb_refl.
  - apply Z.eqb_neq. intros Heq. apply wrap64_inj in Heq; [|lia|lia].
    rewrite <- Hlw in Heq at 1.
    apply window_value_inj in Heq; auto.
    assert (is_prefix s (skipn i r) = true) by (apply is_prefix_spec; exact Heq).
    congruence.
Qed.

Lemma passall_fold {A : Type} (test : Z -> A -> bool) (subvals : list Z)
  (seqs : list A) (g : A -> bool) :
  fold_left
    (fun passall subval => zip_with andb passall (map (test subval) seqs))
    subvals (map g seqs) =
  map (fun r => g r && forallb (fun sv => test sv r) subvals) seqs.
Proof.
  revert g. induction subvals as [|sv subvals IH]; intros g; cbn [fold_left forallb].
  - apply map_ext. intros r. now rewrite andb_true_r.
  - replace (zip_with andb (map g seqs) (map (test sv) seqs))
      with (map (fun r => g r && test sv r) seqs).
    + rewrite IH. apply map_ext. intros r. now rewrite andb_assoc.
    + clear IH. induction seqs as [|r seqs IHs]; simpl; [reflexivity|now f_equal].
Qed.

Lemma select_rows_map {A : Type} (h : A -> bool) (l : list A) :
  select_rows (map h l) l = filter h l.
Proof.
  induction l as [|a l IH]; simpl; [reflexivity|].
  rewrite IH. reflexivity.
Qed.

Lemma nodup_all_equal (n : nat) (l : list nat) :
  l <> [] -> Forall (fun x => x = n) l -> nodup Nat.eq_dec l = [n].
Proof.
  intros Hne H. induction H as [|x l -> Hl IH]; [contradiction|].
  cbn [nodup]. destruct l as [|y l'].
  - reflexivity.
  - destruct (in_dec Nat.eq_dec n (y :: l')) as [_|Hn].
    + apply IH. discriminate.
    + exfalso. apply Hn. inversion Hl; subst. now left.
Qed.

Lemma nodup_two_distinct (a b : nat) (l : list nat) :
  In a l -> In b l -> a <> b -> length (nodup Nat.eq_dec l) <> 1%nat.
Proof.
  intros Ha Hb Hab E.
  apply (nodup_In Nat.eq_dec) in Ha. apply (nodup_In Nat.eq_dec) in Hb.
  destruct (nodup Nat.eq_dec l) as [|x [|y l']]; try discriminate.
  destruct Ha as [<-|[]]. destruct Hb as [<-|[]]. now apply Hab.
Qed.

Lemma fold_left_ext {A B : Type} (f g : A -> B -> A) (l : list B) (a : A) :
  (forall x y, f x y = g x y) -> fold_left f l a = fold_left g l a.
Proof.
  intros H. revert a. induction l as [|b l IH]; intros a; simpl; [reflexivity|].
  now rewrite H, IH.
Qed.

Lemma map_const_repeat {A B : Type} (f : A -> B) (b : B) (l : list A) :
  (forall a, f a = b) -> map f l = repeat b (length l).
Proof.
  intros H. induction l as [|a l IH]; simpl; [reflexivity|]. now rewrite H, IH.
Qed.

Lemma list_ascii_length (s : string) :
  length (list_ascii_of_string s) = str_len s.
Proof. unfold str_len. induction s; simpl; auto. Qed.

Lemma subints_shape (subs : list string) (sublen : nat) (subints : list (list Z)) :
  Forall (fun s => str_len s = sublen) subs ->
  mapM (fun sub => mapM base2bits (list_ascii_of_string sub)) subs = Ok subints ->
  Forall (fun s => length s = sublen /\ codes_row s) subints.
Proof.
  intros Hl H. apply mapM_Forall2_inv in H.
  induction H as [|sub s subs subints Hs _ IH]; constructor.
  - apply mapM_base2bits_codes in Hs as [E Hc]. split; [|exact Hc].
    rewrite E, list_ascii_length. now inversion Hl.
  - apply IH. now inversion Hl.
Qed.

(** One forbidden substring against one sequence: no window of the sequence
    has the value of the substring exactly when the sequence does not
    contain it. *)
Lemma passsub_contains (n : nat) (s r : list Z) :
  codes_row s -> codes_row r -> length r = n ->
  (length s <= n)%nat -> (length s <= 32)%nat ->
  forallb (fun c => negb (c =? dot64 s (powarr_of (length s))))
    (map (fun t => dot64 t r)
       (map (fun i => repeat 0 i ++ powarr_of (length s) ++
                      repeat 0 (n - length s - i))
            (seq 0 (n - length s + 1)))) =
  negb (contains s r).
Proof.
  intros Hs Hr Hn Hle H32.
  rewrite !forallb_map, contains_offsets by lia.
  rewrite <- forallb_negb_existsb, Hn.
  apply forallb_ext_in. intros i Hi. apply in_seq in Hi.
  rewrite convolution_entry, dot64_exact. f_equal.
  apply window_test; auto; lia.
Qed.

(** C5 (amended).  On a DNASeqList whose counters agree with its array:
    forbidden substrings of different lengths make [filter_substring] raise
    ValueError; a non-empty list of forbidden substrings of one length, at
    most [seqlen] and at most 32 (the powers of 4 must fit [np.int]), makes it
    keep exactly the rows that contain none of them as a contiguous block. *)
Theorem filter_substring_naive (self : DNASeqList) :
  wf_DNASeqList self ->
  (forall subs s1 s2,
     In s1 subs -> In s2 subs -> str_len s1 <> str_len s2 ->
     filter_substring self subs = Raise ValueError) /\
  (forall subs sublen subints,
     subs <> [] -> Forall (fun s => str_len s = sublen) subs ->
     (sublen <= ncols (seqarr self))%nat -> (sublen <= 32)%nat ->
     mapM (fun sub => mapM base2bits (list_ascii_of_string sub)) subs = Ok subints ->
     filter_substring self subs =
     Ok (DNASeqList_of_seqarr
           (mk_ndarray2
              (filter (fun r => negb (existsb (fun s => contains s r) subints))
                      (rows (seqarr self)))
              (ncols (seqarr self))))).
Proof.
  intros [Hnum [Hlen [Hrect Hcodes]]]. split.
  - intros subs s1 s2 H1 H2 Hne. unfold filter_substring.
    replace (length (nodup Nat.eq_dec (map str_len subs)) =? 1)%nat with false;
      [reflexivity|].
    symmetry. apply Nat.eqb_neq.
    apply (nodup_two_distinct (str_len s1) (str_len s2)); auto using in_map.
  - intros subs sublen subints Hne Hall Hcol H32 Hsub.
    unfold filter_substring.
    rewrite (nodup_all_equal sublen).
    2:{ destruct subs; [contradiction|discriminate]. }
    2:{ apply Forall_map. exact Hall. }
    cbn [length Nat.eqb negb].
    replace (match subs with s0 :: _ => str_len s0 | [] => 0%nat end) with sublen.
    2:{ destruct subs as [|s0 subs']; [contradiction|]. now inversion Hall. }
    rewrite Hsub. cbn [bind].
    replace (forallb fits64 (powarr_of sublen)) with true.
    2:{ symmetry. apply forallb_forall. apply Forall_forall, powarr_fits, H32. }
    rewrite Hlen, create_toeplitz_band by assumption. cbn [bind].
    rewrite Z.eqb_refl, Hnum, Z.eqb_refl. cbn [negb]. rewrite Nat2Z.id.
    do 2 f_equal. f_equal.
    set (seqs := rows (seqarr self)) in *.
    set (toeplitz := map _ (seq 0 _)).
    rewrite <- (map_const_repeat (fun _ : list Z => true) true seqs) by reflexivity.
    erewrite fold_left_ext.
    2:{ intros passall subval. rewrite map_map. reflexivity. }
    rewrite (passall_fold
               (fun subval r => forallb (fun c => negb (c =? subval))
                                        (map (fun t => dot64 t r) toeplitz))).
    rewrite select_rows_map. apply filter_ext_in. intros r Hr.
    cbn [andb]. rewrite forallb_map, <- forallb_negb_existsb.
    apply forallb_ext_in. intros s Hs.
    pose proof (subints_shape subs sublen subints Hall Hsub) as Hshape.
    rewrite Forall_forall in Hshape. destruct (Hshape s Hs) as [Hsl Hsc].
    subst toeplitz. rewrite <- Hsl.
    apply passsub_contains; try lia.
    + exact Hsc.
    + unfold codes in Hcodes. rewrite Forall_forall in Hcodes. now apply Hcodes.
    + unfold rect in Hrect. rewrite Forall_forall in Hrect. now apply Hrect.
Qed.

Lemma filter_substring_naive_witness :
  let self :=
    DNASeqList_of_seqarr
      (mk_ndarray2 [[0; 1; 2; 3; 0]; [2; 2; 2; 2; 1]; [1; 1; 1; 1; 1]; [0; 2; 2; 0; 0]] 5) in
  filter_substring self ["GG"; "c"]%string = Raise ValueError /\
  filter_substring self ["GG"; "cc"]%string =
  Ok (DNASeqList_of_seqarr (mk_ndarray2 [[0; 1; 2; 3; 0]] 5)).
Proof.
  intros self.
  assert (Hwf : wf_DNASeqList self).
  { repeat split; repeat constructor; unfold is_code; lia. }
  destruct (filter_substring_naive self Hwf) as [H1 H2]. split.
  - apply (H1 _ "GG"%string "c"%string); simpl; auto; discriminate.
  - apply (H2 ["GG"; "cc"]%string 2%nat [[2; 2]; [1; 1]]).
    + discriminate.
    + repeat constructor.
    + simpl; lia.
    + lia.
    + reflexivity.
Defined.

(** The constructor on the source [seqarr] alone builds
    [DNASeqList_of_seqarr]. *)
Lemma init_seqarr_only
  (rng_choice : list Z -> nat -> nat -> list (list Z))
  (rng_shuffle : list (list Z) -> list (list Z))
  (fs : filesystem) (a : ndarray2) :
  DNASeqList_init rng_choice rng_shuffle fs
    {| arg_length := None; arg_num_random_seqs := None; arg_shuffle := false;
       arg_alphabet := bits2base; arg_seqs := None; arg_seqarr := Some a;
       arg_filename := None |}
  = Ok (DNASeqList_of_seqarr a).
Proof. reflexivity. Qed.

(** C5 as stated fails: a forbidden substring of 33 symbols, on sequences of
    33 symbols, needs the power 4^32, which does not fit [np.int]; the filter
    raises OverflowError instead of keeping the rows without the substring. *)
Lemma filter_substring_overflow :
  let self := DNASeqList_of_seqarr (mk_ndarray2 [repeat 1 33] 33) in
  let sub := "AAAAAAAAAAAAAAAAAAAAAAAAAAAAAAAAA"%string in
  wf_DNASeqList self /\
  (str_len sub <= ncols (seqarr self))%nat /\
  contains (repeat 0 33) (repeat 1 33) = false /\
  filter_substring self [sub] = Raise OverflowError.
Proof.
  intros self sub. split; [|split; [|split]].
  - repeat split; repeat constructor; unfold is_code; lia.
  - apply Nat.leb_le. vm_compute. reflexivity.
  - vm_compute. reflexivity.
  - vm_compute. reflexivity.
Qed.

(** ** Arrays, tables and [np.argmax] *)

Lemma argmax_from_spec (bi : nat) (b : Z) (i : nat) (l : list Z) :
  let r := argmax_from Z.ltb bi b i l in
  r = bi \/ ((i <= r < i + length l)%nat /\ b < nth (r - i) l 0).
Proof.
  revert bi b i. induction l as [|x l IH]; intros bi b i; cbn [argmax_from].
  - now left.
  - destruct (Z.ltb_spec b x) as [Hlt|Hge].
    + right. destruct (IH i x (S i)) as [E|[Hr Hx]].
      * rewrite E, Nat.sub_diag. cbn [length nth]. split; [lia|exact Hlt].
      * cbn [length]. split; [lia|].
        replace (argmax_from Z.ltb i x (S i) l - i)%nat
          with (S (argmax_from Z.ltb i x (S i) l - S i)) by lia.
        cbn [nth]. lia.
    + destruct (IH bi b (S i)) as [E|[Hr Hx]]; [now left|right].
      cbn [length]. split; [lia|].
      replace (argmax_from Z.ltb bi b (S i) l - i)%nat
        with (S (argmax_from Z.ltb bi b (S i) l - S i)) by lia.
      exact Hx.
Qed.

Lemma np_argmax_spec (l : list Z) :
  l <> [] ->
  exists r, np_argmax Z.ltb l = Ok r /\ (r < length l)%nat /\
            (r <> 0%nat -> nth 0 l 0 < nth r l 0).
Proof.
  destruct l as [|x l]; [contradiction|]. intros _.
  eexists. split; [reflexivity|].
  destruct (argmax_from_spec 0 x 1 l) as [E|[Hr Hx]].
  - rewrite E. simpl. split; [lia|]. contradiction.
  - cbn [length]. split; [lia|]. intros _.
    set (r := argmax_from Z.ltb 0 x 1 l) in *.
    replace r with (S (r - 1)) by lia. exact Hx.
Qed.

Lemma argmax_from_none {A : Type} (ltb : A -> A -> bool) (bi : nat) (b : A)
  (i : nat) (l : list A) :
  Forall (fun x => ltb b x = false) l -> argmax_from ltb bi b i l = bi.
Proof.
  intros H; revert i. induction H as [|x l Hx _ IH]; intros i; simpl; [reflexivity|].
  rewrite Hx. apply IH.
Qed.

Lemma lcs_next_length (m : list bool) (prev : list Z) :
  length (lcs_next m prev) = S (Nat.min (length m) (length prev)).
Proof. unfold lcs_next. cbn [length]. now rewrite zip_with_length. Qed.

Lemma lcs_table_rows (a1 a2 : list Z) (k : nat) :
  length (layer_at (lcs_step a1 a2) (repeat 0 (S (length a2))) k) = S (length a2).
Proof.
  induction k as [|k IH]; cbn [layer_at]; [apply repeat_length|].
  unfold lcs_step at 1. rewrite lcs_next_length, length_map, IH. lia.
Qed.

Lemma lcs_table_rect (a1 a2 : list Z) : rect (S (length a2)) (lcs_table a1 a2).
Proof.
  unfold rect, lcs_table. apply Forall_map, Forall_forall.
  intros k _. apply lcs_table_rows.
Qed.

Lemma lcs_table_length (a1 a2 : list Z) : length (lcs_table a1 a2) = S (length a1).
Proof. unfold lcs_table. now rewrite length_map, length_seq. Qed.

Lemma concat_rect_length {A : Type} (w : nat) (t : list (list A)) :
  rect w t -> length (concat t) = (length t * w)%nat.
Proof.
  induction 1 as [|r t Hr _ IH]; simpl; [reflexivity|].
  now rewrite length_app, IH, Hr.
Qed.

(** Row-major addressing of a rectangular 2D array. *)
Lemma nth_concat_rect {A : Type} (d : A) (w : nat) (t : list (list A)) (r : nat) :
  rect w t -> w <> 0%nat ->
  nth r (concat t) d = nth (r mod w) (nth (r / w) t []) d.
Proof.
  intros H Hw. revert r. induction H as [|x t Hx _ IH]; intros r.
  - cbn [concat]. destruct (r / w)%nat, (r mod w)%nat, r; reflexivity.
  - cbn [concat]. destruct (Nat.lt_ge_cases r w) as [Hlt|Hge].
    + rewrite app_nth1 by lia.
      rewrite Nat.div_small, Nat.mod_small by lia. reflexivity.
    + rewrite app_nth2 by lia. rewrite Hx, IH.
      replace r with ((r - w) + 1 * w)%nat at 3 4 by lia.
      rewrite Nat.div_add, Nat.Div0.mod_add by lia.
      replace ((r - w) / w + 1)%nat with (S ((r - w) / w)) by lia.
      reflexivity.
Qed.

Lemma first_max_spec (l : list Z) :
  l <> [] ->
  np_argmax Z.ltb l = Ok (first_max l) /\ (first_max l < length l)%nat /\
  (first_max l <> 0%nat -> nth 0 l 0 < nth (first_max l) l 0).
Proof.
  intros H. destruct (np_argmax_spec l H) as [r [E [Hr Hm]]].
  destruct l as [|x l]; [contradiction|].
  cbn [np_argmax] in E. injection E as <-. cbn [first_max np_argmax].
  repeat split; auto.
Qed.

Lemma lcs_flat_nonempty (a1 a2 : list Z) : concat (lcs_table a1 a2) <> [].
Proof.
  intros E. apply (f_equal (@length Z)) in E.
  rewrite (concat_rect_length (S (length a2))) in E by apply lcs_table_rect.
  rewrite lcs_table_length in E. simpl in E. lia.
Qed.

(** The first row of the table is the empty window: it holds zeros. *)
Lemma lcs_flat_first_row (a1 a2 : list Z) (r : nat) :
  (r < S (length a2))%nat -> nth r (concat (lcs_table a1 a2)) 0 = 0.
Proof.
  intros H. unfold lcs_table. cbn [seq map layer_at concat].
  rewrite app_nth1 by (rewrite repeat_length; lia).
  apply nth_repeat.
Qed.

Lemma nth_zip_with {A B C : Type} (f : A -> B -> C) (l1 : list A) (l2 : list B)
  (p : nat) (da : A) (db : B) (dc : C) :
  (p < length l1)%nat -> (p < length l2)%nat ->
  nth p (zip_with f l1 l2) dc = f (nth p l1 da) (nth p l2 db).
Proof.
  revert l2 p. induction l1 as [|a l1 IH]; intros [|b l2] [|p] H1 H2;
    simpl in *; try lia; [reflexivity|]. apply IH; lia.
Qed.

Lemma map_nth_seq {A B : Type} (g : A -> B) (l : list A) (d : A) :
  map (fun p => g (nth p l d)) (seq 0 (length l)) = map g l.
Proof.
  induction l as [|a l IH]; [reflexivity|].
  cbn [length seq map nth]. f_equal.
  rewrite <- seq_shift, map_map. exact IH.
Qed.



Lemma set_nth_length {A : Type} (i : nat) (v : A) (l : list A) :
  length (set_nth i v l) = length l.
Proof.
  revert i. induction l as [|a l IH]; intros [|i]; simpl; auto.
Qed.

Lemma set_nth_Forall {A : Type} (P : A -> Prop) (i : nat) (v : A) (l : list A) :
  P v -> Forall P l -> Forall P (set_nth i v l).
Proof.
  intros Hv H. revert i. induction H as [|a l Ha Hl IH]; intros [|i]; simpl;
    try constructor; auto.
Qed.

Lemma zip_with_repeat_same {A B C : Type} (f : A -> B -> C) (a : A) (b : B) (n : nat) :
  zip_with f (repeat a n) (repeat b n) = repeat (f a b) n.
Proof. apply zip_with_repeat. Qed.

Lemma seqs2arr_shape (seqs : list string) (m : list (list Z)) :
  seqs2arr seqs = Ok m ->
  length m = length seqs /\ rect (shape1 m) m /\ codes m.
Proof.
  unfold seqs2arr. destruct seqs as [|s0 seqs'] eqn:Es.
  - intros [= <-]. repeat split; constructor.
  - rewrite <- Es. destruct (forallb _ seqs) eqn:Hf; [|discriminate].
    intros H. apply mapM_Forall2_inv in H.
    rewrite forallb_forall in Hf.
    assert (Hrows : Forall (fun r => length r = str_len s0 /\ codes_row r) m).
    { clear Es. induction H as [|s r seqs m Hs _ IH]; constructor.
      - unfold seq2arr in Hs. apply mapM_base2bits_codes in Hs as [El Hc].
        split; [|exact Hc]. rewrite El, list_ascii_length.
        apply Nat.eqb_eq, Hf. now left.
      - apply IH. intros x Hx. apply Hf. now right. }
    split; [symmetry; eapply Forall2_length; eauto|]. split.
    + destruct m as [|r m']; [constructor|]. cbn [shape1].
      inversion Hrows as [|? ? [Hr0 _] _]; subst. unfold rect.
      eapply Forall_impl; [|exact Hrows]. intros r' [Hr' _]. congruence.
    + unfold codes. eapply Forall_impl; [|exact Hrows]. now intros r' [_ Hr'].
Qed.
(** ** A mask that has not the shape of the axis it indexes *)

Lemma fold_raise {A B : Type} (f : A -> B -> result A) (l : list B) (e : exn) :
  fold_left (fun acc i => x <- acc ;; f x i) l (Raise e) = Raise e.
Proof. induction l as [|b l IH]; [reflexivity|exact IH]. Qed.

Lemma dp_loop_first_raises {L : Type} (step : nat -> L -> L -> result L) (n : nat)
  (counter : list L) (prev next : L) (e : exn) :
  nth_error counter 0 = Some prev -> nth_error counter 1 = Some next ->
  step 0%nat prev next = Raise e ->
  dp_loop step (S n) counter = Raise e.
Proof.
  intros H0 H1 Hs. unfold dp_loop. cbn [seq fold_left bind]. unfold get_layer.
  rewrite H0, H1. cbn [bind]. rewrite Hs. cbn [bind].
  apply (fold_raise
           (fun counter i1 =>
              prev <- match nth_error counter i1 with
                      | Some l => Ok l | None => Raise IndexError end ;;
              next <- match nth_error counter (S i1) with
                      | Some l => Ok l | None => Raise IndexError end ;;
              next' <- step i1 prev next ;;
              Ok (set_nth (S i1) next' counter))).
Qed.

Lemma take_mask_mismatch {A : Type} (mask : list bool) (arr : list A) :
  length mask <> length arr -> take_mask mask arr = Raise IndexError.
Proof.
  intros H. unfold take_mask.
  now replace (Nat.eqb (length mask) (length arr)) with false
    by (symmetry; now apply Nat.eqb_neq).
Qed.

Lemma take_mask2_mismatch {A : Type} (m : list bool) (mask : list (list bool))
  (a : list A) (arr : list (list A)) :
  length m <> length a -> take_mask2 (m :: mask) (a :: arr) = Raise IndexError.
Proof.
  intros H. unfold take_mask2, same_shape2. cbn [combine forallb fst snd].
  replace (Nat.eqb (length m) (length a)) with false
    by (symmetry; now apply Nat.eqb_neq).
  cbn [andb]. now rewrite andb_false_r.
Qed.

(** ** The single-pair matcher, vectorized *)

Lemma argmax_zeros (n : nat) : np_argmax Z.ltb (repeat 0 (S n)) = Ok 0%nat.
Proof.
  cbn [repeat np_argmax]. f_equal. apply argmax_from_none.
  apply Forall_forall. intros x Hx. apply repeat_spec in Hx. now subst.
Qed.

Lemma vectorized_empty (a2 : list Z) :
  longest_common_substring [] a2 true = Ok (-1, -1, 0).
Proof.
  unfold longest_common_substring, dp_loop.
  cbn [length seq fold_left bind repeat concat]. rewrite app_nil_r.
  change (0 :: repeat 0 (length a2)) with (repeat 0 (S (length a2))).
  rewrite argmax_zeros. reflexivity.
Qed.

Lemma vectorized_raises (a1 a2 : list Z) :
  a1 <> [] -> longest_common_substring a1 a2 true = Raise IndexError.
Proof.
  intros Ha1. destruct a1 as [|x a1]; [contradiction|].
  unfold longest_common_substring. cbn [length].
  erewrite dp_loop_first_raises; [reflexivity | reflexivity | reflexivity |].
  rewrite take_mask_mismatch; [reflexivity|].
  rewrite length_map, repeat_length. clear. lia.
Qed.

(** ** The paired matcher *)

Lemma rect_cons_shape1 {A : Type} (w : nat) (r : list A) (x : list (list A)) :
  rect w (r :: x) -> shape1 (r :: x) = w.
Proof. intros H. inversion H; subst. reflexivity. Qed.

Lemma pairs_raises (a1s a2s : list (list Z)) (len1 len2 : nat) :
  length a1s = length a2s -> a1s <> [] ->
  rect len1 a1s -> rect len2 a2s -> (1 <= len1)%nat ->
  _longest_common_substrings_pairs a1s a2s = Raise IndexError.
Proof.
  intros Hlen Hne H1 H2 Hl1.
  destruct a1s as [|r1 a1s]; [contradiction|].
  destruct a2s as [|r2 a2s]; [discriminate|].
  unfold _longest_common_substrings_pairs.
  rewrite Hlen, Nat.eqb_refl. cbn [negb].
  rewrite (rect_cons_shape1 _ _ _ H1), (rect_cons_shape1 _ _ _ H2).
  destruct len1 as [|len1]; [lia|].
  erewrite dp_loop_first_raises; [reflexivity | reflexivity | reflexivity |].
  unfold match_mask. cbn [length map repeat zip_with].
  rewrite take_mask2_mismatch; [reflexivity|].
  cbn [length]. rewrite zip_with_length, !repeat_length. lia.
Qed.

Lemma swapaxes_single {A : Type} (layer : list (list A)) :
  map (@concat A) (swapaxes01 [layer] (length layer)) = layer.
Proof.
  unfold swapaxes01. rewrite map_map. cbn [map concat].
  rewrite (map_nth_seq (fun r : list A => r ++ []) layer []).
  rewrite <- (map_id layer) at 2. apply map_ext. intros r. apply app_nil_r.
Qed.

Lemma mapM_repeat {A B : Type} (f : A -> result B) (a : A) (b : B) (n : nat) :
  f a = Ok b -> mapM f (repeat a n) = Ok (repeat b n).
Proof.
  intros H. induction n as [|n IH]; [reflexivity|].
  cbn [repeat mapM]. now rewrite H, IH.
Qed.

Lemma pick_zeros {A : Type} (z : A) (w N : nat) :
  pick z (repeat (repeat z (S w)) N) (repeat 0%nat N) = repeat z N.
Proof. unfold pick. now rewrite zip_with_repeat_same. Qed.

Lemma unravel_zero (n : nat) : unravel_index 0 (S n) = (0%nat, 0%nat).
Proof.
  unfold unravel_index. now rewrite Nat.Div0.div_0_l, Nat.Div0.mod_0_l.
Qed.

Lemma swapaxes_untouched {A : Type} (row : list A) (N : nat) :
  map (@concat A) (swapaxes01 [repeat row N] N) = repeat row N.
Proof.
  rewrite <- (repeat_length row N) at 2. apply swapaxes_single.
Qed.

Lemma pairs_without_symbols (a1s a2s : list (list Z)) :
  length a1s = length a2s -> shape1 a1s = 0%nat ->
  _longest_common_substrings_pairs a1s a2s =
  Ok (repeat 0 (length a1s), repeat 0 (length a1s), repeat 0 (length a1s)).
Proof.
  intros Hlen Hs. unfold _longest_common_substrings_pairs.
  rewrite Hlen, Nat.eqb_refl, Hs. cbn [negb]. rewrite <- Hlen.
  unfold dp_loop. cbn [seq fold_left bind].
  change (repeat (repeat (repeat 0 (S (shape1 a2s))) (length a1s)) 1)
    with [repeat (repeat 0 (S (shape1 a2s))) (length a1s)].
  rewrite swapaxes_untouched.
  rewrite (mapM_repeat _ _ 0%nat) by apply argmax_zeros.
  cbn [bind]. rewrite pick_zeros, map_repeat.
  rewrite !zip_with_repeat_same, unravel_zero. reflexivity.
Qed.

(** ** The cross product *)



Lemma rect_0_shape1 {A : Type} (x : list (list A)) : rect 0 x -> shape1 x = 0%nat.
Proof. intros H. destruct x as [|r x]; [reflexivity|]. now inversion H. Qed.








(** ** The energy-weighted matcher *)

Lemma strongest_loop_raises (a1s a2s : list (list Z)) (len1 len2 : nat)
  (t : spec_float) :
  length a1s = length a2s -> a1s <> [] ->
  rect len1 a1s -> rect len2 a2s -> (1 <= len1)%nat ->
  _strongest_common_substrings_all_pairs_return_energies_and_counter a1s a2s t
  = Raise IndexError.
Proof.
  intros Hlen Hne H1 H2 Hl1.
  destruct a1s as [|r1 a1s]; [contradiction|].
  destruct a2s as [|r2 a2s]; [discriminate|].
  unfold _strongest_common_substrings_all_pairs_return_energies_and_counter.
  rewrite Hlen, Nat.eqb_refl. cbn [negb].
  rewrite (rect_cons_shape1 _ _ _ H1), (rect_cons_shape1 _ _ _ H2).
  destruct len1 as [|len1]; [lia|].
  cbn [seq fold_left bind].
  match goal with
  | |- context [strongest_iteration ?a ?b ?n ?e ?st 0%nat] =>
      replace (strongest_iteration a b n e st 0%nat) with (@Raise strongest_state IndexError)
  end.
  - cbn [bind].
    rewrite (fold_raise
               (fun st i1 =>
                  strongest_iteration (r1 :: a1s) (r2 :: a2s) len2
                    (calculate_loop_energies t false) st i1)).
    reflexivity.
  - unfold strongest_iteration, get_layer.
    cbn [ss_counter repeat nth_error bind].
    unfold match_mask. cbn [length map repeat zip_with].
    rewrite take_mask2_mismatch; [reflexivity|].
    cbn [length]. rewrite zip_with_length, !repeat_length. lia.
Qed.

Lemma argmax_float_zeros (n : nat) : np_argmax float_gtb (repeat fzero (S n)) = Ok 0%nat.
Proof.
  cbn [repeat np_argmax]. f_equal. apply argmax_from_none.
  apply Forall_forall. intros x Hx. apply repeat_spec in Hx. now subst.
Qed.

Lemma strongest_without_symbols (a1s a2s : list (list Z)) (t : spec_float) :
  length a1s = length a2s -> shape1 a1s = 0%nat ->
  _strongest_common_substrings_all_pairs a1s a2s t =
  Ok (repeat 0 (length a1s), repeat 0 (length a1s), repeat 0 (length a1s),
      repeat fzero (length a1s)).
Proof.
  intros Hlen Hs.
  unfold _strongest_common_substrings_all_pairs,
    _strongest_common_substrings_all_pairs_return_energies_and_counter.
  rewrite Hlen, Nat.eqb_refl, Hs. cbn [negb]. rewrite <- Hlen.
  cbn [seq fold_left bind ss_counter ss_energies fst snd].
  change (repeat (repeat (repeat 0 (S (shape1 a2s))) (length a1s)) 1)
    with [repeat (repeat 0 (S (shape1 a2s))) (length a1s)].
  change (repeat (repeat (repeat fzero (S (shape1 a2s))) (length a1s)) 1)
    with [repeat (repeat fzero (S (shape1 a2s))) (length a1s)].
  rewrite !swapaxes_untouched.
  rewrite (mapM_repeat _ _ 0%nat) by apply argmax_float_zeros.
  cbn [bind]. rewrite !pick_zeros, map_repeat.
  rewrite !zip_with_repeat_same, unravel_zero. reflexivity.
Qed.

(** C9. The energy-weighted matcher, at every temperature.  On sequences
    without symbols it returns, and reports [(0, 0, 0, 0.0)] for every pair;
    whenever it returns, this is what it reports.  On at least one pair of
    sequences with symbols on both sides it does not return: the first
    iteration indexes a slice of the counter with a mask that is one
    shorter than the slice, which numpy refuses with [IndexError].  The
    string wrapper returns what the matcher returns on the encoded first
    list and the complements of the encoded second list. *)
Theorem strongest_reports_empty_window (a1s a2s : list (list Z))
  (len1 len2 : nat) (t : spec_float) :
  length a1s = length a2s -> rect len1 a1s -> rect len2 a2s ->
  let zeros := (repeat 0 (length a1s), repeat 0 (length a1s),
                repeat 0 (length a1s), repeat fzero (length a1s)) in
  (len1 = 0%nat ->
   _strongest_common_substrings_all_pairs a1s a2s t = Ok zeros) /\
  (forall res,
     _strongest_common_substrings_all_pairs a1s a2s t = Ok res -> res = zeros) /\
  (a1s <> [] -> (1 <= len1)%nat -> (1 <= len2)%nat ->
   _strongest_common_substrings_all_pairs a1s a2s t = Raise IndexError) /\
  (forall seqs1 seqs2 b2,
     seqs2arr seqs1 = Ok a1s -> seqs2arr seqs2 = Ok b2 -> wc_arr b2 = a2s ->
     strongest_common_substrings_all_pairs_string seqs1 seqs2 t =
     _strongest_common_substrings_all_pairs a1s a2s t).
Proof.
  intros Hlen H1 H2 zeros.
  assert (P1 : shape1 a1s = 0%nat ->
               _strongest_common_substrings_all_pairs a1s a2s t = Ok zeros)
    by (intros Hs; now apply strongest_without_symbols).
  assert (P3 : a1s <> [] -> (1 <= len1)%nat ->
               _strongest_common_substrings_all_pairs a1s a2s t = Raise IndexError).
  { intros Hne Hl. unfold _strongest_common_substrings_all_pairs.
    now rewrite (strongest_loop_raises a1s a2s len1 len2 t). }
  split; [|split; [|split]].
  - intros ->. apply P1. now apply rect_0_shape1.
  - intros res Hres. destruct a1s as [|r1 a1s'] eqn:E.
    + rewrite P1 in Hres by reflexivity. now injection Hres as <-.
    + destruct len1 as [|len1].
      * rewrite P1 in Hres by (now apply rect_0_shape1). now injection Hres as <-.
      * rewrite P3 in Hres by (discriminate || lia). discriminate.
  - intros Hne Hl1 _. now apply P3.
  - intros seqs1 seqs2 b2 E1 E2 <-.
    unfold strongest_common_substrings_all_pairs_string.
    now rewrite E1, E2.
Qed.

Lemma strongest_reports_empty_window_witness :
  _strongest_common_substrings_all_pairs [[]; []] [[1]; [2]] (float_of_int 37)
    = Ok ([0; 0], [0; 0], [0; 0], [fzero; fzero]) /\
  _strongest_common_substrings_all_pairs [[0; 1]] [[1; 2]] (float_of_int 37)
    = Raise IndexError.
Proof.
  split.
  - apply (strongest_reports_empty_window [[]; []] [[1]; [2]] 0 1 (float_of_int 37));
      try reflexivity; repeat constructor.
  - apply (strongest_reports_empty_window [[0; 1]] [[1; 2]] 2 2 (float_of_int 37));
      try reflexivity; try lia; try discriminate; repeat constructor.
Defined.

(** No quadruple is reported for A against T at 37.0 degrees: the wrapper
    raises.  And the entries of the table are not all negative below 83
    degrees: at 70.0 degrees the entry of TA is positive. *)
Lemma strongest_raises_on_a_pair :
  strongest_common_substrings_all_pairs_string ["A"%string] ["T"%string]
    (float_of_int 37) = Raise IndexError /\
  SFltb fzero (nth 12 (fdata (calculate_loop_energies (float_of_int 70) false)) fzero)
    = true.
Proof. split; vm_compute; reflexivity. Qed.

(* ================================================================== *)
(** * Part III : properties of the rest of the module                 *)
(* ================================================================== *)

(** ** Masks built column by column *)

Lemma and_arr_map {A : Type} (f g : A -> bool) (l : list A) :
  and_arr (map f l) (map g l) = map (fun a => f a && g a) l.
Proof.
  unfold and_arr. induction l as [|a l IH]; [reflexivity|].
  cbn [map zip_with]. now rewrite IH.
Qed.

Lemma or_arr_map {A : Type} (f g : A -> bool) (l : list A) :
  or_arr (map f l) (map g l) = map (fun a => f a || g a) l.
Proof.
  unfold or_arr. induction l as [|a l IH]; [reflexivity|].
  cbn [map zip_with]. now rewrite IH.
Qed.

Lemma eq_arr_map {A : Type} (f : A -> Z) (l : list A) (bits : Z) :
  eq_arr (map f l) bits = map (fun a => f a =? bits) l.
Proof. unfold eq_arr. now rewrite map_map. Qed.

Lemma keep_rows_map (self : DNASeqList) (h : row -> bool) :
  rows (seqarr (keep_rows self (map h (rows (seqarr self))))) =
  filter h (rows (seqarr self)).
Proof. unfold keep_rows. cbn [DNASeqList_of_seqarr seqarr rows]. apply select_rows_map. Qed.

Lemma count_true_zero (m : list bool) :
  (Z.of_nat (count_true m) <=? 0) = forallb negb m.
Proof.
  unfold count_true. induction m as [|b m IH]; [reflexivity|].
  destruct b; cbn [filter forallb negb andb length].
  - apply Z.leb_gt. lia.
  - exact IH.
Qed.

(** ** The base filters *)

(** Counting a base between 0 and 0 is the same filter as excluding the base:
    the two methods return the same list, or raise the same error. *)
Theorem filter_base_count_none (self : DNASeqList) (base : string) :
  filter_base_count self base 0 0 = filter_base_nowhere self base.
Proof.
  unfold filter_base_count, filter_base_nowhere.
  destruct (base2bits_key base) as [bits|e]; [|reflexivity]. cbn [bind].
  do 2 f_equal.
  rewrite !map_map, and_arr_map. apply map_ext. intros r.
  replace (0 <=? Z.of_nat (count_true (eq_arr r bits))) with true
    by (symmetry; apply Z.leb_le; lia).
  cbn [andb]. rewrite count_true_zero. unfold eq_arr. now rewrite forallb_map.
Qed.

Lemma column_in_range (a : ndarray2) (pos : Z) (j : nat) :
  (j < ncols a)%nat ->
  pos = Z.of_nat j \/ pos = Z.of_nat j - Z.of_nat (ncols a) ->
  column a pos = Ok (map (fun r => nth j r 0) (rows a)).
Proof.
  intros Hj Hp. unfold column.
  assert (E : (if pos <? 0 then pos + Z.of_nat (ncols a) else pos) = Z.of_nat j).
  { destruct Hp as [-> | ->].
    - replace (Z.of_nat j <? 0) with false by (symmetry; apply Z.ltb_ge; lia).
      reflexivity.
    - replace (Z.of_nat j - Z.of_nat (ncols a) <? 0) with true
        by (symmetry; apply Z.ltb_lt; lia).
      lia. }
  rewrite E.
  replace ((Z.of_nat j <? 0) || (Z.of_nat (ncols a) <=? Z.of_nat j)) with false
    by (symmetry; apply orb_false_iff; split; [apply Z.ltb_ge | apply Z.leb_gt]; lia).
  now rewrite Nat2Z.id.
Qed.

Lemma column_out_of_range (a : ndarray2) (pos : Z) :
  pos < - Z.of_nat (ncols a) \/ Z.of_nat (ncols a) <= pos ->
  column a pos = Raise IndexError.
Proof.
  intros Hp. unfold column.
  destruct (pos <? 0) eqn:E.
  - apply Z.ltb_lt in E.
    replace ((pos + Z.of_nat (ncols a) <? 0)
             || (Z.of_nat (ncols a) <=? pos + Z.of_nat (ncols a))) with true;
      [reflexivity|].
    symmetry. apply orb_true_iff. left. apply Z.ltb_lt. lia.
  - apply Z.ltb_ge in E.
    replace ((pos <? 0) || (Z.of_nat (ncols a) <=? pos)) with true; [reflexivity|].
    symmetry. apply orb_true_iff. right. apply Z.leb_le. lia.
Qed.

(** [filter_base_at_pos]: a position outside [-seqlen, seqlen) raises
    IndexError whatever the base is; a negative position in range selects the
    same sequences as the position counted from the start; and for a position
    in range and a valid base the sequences kept are those with the base at
    that position, in their order. *)
Theorem filter_base_at_pos_index (self : DNASeqList) (pos : Z) (base : string) :
  let n := Z.of_nat (ncols (seqarr self)) in
  (pos < - n \/ n <= pos -> filter_base_at_pos self pos base = Raise IndexError) /\
  (- n <= pos < 0 ->
   filter_base_at_pos self pos base = filter_base_at_pos self (pos + n) base) /\
  (0 <= pos < n ->
   forall bits, base2bits_key base = Ok bits ->
   exists res,
     filter_base_at_pos self pos base = Ok res /\
     rows (seqarr res) =
       filter (fun r => nth (Z.to_nat pos) r 0 =? bits) (rows (seqarr self))).
Proof.
  intros n. unfold filter_base_at_pos. repeat split.
  - intros H. now rewrite column_out_of_range.
  - intros H.
    rewrite (column_in_range _ pos (Z.to_nat (pos + n))) by (subst n; lia).
    rewrite (column_in_range _ (pos + n) (Z.to_nat (pos + n))) by (subst n; lia).
    reflexivity.
  - intros H bits Hb.
    rewrite (column_in_range _ pos (Z.to_nat pos)) by (subst n; lia).
    cbn [bind]. rewrite Hb. cbn [bind]. eexists. split; [reflexivity|].
    rewrite eq_arr_map. apply keep_rows_map.
Qed.

Lemma filter_base_at_pos_index_witness :
  let self := DNASeqList_of_seqarr (mk_ndarray2 [[0; 1; 2]; [3; 1; 0]; [2; 2; 2]] 3) in
  filter_base_at_pos self (-1) "G" = filter_base_at_pos self (-1 + 3) "G" /\
  filter_base_at_pos self 3 "G" = Raise IndexError.
Proof.
  intros self.
  destruct (filter_base_at_pos_index self (-1) "G") as [_ [H _]].
  destruct (filter_base_at_pos_index self 3 "G") as [H3 _].
  split; [apply H | apply H3]; cbn; lia.
Defined.

(** ** The end filters *)

Lemma strong_not_weak (x : Z) : is_strong x = true -> is_weak x = false.
Proof.
  unfold is_strong, is_weak. intros H.
  apply orb_true_iff in H as [H|H]; apply Z.eqb_eq in H; subst; reflexivity.
Qed.

Lemma filter_end_gc_rows (self : DNASeqList) :
  (3 <= ncols (seqarr self))%nat ->
  exists res,
    filter_end_gc self = Ok res /\
    res = keep_rows self (map (end_gc_ok (ncols (seqarr self))) (rows (seqarr self))).
Proof.
  intros Hn. unfold filter_end_gc.
  set (n := ncols (seqarr self)) in *.
  rewrite (column_in_range _ 0 0) by (fold n; lia).
  rewrite (column_in_range _ (-1) (n - 1)) by (fold n; lia).
  rewrite (column_in_range _ 1 1) by (fold n; lia).
  rewrite (column_in_range _ 2 2) by (fold n; lia).
  rewrite (column_in_range _ (-2) (n - 2)) by (fold n; lia).
  rewrite (column_in_range _ (-3) (n - 3)) by (fold n; lia).
  cbn [bind base2bits].
  eexists. split; [reflexivity|]. f_equal.
  rewrite !eq_arr_map, !or_arr_map, !and_arr_map.
  apply map_ext. intros r. unfold end_gc_ok, is_strong, is_weak.
  now rewrite !orb_assoc.
Qed.

Lemma filter_end_at_rows (self : DNASeqList) (gc_near_end : bool) :
  (3 <= ncols (seqarr self))%nat \/
  (gc_near_end = false /\ 1 <= ncols (seqarr self))%nat ->
  exists res,
    filter_end_at self gc_near_end = Ok res /\
    res = keep_rows self
            (map (end_at_ok (ncols (seqarr self)) gc_near_end) (rows (seqarr self))).
Proof.
  intros Hn. unfold filter_end_at.
  set (n := ncols (seqarr self)) in *.
  rewrite (column_in_range _ 0 0) by (fold n; lia).
  rewrite (column_in_range _ (-1) (n - 1)) by (fold n; lia).
  cbn [bind base2bits].
  destruct gc_near_end.
  - rewrite (column_in_range _ 1 1) by (fold n; lia).
    rewrite (column_in_range _ 2 2) by (fold n; lia).
    rewrite (column_in_range _ (-2) (n - 2)) by (fold n; lia).
    rewrite (column_in_range _ (-3) (n - 3)) by (fold n; lia).
    cbn [bind].
    eexists. split; [reflexivity|]. f_equal.
    rewrite !eq_arr_map, !or_arr_map, !and_arr_map.
    apply map_ext. intros r. unfold end_at_ok, is_strong, is_weak.
    cbn [negb orb]. now rewrite !orb_assoc, !andb_assoc.
  - cbn [bind].
    eexists. split; [reflexivity|]. f_equal.
    rewrite !eq_arr_map, !or_arr_map, !and_arr_map.
    apply map_ext. intros r. unfold end_at_ok, is_strong, is_weak.
    cbn [negb orb]. now rewrite andb_true_r.
Qed.

Lemma filter_end_gc_short (self : DNASeqList) :
  (ncols (seqarr self) < 3)%nat -> filter_end_gc self = Raise IndexError.
Proof.
  intros Hn. unfold filter_end_gc.
  assert (Hc : ncols (seqarr self) = 0%nat \/ ncols (seqarr self) = 1%nat \/
               ncols (seqarr self) = 2%nat) by lia.
  destruct Hc as [E|[E|E]].
  - now rewrite (column_out_of_range _ 0) by lia.
  - rewrite (column_in_range _ 0 0) by lia.
    rewrite (column_in_range _ (-1) 0) by lia.
    now rewrite (column_out_of_range _ 1) by lia.
  - rewrite (column_in_range _ 0 0) by lia.
    rewrite (column_in_range _ (-1) 1) by lia.
    rewrite (column_in_range _ 1 1) by lia.
    now rewrite (column_out_of_range _ 2) by lia.
Qed.

(** [filter_end_gc] needs sequences of at least 3 symbols: on shorter ones it
    raises IndexError, even when the list is empty.  Otherwise it keeps, in
    order, exactly the sequences with C or G at both ends and an A or T among
    the two symbols next to each end; so no sequence it keeps starts or ends
    with three symbols from C, G. *)
Theorem filter_end_gc_spec (self : DNASeqList) :
  let n := ncols (seqarr self) in
  ((n < 3)%nat -> filter_end_gc self = Raise IndexError) /\
  ((3 <= n)%nat ->
   exists res,
     filter_end_gc self = Ok res /\
     rows (seqarr res) = filter (end_gc_ok n) (rows (seqarr self)) /\
     numseqs res = Z.of_nat (length (rows (seqarr res))) /\
     seqlen res = Z.of_nat n /\
     Forall (fun r =>
               ~ (is_strong (nth 0 r 0) && is_strong (nth 1 r 0)
                  && is_strong (nth 2 r 0) = true) /\
               ~ (is_strong (nth (n - 1) r 0) && is_strong (nth (n - 2) r 0)
                  && is_strong (nth (n - 3) r 0) = true))
            (rows (seqarr res))).
Proof.
  intros n. split.
  - intros Hn. now apply filter_end_gc_short.
  - intros Hn. destruct (filter_end_gc_rows self Hn) as [res [E ->]].
    eexists. split; [exact E|]. fold n. unfold keep_rows.
    cbn [DNASeqList_of_seqarr seqarr rows ncols numseqs seqlen].
    rewrite select_rows_map.
    split; [reflexivity|]. split; [reflexivity|]. split; [reflexivity|].
    apply Forall_forall. intros r Hr. apply filter_In in Hr as [_ Hr].
    unfold end_gc_ok in Hr.
    apply andb_true_iff in Hr as [Hr H4].
    apply andb_true_iff in Hr as [Hr H3].
    split; intros H;
      apply andb_true_iff in H as [H Hd];
      apply andb_true_iff in H as [_ Hc];
      [rewrite (strong_not_weak _ Hc), (strong_not_weak _ Hd) in H3
      |rewrite (strong_not_weak _ Hc), (strong_not_weak _ Hd) in H4];
      discriminate.
Qed.

Lemma filter_end_gc_spec_witness :
  let self :=
    DNASeqList_of_seqarr
      (mk_ndarray2 [[1; 0; 3; 2]; [1; 2; 2; 2]; [0; 1; 2; 3]; [2; 1; 0; 1]] 4) in
  exists res,
    filter_end_gc self = Ok res /\
    rows (seqarr res) = [[1; 0; 3; 2]; [2; 1; 0; 1]] /\
    filter_end_gc (DNASeqList_of_seqarr (mk_ndarray2 [] 2)) = Raise IndexError.
Proof.
  intros self.
  destruct (filter_end_gc_spec self) as [_ H].
  destruct H as [res [E [R _]]]; [cbn; lia|].
  exists res. split; [exact E|]. split; [exact R|].
  destruct (filter_end_gc_spec (DNASeqList_of_seqarr (mk_ndarray2 [] 2))) as [H _].
  apply H. cbn. lia.
Defined.

(** [filter_end_at] without [gc_near_end] only reads the two ends: it raises
    IndexError on sequences of length 0 and works from length 1 on.  With
    [gc_near_end] it reads the three symbols at each end and raises IndexError
    below length 3.  Otherwise it keeps, in order, exactly the sequences with
    A or T at both ends and, with [gc_near_end], a C or G among the two
    symbols next to each end. *)
Theorem filter_end_at_spec (self : DNASeqList) (gc_near_end : bool) :
  let n := ncols (seqarr self) in
  (n = 0%nat \/ (gc_near_end = true /\ (n < 3)%nat) ->
   filter_end_at self gc_near_end = Raise IndexError) /\
  ((3 <= n)%nat \/ (gc_near_end = false /\ (1 <= n)%nat) ->
   exists res,
     filter_end_at self gc_near_end = Ok res /\
     rows (seqarr res) = filter (end_at_ok n gc_near_end) (rows (seqarr self)) /\
     numseqs res = Z.of_nat (length (rows (seqarr res))) /\
     seqlen res = Z.of_nat n).
Proof.
  intros n. split.
  - intros Hn. unfold filter_end_at. subst n.
    assert (Hc : ncols (seqarr self) = 0%nat \/
                 (gc_near_end = true /\
                  (ncols (seqarr self) = 1%nat \/ ncols (seqarr self) = 2%nat))).
    { destruct Hn as [E|[G E]]; [now left|].
      destruct (ncols (seqarr self)) as [|[|[|k]]]; [now left | | |lia];
        right; split; auto. }
    destruct Hc as [E|[-> [E|E]]].
    + now rewrite (column_out_of_range _ 0) by lia.
    + rewrite (column_in_range _ 0 0) by lia.
      rewrite (column_in_range _ (-1) 0) by lia.
      cbn [bind base2bits].
      now rewrite (column_out_of_range _ 1) by lia.
    + rewrite (column_in_range _ 0 0) by lia.
      rewrite (column_in_range _ (-1) 1) by lia.
      cbn [bind base2bits].
      rewrite (column_in_range _ 1 1) by lia.
      now rewrite (column_out_of_range _ 2) by lia.
  - intros Hn. destruct (filter_end_at_rows self gc_near_end) as [res [E ->]].
    { subst n. destruct Hn as [H|[G H]]; [now left | right; now split]. }
    eexists. split; [exact E|]. fold n. unfold keep_rows.
    cbn [DNASeqList_of_seqarr seqarr rows ncols numseqs seqlen].
    rewrite select_rows_map. repeat split.
Qed.

Lemma filter_end_at_spec_witness :
  let self := DNASeqList_of_seqarr (mk_ndarray2 [[0; 3]; [1; 3]; [3; 0]] 2) in
  (exists res,
     filter_end_at self false = Ok res /\
     rows (seqarr res) = [[0; 3]; [3; 0]]) /\
  filter_end_at self true = Raise IndexError.
Proof.
  intros self. split.
  - destruct (filter_end_at_spec self false) as [_ H].
    destruct H as [res [E [R _]]]; [right; cbn; split; [reflexivity | lia]|].
    exists res. split; [exact E | exact R].
  - destruct (filter_end_at_spec self true) as [H _].
    apply H. right. cbn. split; [reflexivity | lia].
Defined.

Lemma end_tests_exclusive (n : nat) (gc_near_end : bool) (l : list (list Z)) :
  filter (end_at_ok n gc_near_end) (filter (end_gc_ok n) l) = [].
Proof.
  induction l as [|r l IH]; [reflexivity|].
  cbn [filter]. destruct (end_gc_ok n r) eqn:G; [|exact IH].
  cbn [filter]. rewrite IH.
  replace (end_at_ok n gc_near_end r) with false; [reflexivity|].
  symmetry. unfold end_gc_ok in G. unfold end_at_ok.
  apply andb_true_iff in G as [G _].
  apply andb_true_iff in G as [G _].
  apply andb_true_iff in G as [G _].
  now rewrite (strong_not_weak _ G).
Qed.

(** The two end filters exclude each other: no sequence kept by
    [filter_end_gc] is kept by [filter_end_at], so applying one after the
    other leaves the empty list. *)
Theorem end_filters_exclusive (self res1 res2 : DNASeqList) (gc_near_end : bool) :
  filter_end_gc self = Ok res1 ->
  filter_end_at res1 gc_near_end = Ok res2 ->
  rows (seqarr res2) = [] /\ numseqs res2 = 0.
Proof.
  intros E1 E2.
  assert (Hn : (3 <= ncols (seqarr self))%nat).
  { destruct (le_lt_dec 3 (ncols (seqarr self))) as [H|H]; [exact H|].
    rewrite (filter_end_gc_short self H) in E1. discriminate. }
  destruct (filter_end_gc_rows self Hn) as [r1 [F1 ->]].
  rewrite F1 in E1. injection E1 as <-.
  destruct (filter_end_at_rows
              (keep_rows self (map (end_gc_ok (ncols (seqarr self)))
                                   (rows (seqarr self)))) gc_near_end)
    as [r2 [F2 ->]]; [left; exact Hn|].
  rewrite F2 in E2. injection E2 as <-.
  unfold keep_rows at 1 3.
  cbn [DNASeqList_of_seqarr seqarr rows ncols numseqs].
  rewrite select_rows_map.
  rewrite keep_rows_map. unfold keep_rows.
  cbn [DNASeqList_of_seqarr seqarr rows ncols].
  rewrite end_tests_exclusive. split; reflexivity.
Qed.

Lemma end_filters_exclusive_witness :
  let self := DNASeqList_of_seqarr (mk_ndarray2 [[1; 0; 3; 2]; [0; 1; 2; 3]] 4) in
  let res1 := DNASeqList_of_seqarr (mk_ndarray2 [[1; 0; 3; 2]] 4) in
  let res2 := DNASeqList_of_seqarr (mk_ndarray2 [] 4) in
  filter_end_gc self = Ok res1 /\
  filter_end_at res1 false = Ok res2 /\
  rows (seqarr res2) = [] /\ numseqs res2 = 0.
Proof.
  intros self res1 res2.
  split; [vm_compute; reflexivity|]. split; [vm_compute; reflexivity|].
  apply (end_filters_exclusive self res1 res2 false); vm_compute; reflexivity.
Defined.

(** ** Membership and Hamming distance *)

Lemma ubyte_sub_zero (x y : Z) :
  0 <= x < 256 -> 0 <= y < 256 -> (ubyte_sub x y =? 0) = (x =? y).
Proof.
  intros Hx Hy. unfold ubyte_sub, wrap8.
  destruct (Z.eqb_spec x y) as [->|Hne].
  - rewrite Z.sub_diag. reflexivity.
  - apply Z.eqb_neq. intros H.
    apply Z.mod_divide in H; [|lia].
    destruct H as [k Hk]. lia.
Qed.

Lemma row_eqb_eq (r1 r2 : list Z) : row_eqb r1 r2 = true <-> r1 = r2.
Proof.
  unfold row_eqb. split.
  - revert r2. induction r1 as [|a r1 IH]; intros [|b r2] H; try discriminate;
      [reflexivity|].
    cbn [length combine forallb fst snd] in H.
    apply andb_true_iff in H as [Hl H]. apply andb_true_iff in H as [Hab H].
    apply Z.eqb_eq in Hab. subst b. f_equal. apply IH.
    apply andb_true_iff. split; assumption.
  - intros <-. apply andb_true_iff. split; [apply Nat.eqb_refl|].
    induction r1 as [|a r1 IH]; [reflexivity|].
    cbn [combine forallb fst snd]. now rewrite Z.eqb_refl.
Qed.

Lemma is_code_byte (z : Z) : is_code z -> 0 <= z < 256.
Proof. unfold is_code. lia. Qed.

Lemma no_difference (r arr : list Z) :
  codes_row r -> codes_row arr -> length r = length arr ->
  negb (existsb (fun b : bool => b) (nonzero (zip_with ubyte_sub r arr))) =
  row_eqb r arr.
Proof.
  unfold row_eqb, nonzero. intros Hr. revert arr.
  induction Hr as [|a r Ha Hr IH]; intros [|b arr] Harr Hl; try discriminate;
    [reflexivity|].
  inversion Harr as [|? ? Hb Harr']; subst.
  cbn [zip_with map existsb length combine forallb fst snd].
  rewrite (ubyte_sub_zero a b) by (apply is_code_byte; assumption).
  injection Hl as Hl.
  specialize (IH arr Harr' Hl). rewrite Hl, Nat.eqb_refl in IH |- *.
  cbn [andb] in IH |- *.
  destruct (a =? b); cbn [negb orb andb]; [exact IH | reflexivity].
Qed.

(** [seq in self]: for a DNASeqList whose counters agree with its array and a
    string of valid symbols, the test answers whether the encoded string is
    one of the rows.  A string of another length is answered False before its
    symbols are looked at, so an invalid symbol raises KeyError only when the
    length is right. *)
Theorem contains_spec (self : DNASeqList) (seq : string) :
  wf_DNASeqList self ->
  (forall arr, seq2arr seq = Ok arr ->
     exists b, DNASeqList_contains self seq = Ok b /\
               (b = true <-> In arr (rows (seqarr self)))) /\
  (Z.of_nat (str_len seq) <> seqlen self ->
     DNASeqList_contains self seq = Ok false) /\
  (Z.of_nat (str_len seq) = seqlen self -> seq2arr seq = Raise KeyError ->
     DNASeqList_contains self seq = Raise KeyError).
Proof.
  intros [Hnum [Hlen [Hrect Hcodes]]].
  unfold DNASeqList_contains. repeat split.
  - intros arr Harr.
    destruct (mapM_base2bits_codes _ _ Harr) as [Hal Hac].
    rewrite list_ascii_length in Hal.
    destruct (Z.eqb_spec (Z.of_nat (str_len seq)) (seqlen self)) as [E|E]; cbn [negb].
    + rewrite Harr. cbn [bind]. unfold broadcast_rows.
      assert (Hn : length arr = ncols (seqarr self)) by lia.
      rewrite Hn, Nat.eqb_refl. cbn [bind].
      eexists. split; [reflexivity|].
      rewrite existsb_map, existsb_exists. split.
      * intros [r [Hin Hr]].
        rewrite no_difference in Hr.
        -- apply row_eqb_eq in Hr. now subst.
        -- eapply Forall_forall in Hcodes; eauto.
        -- assumption.
        -- eapply Forall_forall in Hrect; eauto. cbv beta in Hrect. lia.
      * intros Hin. exists arr. split; [assumption|].
        rewrite no_difference by auto. now apply row_eqb_eq.
    + exists false. split; [reflexivity|]. split; [discriminate|].
      intros Hin. exfalso. apply E.
      eapply Forall_forall in Hrect; eauto. cbv beta in Hrect.
      lia.
  - intros E. apply Z.eqb_neq in E. now rewrite E.
  - intros E K. rewrite E, Z.eqb_refl. cbn [negb]. now rewrite K.
Qed.

Lemma contains_spec_witness :
  let self := DNASeqList_of_seqarr (mk_ndarray2 [[0; 1; 2]; [3; 3; 0]] 3) in
  (exists b, DNASeqList_contains self "TTA" = Ok b /\
             (b = true <-> In [3; 3; 0] (rows (seqarr self)))) /\
  DNASeqList_contains self "TTAX" = Ok false /\
  DNASeqList_contains self "TTX" = Raise KeyError.
Proof.
  intros self.
  assert (W : wf_DNASeqList self).
  { repeat split; try reflexivity; repeat constructor; unfold is_code; lia. }
  destruct (contains_spec self "TTA" W) as [H1 _].
  destruct (contains_spec self "TTAX" W) as [_ [H2 _]].
  destruct (contains_spec self "TTX" W) as [_ [_ H3]].
  split; [apply H1; reflexivity|].
  split; [apply H2; discriminate | apply H3; reflexivity].
Defined.

Lemma fold_min_le (l : list Z) (x : Z) :
  fold_left Z.min l x <= x /\ Forall (fun y => fold_left Z.min l x <= y) l.
Proof.
  revert x. induction l as [|a l IH]; intros x; cbn [fold_left].
  - split; [lia | constructor].
  - destruct (IH (Z.min x a)) as [H1 H2]. split; [lia|].
    constructor; [lia | exact H2].
Qed.

Lemma fold_min_in (l : list Z) (x : Z) :
  fold_left Z.min l x = x \/ In (fold_left Z.min l x) l.
Proof.
  revert x. induction l as [|a l IH]; intros x; cbn [fold_left]; [now left|].
  destruct (IH (Z.min x a)) as [H|H].
  - rewrite H. destruct (Z.min_spec x a) as [[_ ->]|[_ ->]]; [now left|].
    right. now left.
  - right. now right.
Qed.

Lemma np_min_spec (l : list Z) :
  l <> [] ->
  exists d, np_min l = Ok d /\ In d l /\ Forall (fun y => d <= y) l.
Proof.
  intros Hl. destruct l as [|x l]; [congruence|].
  cbn [np_min]. eexists. split; [reflexivity|].
  destruct (fold_min_le l x) as [H1 H2]. split.
  - destruct (fold_min_in l x) as [->|H]; [now left | now right].
  - constructor; assumption.
Qed.

Lemma hamming_bounds (a b : list Z) : 0 <= hamming a b <= Z.of_nat (length a).
Proof.
  unfold hamming. split; [lia|].
  apply inj_le. etransitivity; [apply filter_length_le|].
  rewrite zip_with_length. lia.
Qed.

Lemma hamming_zero (a b : list Z) :
  length a = length b -> (hamming a b = 0 <-> a = b).
Proof.
  unfold hamming. revert b.
  induction a as [|x a IH]; intros [|y b] Hl; try discriminate.
  - split; reflexivity.
  - injection Hl as Hl. cbn [zip_with filter].
    destruct (Z.eqb_spec (Z.lxor x y) 0) as [E|E]; cbn [negb].
    + apply Z.lxor_eq in E. subst y. rewrite IH by assumption.
      split; [intros ->; reflexivity | intros [= ->]; reflexivity].
    + split.
      * cbn [length]. lia.
      * intros [= -> ->]. now rewrite Z.lxor_nilpotent in E.
Qed.

(** [hamming_min]: on an empty list it raises ValueError.  On a non-empty
    list it returns the Hamming distance from [arr] to a nearest sequence of
    the list: a number between 0 and the sequence length, attained by some
    row and exceeded by none, and 0 exactly when [arr] is one of the rows. *)
Theorem hamming_min_spec (self : DNASeqList) (arr : list Z) :
  rect (ncols (seqarr self)) (rows (seqarr self)) ->
  length arr = ncols (seqarr self) ->
  (rows (seqarr self) = [] -> hamming_min self arr = Raise ValueError) /\
  (rows (seqarr self) <> [] ->
   exists d,
     hamming_min self arr = Ok d /\
     0 <= d <= Z.of_nat (ncols (seqarr self)) /\
     (exists r, In r (rows (seqarr self)) /\ d = hamming r arr) /\
     (forall r, In r (rows (seqarr self)) -> d <= hamming r arr) /\
     (d = 0 <-> In arr (rows (seqarr self)))).
Proof.
  intros Hrect Hlen. unfold hamming_min, broadcast_rows.
  rewrite Hlen, Nat.eqb_refl. cbn [bind]. rewrite map_map.
  change (map (fun x => Z.of_nat (length (filter (fun x0 => negb (x0 =? 0))
                                           (zip_with Z.lxor x arr))))
              (rows (seqarr self)))
    with (map (fun r => hamming r arr) (rows (seqarr self))).
  split.
  - intros ->. reflexivity.
  - intros Hne.
    destruct (np_min_spec (map (fun r => hamming r arr) (rows (seqarr self))))
      as [d [E [Hin Hall]]].
    { destruct (rows (seqarr self)); [congruence | discriminate]. }
    exists d. split; [exact E|].
    apply in_map_iff in Hin as [r0 [Hd Hr0]].
    assert (Hl0 : length r0 = ncols (seqarr self))
      by (eapply Forall_forall in Hrect; eauto).
    assert (Hmin : forall r, In r (rows (seqarr self)) -> d <= hamming r arr).
    { intros r Hr. rewrite Forall_forall in Hall. apply Hall.
      apply in_map_iff. eauto. }
    split; [|split; [|split]].
    + subst d. pose proof (hamming_bounds r0 arr). lia.
    + exists r0. auto.
    + exact Hmin.
    + split.
      * intros Hz. subst d. rewrite Hz in *.
        apply hamming_zero in Hz; [now subst | lia].
      * intros Hin. specialize (Hmin arr Hin).
        assert (hamming arr arr = 0) by (now apply hamming_zero).
        pose proof (hamming_bounds r0 arr). lia.
Qed.

Lemma hamming_min_spec_witness :
  let self := DNASeqList_of_seqarr (mk_ndarray2 [[0; 1; 2]; [3; 3; 0]] 3) in
  (exists d,
     hamming_min self [3; 1; 0] = Ok d /\
     0 <= d <= 3 /\
     (exists r, In r (rows (seqarr self)) /\ d = hamming r [3; 1; 0]) /\
     (forall r, In r (rows (seqarr self)) -> d <= hamming r [3; 1; 0]) /\
     (d = 0 <-> In [3; 1; 0] (rows (seqarr self)))) /\
  hamming_min (DNASeqList_of_seqarr (mk_ndarray2 [] 3)) [3; 1; 0] = Raise ValueError.
Proof.
  intros self. split.
  - apply (hamming_min_spec self [3; 1; 0]).
    + repeat constructor.
    + reflexivity.
    + discriminate.
  - apply (hamming_min_spec (DNASeqList_of_seqarr (mk_ndarray2 [] 3)) [3; 1; 0]).
    + constructor.
    + reflexivity.
    + reflexivity.
Defined.

(** ** Sequences in and out of the list *)

Lemma getitem_nat {A : Type} (l : list A) (i : nat) (a : A) :
  nth_error l i = Some a -> getitem l (Z.of_nat i) = Ok a.
Proof.
  intros H. unfold getitem.
  assert (Hi : (i < length l)%nat) by (apply nth_error_Some; congruence).
  replace (Z.of_nat i <? 0) with false by (symmetry; apply Z.ltb_ge; lia).
  replace ((Z.of_nat i <? 0) || (Z.of_nat (length l) <=? Z.of_nat i)) with false
    by (symmetry; apply orb_false_iff; split; [apply Z.ltb_ge | apply Z.leb_gt]; lia).
  now rewrite Nat2Z.id, H.
Qed.

Lemma mapM_getitem_seq {A B : Type} (g : A -> result B) (pre l : list A) :
  mapM (fun idx => r <- getitem (pre ++ l) (Z.of_nat idx) ;; g r)
       (seq (length pre) (length l)) =
  mapM g l.
Proof.
  revert pre. induction l as [|a l IH]; intros pre; [reflexivity|].
  cbn [length seq mapM].
  rewrite (getitem_nat _ _ a) by (rewrite nth_error_app2, Nat.sub_diag; auto).
  cbn [bind].
  replace (pre ++ a :: l) with ((pre ++ [a]) ++ l) by (now rewrite <- app_assoc).
  replace (S (length pre)) with (length (pre ++ [a]))
    by (rewrite length_app; cbn; lia).
  now rewrite IH.
Qed.

Lemma seq2arr_base_of (r : list Z) :
  codes_row r -> seq2arr (string_of_list_ascii (map base_of r)) = Ok r.
Proof.
  unfold seq2arr. rewrite list_ascii_of_string_of_list_ascii.
  induction 1 as [|z r Hz _ IH]; [reflexivity|].
  cbn [map mapM]. rewrite IH.
  destruct (is_code_cases z Hz) as [->|[->|[->| ->]]]; reflexivity.
Qed.

Lemma seq2arr_arr2seq (s : string) :
  Forall upper_base (list_ascii_of_string s) ->
  exists arr, seq2arr s = Ok arr /\ arr2seq arr = Ok s /\
              length arr = str_len s /\ codes_row arr.
Proof.
  intros H. unfold seq2arr, arr2seq.
  destruct (arr2seq_seq2arr_list _ H) as [arr [E1 E2]].
  exists arr. rewrite E1, E2. cbn [bind].
  rewrite string_of_list_ascii_of_string.
  destruct (mapM_base2bits_codes _ _ E1) as [Hl Hc].
  rewrite list_ascii_length in Hl. auto.
Qed.

(** Appending a sequence and popping it are inverse to each other.  After
    [append_seq] of a string over A, C, G, T of the right length, [pop]
    returns that string and leaves the list as it was; on a non-empty list
    whose entries are codes, [append_seq] of the popped string restores the
    list.  [pop] on an empty list raises IndexError, and [append_seq] of a
    string of another length raises ValueError. *)
Theorem append_pop_roundtrip (self : DNASeqList) :
  (forall seq : string,
     Forall upper_base (list_ascii_of_string seq) ->
     (str_len seq = ncols (seqarr self) ->
      exists self',
        append_seq self seq = Ok self' /\
        numseqs self' = numseqs self + 1 /\
        pop self' = Ok (seq, self)) /\
     (str_len seq <> ncols (seqarr self) ->
      append_seq self seq = Raise ValueError)) /\
  (rows (seqarr self) = [] -> pop self = Raise IndexError) /\
  (rows (seqarr self) <> [] ->
   rect (ncols (seqarr self)) (rows (seqarr self)) ->
   codes (rows (seqarr self)) ->
   exists seq self',
     pop self = Ok (seq, self') /\
     numseqs self' = numseqs self - 1 /\
     append_seq self' seq = Ok self).
Proof.
  destruct self as [[rs nc] ns sl sh]. cbn [seqarr rows ncols numseqs].
  repeat split.
  - intros Hl.
    destruct (seq2arr_arr2seq seq H) as [arr [E1 [E2 [Hal _]]]].
    unfold append_seq, append_arr. rewrite E1. cbn [bind seqarr rows ncols].
    replace (length arr =? nc)%nat with true by (symmetry; apply Nat.eqb_eq; lia).
    eexists. split; [reflexivity|]. split; [reflexivity|].
    unfold pop, get_seq_str. cbn [seqarr rows ncols numseqs seqlen shift].
    rewrite (getitem_last _ []) by (destruct rs; discriminate).
    rewrite last_last. cbn [bind]. rewrite E2. cbn [bind].
    rewrite removelast_last. do 3 f_equal. lia.
  - intros Hl.
    destruct (seq2arr_arr2seq seq H) as [arr [E1 [_ [Hal _]]]].
    unfold append_seq, append_arr. rewrite E1. cbn [bind seqarr rows ncols].
    replace (length arr =? nc)%nat with false; [reflexivity|].
    symmetry. apply Nat.eqb_neq. lia.
  - intros ->. reflexivity.
  - intros Hne Hrect Hcodes.
    assert (Hin : In (last rs []) rs).
    { destruct (exists_last Hne) as [l' [x ->]]. rewrite last_last.
      apply in_or_app. right. now left. }
    assert (Hc : codes_row (last rs []))
      by (eapply Forall_forall in Hcodes; eauto).
    assert (Hl : length (last rs []) = nc)
      by (eapply Forall_forall in Hrect; eauto).
    unfold pop, get_seq_str. cbn [seqarr rows ncols numseqs seqlen shift].
    rewrite (getitem_last _ []) by assumption. cbn [bind].
    rewrite (arr2seq_codes _ Hc). cbn [bind].
    eexists. eexists. split; [reflexivity|]. split; [reflexivity|].
    unfold append_seq, append_arr. rewrite (seq2arr_base_of _ Hc).
    cbn [bind seqarr rows ncols numseqs seqlen shift].
    rewrite Hl, Nat.eqb_refl.
    rewrite <- (app_removelast_last [] Hne). do 3 f_equal. lia.
Qed.

Lemma append_pop_roundtrip_witness :
  let self := DNASeqList_of_seqarr (mk_ndarray2 [[0; 1; 2]; [3; 3; 0]] 3) in
  (exists self',
     append_seq self "GAT" = Ok self' /\
     numseqs self' = numseqs self + 1 /\
     pop self' = Ok ("GAT"%string, self)) /\
  append_seq self "GATT" = Raise ValueError /\
  pop (DNASeqList_of_seqarr (mk_ndarray2 [] 3)) = Raise IndexError /\
  (exists seq self',
     pop self = Ok (seq, self') /\
     numseqs self' = numseqs self - 1 /\
     append_seq self' seq = Ok self).
Proof.
  intros self.
  destruct (append_pop_roundtrip self) as [H1 [_ H3]].
  destruct (append_pop_roundtrip (DNASeqList_of_seqarr (mk_ndarray2 [] 3)))
    as [_ [H2 _]].
  split; [apply (H1 "GAT"%string); [|reflexivity]|].
  { repeat constructor; unfold upper_base, bits2base; simpl; tauto. }
  split; [apply (H1 "GATT"%string); [|discriminate]|].
  { repeat constructor; unfold upper_base, bits2base; simpl; tauto. }
  split; [apply H2; reflexivity|].
  apply H3.
  - discriminate.
  - repeat constructor.
  - repeat constructor; unfold is_code; lia.
Defined.

(** A list built from strings gives the strings back: for a non-empty list
    of strings over A, C, G, T, all of one length, the constructor succeeds
    and [to_list] of the new DNASeqList returns the strings, in order. *)
Theorem to_list_of_seqs
  (rng_choice : list Z -> nat -> nat -> list (list Z))
  (rng_shuffle : list (list Z) -> list (list Z))
  (fs : filesystem) (seqs : list string) (l : nat) :
  seqs <> [] ->
  Forall (fun s => str_len s = l /\ Forall upper_base (list_ascii_of_string s)) seqs ->
  exists self,
    DNASeqList_init rng_choice rng_shuffle fs
      {| arg_length := None; arg_num_random_seqs := None; arg_shuffle := false;
         arg_alphabet := bits2base; arg_seqs := Some seqs;
         arg_seqarr := None; arg_filename := None |} = Ok self /\
    numseqs self = Z.of_nat (length seqs) /\
    seqlen self = Z.of_nat l /\
    to_list self = Ok seqs.
Proof.
  intros Hne Hall.
  assert (Hm : exists m, mapM seq2arr seqs = Ok m /\ mapM arr2seq m = Ok seqs /\
                         length m = length seqs).
  { clear Hne. induction Hall as [|s seqs [_ Hs] _ [m [E1 [E2 E3]]]].
    - exists []. auto.
    - destruct (seq2arr_arr2seq s Hs) as [arr [A1 [A2 _]]].
      exists (arr :: m). cbn [mapM length]. rewrite A1, E1, A2, E2. cbn [bind]. auto. }
  destruct Hm as [m [E1 [E2 E3]]].
  unfold DNASeqList_init.
  cbn [arg_length arg_seqs arg_seqarr arg_filename arg_shuffle is_not_None
       combinations2 map app existsb fst snd andb orb].
  destruct seqs as [|s0 seqs']; [congruence|].
  assert (Hlen : forallb (fun s => (str_len s =? str_len s0)%nat) (s0 :: seqs') = true).
  { apply forallb_forall. intros s Hs.
    rewrite Forall_forall in Hall.
    destruct (Hall s Hs) as [-> _]. destruct (Hall s0 (or_introl eq_refl)) as [-> _].
    apply Nat.eqb_refl. }
  rewrite Hlen. unfold seqs2arr. rewrite Hlen, E1. cbn [bind].
  eexists. split; [reflexivity|]. cbn [numseqs seqlen].
  split; [reflexivity|]. split.
  { rewrite Forall_forall in Hall.
    destruct (Hall s0 (or_introl eq_refl)) as [-> _]. reflexivity. }
  unfold to_list, get_seq_str. cbn [numseqs seqarr rows].
  rewrite Nat2Z.id, <- E3.
  etransitivity; [exact (mapM_getitem_seq arr2seq [] m) | exact E2].
Qed.

Lemma to_list_of_seqs_witness :
  exists self,
    DNASeqList_init (fun _ _ _ => []) (fun m => m) (fun _ => None)
      {| arg_length := None; arg_num_random_seqs := None; arg_shuffle := false;
         arg_alphabet := bits2base;
         arg_seqs := Some ["ACG"%string; "TAA"%string];
         arg_seqarr := None; arg_filename := None |} = Ok self /\
    numseqs self = 2 /\
    seqlen self = 3 /\
    to_list self = Ok ["ACG"%string; "TAA"%string].
Proof.
  apply (to_list_of_seqs (fun _ _ _ => []) (fun m => m) (fun _ => None)
           ["ACG"%string; "TAA"%string] 3).
  - discriminate.
  - repeat constructor; unfold upper_base, bits2base; simpl; tauto.
Defined.

(** ** Energies of the sequences of a list *)

Lemma calculate_wc_energies_codes (seqarr : list (list Z)) (t : spec_float)
  (negate : bool) :
  codes seqarr ->
  calculate_wc_energies seqarr t negate =
  Ok (mk_farray (fdtype (calculate_loop_energies t negate))
                (map (batched_energy t negate) seqarr)).
Proof.
  intros Hc. unfold calculate_wc_energies. rewrite mapM_map.
  rewrite (mapM_Ok_map _ (row_terms (calculate_loop_energies t negate))).
  - cbn [bind]. now rewrite map_map.
  - eapply Forall_impl; [|exact Hc]. intros r Hr.
    apply gathered_row_terms; [apply loop_energies_length | exact Hr].
Qed.

Lemma filter_energy_rows (self : DNASeqList) (low high t : spec_float) :
  codes (rows (seqarr self)) ->
  filter_energy self low high t =
  Ok (DNASeqList_of_seqarr
        (mk_ndarray2
           (filter (fun r =>
                      within_range (fdtype (calculate_loop_energies t false))
                                   low high (batched_energy t false r))
                   (rows (seqarr self)))
           (ncols (seqarr self)))).
Proof.
  intros Hc. unfold filter_energy.
  rewrite calculate_wc_energies_codes by exact Hc. cbn [bind].
  unfold scalar_le_array, array_le_scalar. cbn [fdtype fdata].
  rewrite !map_map, and_arr_map. unfold keep_rows.
  now rewrite select_rows_map.
Qed.

(** [filter_energy] keeps, in order, exactly the sequences whose batched
    energy [e], the entry of [calculate_wc_energies] for the sequence,
    passes [low <= e <= high]; each bound is compared in the dtype numpy
    chooses for it against the array of energies, so a bound within the
    range of [float32] is rounded to [float32] first. *)
Theorem filter_energy_batched (self : DNASeqList) (low high t : spec_float) :
  codes (rows (seqarr self)) ->
  exists res,
    filter_energy self low high t = Ok res /\
    rows (seqarr res) =
      filter (fun r =>
                within_range (fdtype (calculate_loop_energies t false))
                             low high (batched_energy t false r))
             (rows (seqarr self)) /\
    numseqs res = Z.of_nat (length (rows (seqarr res))) /\
    seqlen res = Z.of_nat (ncols (seqarr self)).
Proof.
  intros Hc. rewrite filter_energy_rows by exact Hc.
  eexists. split; [reflexivity|]. repeat split.
Qed.

Lemma filter_energy_batched_witness :
  exists res,
    filter_energy (DNASeqList_of_seqarr (mk_ndarray2 [[0; 0; 0]; [2; 1; 2]] 3))
      (float_of_int (-3)) (float_of_int (-1)) (float_of_int 37) = Ok res /\
    rows (seqarr res) =
      filter (fun r =>
                within_range (fdtype (calculate_loop_energies (float_of_int 37) false))
                             (float_of_int (-3)) (float_of_int (-1))
                             (batched_energy (float_of_int 37) false r))
             [[0; 0; 0]; [2; 1; 2]] /\
    numseqs res = Z.of_nat (length (rows (seqarr res))) /\
    seqlen res = 3.
Proof.
  apply (filter_energy_batched
           (DNASeqList_of_seqarr (mk_ndarray2 [[0; 0; 0]; [2; 1; 2]] 3))).
  repeat constructor; unfold is_code; lia.
Defined.

(** [wcenergies_str] returns, for each string of a list that can be encoded
    (lower-case symbols included), the batched energy of the encoded string,
    and [wcenergy_str] that of a single string: the [np.sum] of the stacking
    terms in the dtype of the table, not the [float64] sum of [wcenergy]. *)
Theorem wcenergies_str_batched (seqs : list string) (m : list (list Z))
  (t : spec_float) (negate : bool) :
  seqs2arr seqs = Ok m ->
  wcenergies_str seqs t negate = Ok (map (batched_energy t negate) m) /\
  (forall seq r, seqs = [seq] -> m = [r] ->
     wcenergy_str seq t negate = Ok (batched_energy t negate r)).
Proof.
  intros E. destruct (seqs2arr_shape _ _ E) as [_ [_ Hc]]. split.
  - unfold wcenergies_str. rewrite E. cbn [bind].
    now rewrite calculate_wc_energies_codes.
  - intros seq r -> ->. unfold wcenergy_str. rewrite E. cbn [bind].
    now rewrite calculate_wc_energies_codes.
Qed.

Lemma wcenergies_str_batched_witness :
  wcenergies_str ["acg"%string; "TTA"%string] (float_of_int 37) false =
  Ok (map (batched_energy (float_of_int 37) false) [[0; 1; 2]; [3; 3; 0]]) /\
  wcenergy_str "acg" (float_of_int 37) false =
  Ok (batched_energy (float_of_int 37) false [0; 1; 2]).
Proof.
  split.
  - apply (wcenergies_str_batched ["acg"%string; "TTA"%string] [[0; 1; 2]; [3; 3; 0]]).
    reflexivity.
  - destruct (wcenergies_str_batched ["acg"%string] [[0; 1; 2]]
                (float_of_int 37) false eq_refl) as [_ H].
    apply (H "acg"%string [0; 1; 2]); reflexivity.
Defined.

(** ** More on the substring filter *)

Lemma filter_substring_rows (self : DNASeqList) (subs : list string)
  (sublen : nat) (subints : list (list Z)) :
  wf_DNASeqList self ->
  subs <> [] -> Forall (fun s => str_len s = sublen) subs ->
  (sublen <= ncols (seqarr self))%nat -> (sublen <= 32)%nat ->
  mapM (fun sub => mapM base2bits (list_ascii_of_string sub)) subs = Ok subints ->
  filter_substring self subs =
  Ok (DNASeqList_of_seqarr
        (mk_ndarray2
           (filter (fun r => negb (existsb (fun s => contains s r) subints))
                   (rows (seqarr self)))
           (ncols (seqarr self)))).
Proof.
  intros [Hnum [Hlen [Hrect Hcodes]]] Hne Hall Hcol H32 Hsub.
  unfold filter_substring.
  rewrite (nodup_all_equal sublen).
  2:{ destruct subs; [contradiction|discriminate]. }
  2:{ apply Forall_map. exact Hall. }
  cbn [length Nat.eqb negb].
  replace (match subs with s0 :: _ => str_len s0 | [] => 0%nat end) with sublen.
  2:{ destruct subs as [|s0 subs']; [contradiction|]. now inversion Hall. }
  rewrite Hsub. cbn [bind].
  replace (forallb fits64 (powarr_of sublen)) with true.
  2:{ symmetry. apply forallb_forall. apply Forall_forall, powarr_fits, H32. }
  rewrite Hlen, create_toeplitz_band by assumption. cbn [bind].
  rewrite Z.eqb_refl, Hnum, Z.eqb_refl. cbn [negb]. rewrite Nat2Z.id.
  do 2 f_equal. f_equal.
  set (seqs := rows (seqarr self)) in *.
  set (toeplitz := map _ (seq 0 _)).
  rewrite <- (map_const_repeat (fun _ : list Z => true) true seqs) by reflexivity.
  erewrite fold_left_ext.
  2:{ intros passall subval. rewrite map_map. reflexivity. }
  rewrite (passall_fold
             (fun subval r => forallb (fun c => negb (c =? subval))
                                      (map (fun t => dot64 t r) toeplitz))).
  rewrite select_rows_map. apply filter_ext_in. intros r Hr.
  cbn [andb]. rewrite forallb_map, <- forallb_negb_existsb.
  apply forallb_ext_in. intros s Hs.
  pose proof (subints_shape subs sublen subints Hall Hsub) as Hshape.
  rewrite Forall_forall in Hshape. destruct (Hshape s Hs) as [Hsl Hsc].
  subst toeplitz. rewrite <- Hsl.
  apply passsub_contains; try lia.
  - exact Hsc.
  - unfold codes in Hcodes. rewrite Forall_forall in Hcodes. now apply Hcodes.
  - unfold rect in Hrect. rewrite Forall_forall in Hrect. now apply Hrect.
Qed.

Lemma wf_filter (self : DNASeqList) (h : list Z -> bool) :
  wf_DNASeqList self ->
  wf_DNASeqList
    (DNASeqList_of_seqarr
       (mk_ndarray2 (filter h (rows (seqarr self))) (ncols (seqarr self)))).
Proof.
  intros [_ [_ [Hrect Hcodes]]].
  unfold wf_DNASeqList. cbn [DNASeqList_of_seqarr seqarr rows ncols numseqs seqlen].
  split; [reflexivity|]. split; [reflexivity|]. split.
  - apply Forall_forall. intros r Hr. apply filter_In in Hr as [Hr _].
    unfold rect in Hrect. rewrite Forall_forall in Hrect. auto.
  - apply Forall_forall. intros r Hr. apply filter_In in Hr as [Hr _].
    unfold codes in Hcodes. rewrite Forall_forall in Hcodes. auto.
Qed.

Lemma mapM_app {A B : Type} (f : A -> result B) (l1 l2 : list A)
  (b1 b2 : list B) :
  mapM f l1 = Ok b1 -> mapM f l2 = Ok b2 -> mapM f (l1 ++ l2) = Ok (b1 ++ b2).
Proof.
  revert b1. induction l1 as [|a l1 IH]; intros b1 E1 E2.
  - injection E1 as <-. exact E2.
  - cbn [mapM app] in *.
    apply bind_Ok in E1 as [b [Eb E1]]. apply bind_Ok in E1 as [bs [Ebs E1]].
    injection E1 as <-. rewrite Eb. cbn [bind].
    rewrite (IH bs Ebs E2). reflexivity.
Qed.

Lemma filter_filter {A : Type} (f g : A -> bool) (l : list A) :
  filter g (filter f l) = filter (fun a => f a && g a) l.
Proof.
  induction l as [|a l IH]; [reflexivity|].
  cbn [filter]. destruct (f a); cbn [filter andb]; [|exact IH].
  destruct (g a); now rewrite IH.
Qed.

(** Filtering by two lists of forbidden substrings, one after the other, is
    filtering by the two lists joined: for substrings of one length (at most
    [seqlen] and 32), [filter_substring(subs1 + subs2)] returns the list that
    [filter_substring(subs1)] followed by [filter_substring(subs2)] returns. *)
Theorem filter_substring_app (self : DNASeqList) (subs1 subs2 : list string)
  (sublen : nat) (ints1 ints2 : list (list Z)) :
  wf_DNASeqList self ->
  subs1 <> [] -> subs2 <> [] ->
  Forall (fun s => str_len s = sublen) (subs1 ++ subs2) ->
  (sublen <= ncols (seqarr self))%nat -> (sublen <= 32)%nat ->
  mapM (fun sub => mapM base2bits (list_ascii_of_string sub)) subs1 = Ok ints1 ->
  mapM (fun sub => mapM base2bits (list_ascii_of_string sub)) subs2 = Ok ints2 ->
  exists mid,
    filter_substring self subs1 = Ok mid /\
    filter_substring mid subs2 = filter_substring self (subs1 ++ subs2).
Proof.
  intros Hwf H1 H2 Hall Hcol H32 E1 E2.
  apply Forall_app in Hall as [Hall1 Hall2].
  eexists. split.
  - apply (filter_substring_rows self subs1 sublen ints1); assumption.
  - rewrite (filter_substring_rows _ subs2 sublen ints2);
      try assumption; [|now apply wf_filter].
    rewrite (filter_substring_rows self (subs1 ++ subs2) sublen (ints1 ++ ints2));
      try assumption.
    + cbn [DNASeqList_of_seqarr seqarr rows ncols]. do 3 f_equal.
      rewrite filter_filter. apply filter_ext. intros r.
      rewrite existsb_app. now rewrite negb_orb.
    + destruct subs1; [contradiction | discriminate].
    + apply Forall_app. split; assumption.
    + now apply mapM_app.
Qed.

Lemma filter_substring_app_witness :
  let self :=
    DNASeqList_of_seqarr
      (mk_ndarray2 [[0; 1; 2; 3; 0]; [2; 2; 2; 2; 1]; [1; 1; 1; 1; 1]; [0; 2; 2; 0; 0]] 5) in
  exists mid,
    filter_substring self ["GG"%string] = Ok mid /\
    filter_substring mid ["CC"%string] =
    filter_substring self ["GG"%string; "CC"%string].
Proof.
  intros self.
  apply (filter_substring_app self ["GG"%string] ["CC"%string] 2 [[2; 2]] [[1; 1]]).
  - repeat split; repeat constructor; unfold is_code; lia.
  - discriminate.
  - discriminate.
  - repeat constructor.
  - simpl; lia.
  - lia.
  - reflexivity.
  - reflexivity.
Defined.

(** The quadruplex filters need sequences of at least 4 symbols: on a list
    of shorter sequences both raise ValueError (the Toeplitz matrix cannot be
    built) instead of keeping every sequence.  From length 4 on,
    [filter_seqs_by_g_quad] keeps exactly the sequences without GGGG, and
    [filter_seqs_by_g_quad_c_quad] those with neither GGGG nor CCCC. *)
Theorem g_quad_spec (self : DNASeqList) :
  (seqlen self < 4 ->
   filter_seqs_by_g_quad self = Raise ValueError /\
   filter_seqs_by_g_quad_c_quad self = Raise ValueError) /\
  (wf_DNASeqList self -> (4 <= ncols (seqarr self))%nat ->
   exists g gc,
     filter_seqs_by_g_quad self = Ok g /\
     rows (seqarr g) =
       filter (fun r => negb (contains [2; 2; 2; 2] r)) (rows (seqarr self)) /\
     filter_seqs_by_g_quad_c_quad self = Ok gc /\
     rows (seqarr gc) =
       filter (fun r => negb (contains [2; 2; 2; 2] r) &&
                        negb (contains [1; 1; 1; 1] r))
              (rows (seqarr self))).
Proof.
  split.
  - intros Hs.
    assert (Ht : create_toeplitz (seqlen self) 4 = Raise ValueError).
    { unfold create_toeplitz.
      destruct (Z.ltb_spec (seqlen self - (Z.of_nat 4 - 1)) 0) as [H|H];
        [reflexivity|].
      replace (seqlen self) with 3 by lia. reflexivity. }
    unfold filter_seqs_by_g_quad, filter_seqs_by_g_quad_c_quad, filter_substring.
    cbn [map str_len String.length nodup length Nat.eqb negb mapM
         list_ascii_of_string base2bits bind].
    change (powarr_of 4) with [1; 4; 16; 64].
    cbn [forallb]. rewrite Ht. split; reflexivity.
  - intros Hwf Hn.
    unfold filter_seqs_by_g_quad, filter_seqs_by_g_quad_c_quad.
    rewrite (filter_substring_rows self ["GGGG"%string] 4 [[2; 2; 2; 2]]);
      try assumption; try discriminate; try lia; try reflexivity;
      [|repeat constructor].
    rewrite (filter_substring_rows self ["GGGG"%string; "CCCC"%string] 4
               [[2; 2; 2; 2]; [1; 1; 1; 1]]);
      try assumption; try discriminate; try lia; try reflexivity;
      [|repeat constructor].
    eexists. eexists. split; [reflexivity|].
    cbn [DNASeqList_of_seqarr seqarr rows ncols existsb].
    split; [|split; [reflexivity|]].
    + apply filter_ext. intros r. now rewrite orb_false_r.
    + apply filter_ext. intros r. now rewrite orb_false_r, negb_orb.
Qed.

Lemma g_quad_spec_witness :
  let short := DNASeqList_of_seqarr (mk_ndarray2 [[2; 2; 2]; [0; 1; 2]] 3) in
  let self :=
    DNASeqList_of_seqarr
      (mk_ndarray2 [[0; 2; 2; 2; 2]; [1; 1; 1; 1; 0]; [2; 1; 2; 1; 2]] 5) in
  (filter_seqs_by_g_quad short = Raise ValueError /\
   filter_seqs_by_g_quad_c_quad short = Raise ValueError) /\
  exists g gc,
    filter_seqs_by_g_quad self = Ok g /\
    rows (seqarr g) =
      filter (fun r => negb (contains [2; 2; 2; 2] r)) (rows (seqarr self)) /\
    filter_seqs_by_g_quad_c_quad self = Ok gc /\
    rows (seqarr gc) =
      filter (fun r => negb (contains [2; 2; 2; 2] r) &&
                       negb (contains [1; 1; 1; 1] r))
             (rows (seqarr self)).
Proof.
  intros short self. split.
  - apply (g_quad_spec short). cbn. lia.
  - apply (g_quad_spec self).
    + repeat split; repeat constructor; unfold is_code; lia.
    + cbn. lia.
Defined.

(** ** Sequences by their index *)

Lemma land_3_code (x : Z) : is_code (Z.land x 3).
Proof.
  change 3 with (Z.ones 2). rewrite Z.land_ones by lia.
  unfold is_code. pose proof (Z.mod_pos_bound x (2 ^ 2)). lia.
Qed.

Lemma digits4_S (idx : Z) (n : nat) :
  digits4 idx (S n) = digits4 (Z.shiftr idx 2) n ++ [Z.land idx 3].
Proof.
  unfold digits4. rewrite seq_S, map_app. cbn [map Nat.add]. f_equal.
  - apply map_ext_in. intros i Hi. apply in_seq in Hi.
    rewrite Z.shiftr_shiftr by lia. do 2 f_equal. lia.
  - replace (S n - 1 - n)%nat with 0%nat by lia. reflexivity.
Qed.

Lemma digits4_length (idx : Z) (n : nat) : length (digits4 idx n) = n.
Proof. unfold digits4. now rewrite length_map, length_seq. Qed.

Lemma digits4_codes (idx : Z) (n : nat) : codes_row (digits4 idx n).
Proof.
  unfold digits4. apply Forall_map, Forall_forall. intros i _. apply land_3_code.
Qed.

Lemma set_nth_middle {A : Type} (pre : list A) (a b : A) (post : list A) :
  set_nth (length pre) b (pre ++ a :: post) = pre ++ b :: post.
Proof. induction pre as [|x pre IH]; [reflexivity|]. cbn. now rewrite IH. Qed.

Lemma idx2seq_loop (k : nat) :
  forall (pre post : list ascii) (idx : Z),
    length pre = k ->
    fold_left
      (fun acc i =>
         st <- acc ;;
         b <- getitem bits2base (Z.land (snd st) 3) ;;
         Ok (set_nth i b (fst st), Z.shiftr (snd st) 2))
      (rev (seq 0 k)) (Ok (pre ++ post, idx)) =
    Ok (map base_of (digits4 idx k) ++ post, Z.shiftr idx (2 * Z.of_nat k)).
Proof.
  induction k as [|k IH]; intros pre post idx Hk.
  - destruct pre; [|discriminate].
    change (2 * Z.of_nat 0) with 0. rewrite Z.shiftr_0_r. reflexivity.
  - destruct (exists_last (l := pre)) as [pre' [a ->]];
      [destruct pre; discriminate|].
    rewrite length_app in Hk. cbn [length] in Hk.
    assert (Hk' : length pre' = k) by lia.
    rewrite seq_S, rev_app_distr. cbn [rev app Nat.add fold_left bind fst snd].
    rewrite (getitem_bits2base _ (land_3_code idx)). cbn [bind].
    rewrite <- app_assoc. cbn [app].
    replace (set_nth k (base_of (Z.land idx 3)) (pre' ++ a :: post))
      with (pre' ++ base_of (Z.land idx 3) :: post)
      by (subst k; symmetry; apply set_nth_middle).
    rewrite (IH pre' (base_of (Z.land idx 3) :: post)) by assumption.
    rewrite digits4_S, map_app, <- app_assoc. cbn [map app].
    rewrite Z.shiftr_shiftr by lia.
    replace (2 + 2 * Z.of_nat k) with (2 * Z.of_nat (S k)) by lia.
    reflexivity.
Qed.

Lemma idx2seq_digits (idx length : Z) :
  idx2seq idx length =
  Ok (string_of_list_ascii (map base_of (digits4 idx (Z.to_nat length)))).
Proof.
  unfold idx2seq.
  rewrite <- (app_nil_r (repeat "x"%char (Z.to_nat length))).
  rewrite idx2seq_loop by apply repeat_length.
  cbn [bind fst]. now rewrite app_nil_r.
Qed.

Lemma base4_value_snoc (r : list Z) (d : Z) :
  base4_value (r ++ [d]) = 4 * base4_value r + d.
Proof. unfold base4_value. now rewrite fold_left_app. Qed.

Lemma base4_value_digits (idx : Z) (n : nat) :
  base4_value (digits4 idx n) = idx mod 4 ^ Z.of_nat n.
Proof.
  revert idx. induction n as [|n IH]; intros idx.
  - cbn. now rewrite Z.mod_1_r.
  - rewrite digits4_S, base4_value_snoc, IH.
    rewrite Z.shiftr_div_pow2 by lia.
    change 3 with (Z.ones 2). rewrite Z.land_ones by lia.
    change (2 ^ 2) with 4.
    rewrite Nat2Z.inj_succ, Z.pow_succ_r by lia.
    rewrite (Z.rem_mul_r idx 4 (4 ^ Z.of_nat n)) by lia. lia.
Qed.

(** [idx2seq] never raises, for any two integers: it returns a string of
    [length] symbols over A, C, G, T (the empty string for a negative
    [length]) that spells, in base 4 with A=0, C=1, G=2, T=3 and the first
    symbol the most significant, the number [idx mod 4 ** length]. *)
Theorem idx2seq_spec (idx length : Z) :
  exists s arr,
    idx2seq idx length = Ok s /\
    str_len s = Z.to_nat length /\
    Forall upper_base (list_ascii_of_string s) /\
    seq2arr s = Ok arr /\
    base4_value arr = idx mod 4 ^ Z.of_nat (Z.to_nat length).
Proof.
  set (n := Z.to_nat length).
  exists (string_of_list_ascii (map base_of (digits4 idx n))), (digits4 idx n).
  split; [apply idx2seq_digits|].
  split.
  { rewrite <- list_ascii_length, list_ascii_of_string_of_list_ascii.
    now rewrite length_map, digits4_length. }
  split.
  { rewrite list_ascii_of_string_of_list_ascii. apply Forall_map.
    eapply Forall_impl; [|apply (digits4_codes idx n)].
    intros z Hz. unfold upper_base, bits2base.
    destruct (is_code_cases z Hz) as [->|[->|[->| ->]]]; cbn; tauto. }
  split; [apply seq2arr_base_of, digits4_codes | apply base4_value_digits].
Qed.

Lemma nth_error_flat_map_const {A B : Type} (f : A -> list B) (m : nat)
  (l : list A) (i j : nat) (a : A) :
  (forall x, length (f x) = m) -> nth_error l i = Some a -> (j < m)%nat ->
  nth_error (flat_map f l) (i * m + j) = nth_error (f a) j.
Proof.
  intros Hf. revert i. induction l as [|x l IH]; intros [|i] Hi Hj;
    try discriminate; cbn [flat_map nth_error] in *.
  - injection Hi as ->. rewrite nth_error_app1 by (rewrite Hf; exact Hj).
    reflexivity.
  - rewrite nth_error_app2 by (rewrite Hf; lia).
    rewrite Hf. replace (S i * m + j - m)%nat with (i * m + j)%nat by lia.
    now apply IH.
Qed.

Lemma enumerate_digits (n : nat) (idx : Z) :
  0 <= idx < 4 ^ Z.of_nat n ->
  nth_error (enumerate [0; 1; 2; 3] n) (Z.to_nat idx) = Some (digits4 idx n).
Proof.
  revert idx. induction n as [|n IH]; intros idx Hidx.
  - change (4 ^ Z.of_nat 0) with 1 in Hidx.
    replace idx with 0 by lia. reflexivity.
  - rewrite Nat2Z.inj_succ, Z.pow_succ_r in Hidx by lia.
    assert (Hq : 0 <= idx / 4 < 4 ^ Z.of_nat n).
    { split; [apply Z.div_pos; lia | apply Z.div_lt_upper_bound; lia]. }
    pose proof (Z.mod_pos_bound idx 4 ltac:(lia)) as Hr.
    cbn [enumerate].
    replace (Z.to_nat idx) with (Z.to_nat (idx / 4) * 4 + Z.to_nat (idx mod 4))%nat
      by (pose proof (Z.div_mod idx 4 ltac:(lia)); lia).
    rewrite (nth_error_flat_map_const _ 4 _ _ _ (digits4 (idx / 4) n));
      [|reflexivity | now apply IH | lia].
    rewrite digits4_S, Z.shiftr_div_pow2 by lia. change (2 ^ 2) with 4.
    change 3 with (Z.ones 2) at 2. rewrite Z.land_ones by lia.
    change (2 ^ 2) with 4.
    assert (Hc : idx mod 4 = 0 \/ idx mod 4 = 1 \/ idx mod 4 = 2 \/ idx mod 4 = 3)
      by lia.
    destruct Hc as [->|[->|[->| ->]]]; reflexivity.
Qed.

(** [idx2seq] agrees with the exhaustive array: for [0 <= idx < 4 ** length],
    [idx2seq(idx, length)] is the string of row [idx] of
    [make_array_with_all_dna_seqs(length)]. *)
Theorem idx2seq_row (length : nat) (idx : Z) :
  0 <= idx < 4 ^ Z.of_nat length ->
  exists arr r s,
    make_array_with_all_dna_seqs length bits2base = Ok arr /\
    nth_error arr (Z.to_nat idx) = Some r /\
    arr2seq r = Ok s /\
    idx2seq idx (Z.of_nat length) = Ok s.
Proof.
  intros Hidx.
  exists (enumerate [0; 1; 2; 3] length), (digits4 idx length),
         (string_of_list_ascii (map base_of (digits4 idx length))).
  split; [|split; [|split]].
  - now rewrite make_array_with_all_dna_seqs_enumerate.
  - now apply enumerate_digits.
  - apply arr2seq_codes, digits4_codes.
  - now rewrite idx2seq_digits, Nat2Z.id.
Qed.

Lemma idx2seq_row_witness :
  exists arr r s,
    make_array_with_all_dna_seqs 3 bits2base = Ok arr /\
    nth_error arr (Z.to_nat 27) = Some r /\
    arr2seq r = Ok s /\
    idx2seq 27 (Z.of_nat 3) = Ok s.
Proof.
  apply (idx2seq_row 3 27). split; [lia | reflexivity].
Defined.

(** ** Index pairs *)

Lemma combinations2_length {A : Type} (l : list A) :
  (2 * length (combinations2 l) = length l * (length l - 1))%nat.
Proof.
  induction l as [|a l IH]; [reflexivity|].
  cbn [combinations2 length]. rewrite length_app, length_map.
  replace (S (length l) - 1)%nat with (length l) by lia.
  destruct (length l) as [|k]; [cbn in *; lia|].
  replace (S k - 1)%nat with k in IH by lia. nia.
Qed.

Lemma combinations2_range (k s : nat) (i j : Z) :
  In (i, j) (combinations2 (map Z.of_nat (seq s k))) <->
  Z.of_nat s <= i < j /\ j < Z.of_nat (s + k).
Proof.
  revert s. induction k as [|k IH]; intros s.
  - cbn. split; [tauto | lia].
  - cbn [seq map combinations2]. rewrite in_app_iff, in_map_iff, IH.
    split.
    + intros [[b [E Hb]]|H].
      * injection E as <- <-. apply in_map_iff in Hb as [x [<- Hx]].
        apply in_seq in Hx. lia.
      * lia.
    + intros [H1 H2]. destruct (Z.eq_dec i (Z.of_nat s)) as [->|Hne].
      * left. exists j. split; [reflexivity|].
        apply in_map_iff. exists (Z.to_nat j). split; [lia|].
        apply in_seq. lia.
      * right. lia.
Qed.

Lemma seq_sorted (k s : nat) : StronglySorted lt (seq s k).
Proof.
  revert s. induction k as [|k IH]; intros s; cbn [seq]; constructor.
  - apply IH.
  - apply Forall_forall. intros x Hx. apply in_seq in Hx. lia.
Qed.

Lemma combinations2_sorted (k s : nat) :
  StronglySorted (lex Z.lt)
    (map (fun p : Z * Z => [fst p; snd p])
         (combinations2 (map Z.of_nat (seq s k)))).
Proof.
  revert s. induction k as [|k IH]; intros s; [constructor|].
  cbn [seq map combinations2]. rewrite map_app, map_map. cbn [fst snd].
  apply StronglySorted_app.
  - apply (StronglySorted_map Z.lt).
    + intros a b Hab. apply lex_tail, lex_head, Hab.
    + apply (StronglySorted_map lt); [intros a b; lia|].
      apply seq_sorted.
  - apply IH.
  - intros a b Ha Hb.
    apply in_map_iff in Ha as [x [<- Hx]].
    apply in_map_iff in Hb as [[i j] [<- Hij]].
    apply combinations2_range in Hij. cbn [fst snd].
    apply lex_head. lia.
Qed.

Lemma reshape_pairs_chain (l : list (Z * Z)) :
  reshape_pairs (flat_map (fun p => [fst p; snd p]) l) =
  Ok (map (fun p => [fst p; snd p]) l).
Proof.
  induction l as [|p l IH]; [reflexivity|].
  cbn [flat_map app reshape_pairs map]. now rewrite IH.
Qed.

(** [pair_index(n)] lists the pairs of indices below [n]: for [n >= 0] it
    returns [n (n - 1) / 2] rows of two entries, the rows are exactly the
    pairs [[i, j]] with [0 <= i < j < n], and they come in strictly
    increasing lexicographic order.  For a negative [n] it raises ValueError:
    the iterator is empty while [n (n - 1)] items are requested. *)
Theorem pair_index_spec (n : Z) :
  (n < 0 -> pair_index n = Raise ValueError) /\
  (0 <= n ->
   exists index,
     pair_index n = Ok index /\
     2 * Z.of_nat (length index) = n * (n - 1) /\
     (forall i j, In [i; j] index <-> 0 <= i < j /\ j < n) /\
     Forall (fun r => length r = 2%nat) index /\
     StronglySorted (lex Z.lt) index).
Proof.
  unfold pair_index. split.
  - intros Hn. replace (Z.to_nat n) with 0%nat by lia.
    cbn [seq map combinations2 flat_map]. unfold fromiter.
    replace (n * (n - 1) <? 0) with false by (symmetry; apply Z.ltb_ge; nia).
    cbn [length]. replace (Z.of_nat 0 <? n * (n - 1)) with true
      by (symmetry; apply Z.ltb_lt; nia).
    reflexivity.
  - intros Hn.
    set (combos := combinations2 (map Z.of_nat (seq 0 (Z.to_nat n)))).
    assert (Hlen : 2 * Z.of_nat (length combos) = n * (n - 1)).
    { pose proof (combinations2_length (map Z.of_nat (seq 0 (Z.to_nat n)))) as H.
      fold combos in H. rewrite length_map, length_seq in H.
      assert (Hm : n = Z.of_nat (Z.to_nat n)) by lia.
      destruct (Z.to_nat n) as [|k].
      - rewrite Hm. cbn in H |- *. lia.
      - replace (S k - 1)%nat with k in H by lia. rewrite Hm.
        replace (Z.of_nat (S k) - 1) with (Z.of_nat k) by lia.
        rewrite <- Nat2Z.inj_mul, <- H. lia. }
    assert (Hchain : length (flat_map (fun p : Z * Z => [fst p; snd p]) combos)
                     = (2 * length combos)%nat)
      by (apply flat_map_length_const; reflexivity).
    unfold fromiter.
    replace (n * (n - 1) <? 0) with false by (symmetry; apply Z.ltb_ge; nia).
    rewrite Hchain.
    replace (Z.of_nat (2 * length combos) <? n * (n - 1)) with false
      by (symmetry; apply Z.ltb_ge; lia).
    cbn [bind]. rewrite firstn_all2 by lia.
    rewrite reshape_pairs_chain.
    eexists. split; [reflexivity|]. rewrite length_map.
    split; [exact Hlen|]. split; [|split].
    + intros i j. rewrite in_map_iff. split.
      * intros [[a b] [E H]]. cbn [fst snd] in E. injection E as -> ->.
        apply combinations2_range in H. lia.
      * intros H. exists (i, j). split; [reflexivity|].
        apply combinations2_range. lia.
    + apply Forall_map, Forall_forall. intros p _. reflexivity.
    + apply combinations2_sorted.
Qed.

Lemma pair_index_spec_witness :
  pair_index (-1) = Raise ValueError /\
  exists index,
    pair_index 4 = Ok index /\
    2 * Z.of_nat (length index) = 4 * (4 - 1) /\
    (forall i j, In [i; j] index <-> 0 <= i < j /\ j < 4) /\
    Forall (fun r => length r = 2%nat) index /\
    StronglySorted (lex Z.lt) index.
Proof.
  split.
  - apply (pair_index_spec (-1)). lia.
  - apply (pair_index_spec 4). lia.
Defined.

(** ** Random subsets *)

Lemma row_compare_eq (r1 r2 : list Z) : row_compare r1 r2 = Eq <-> r1 = r2.
Proof.
  revert r2. induction r1 as [|a r1 IH]; intros [|b r2]; cbn [row_compare];
    try (split; [discriminate | discriminate]); [tauto|].
  destruct (Z.compare_spec a b) as [->|H|H].
  - rewrite IH. split; [intros ->; reflexivity | intros [= ->]; reflexivity].
  - split; [discriminate | intros [= -> _]; lia].
  - split; [discriminate | intros [= -> _]; lia].
Qed.

Lemma row_compare_antisym (r1 r2 : list Z) :
  row_compare r2 r1 = CompOpp (row_compare r1 r2).
Proof.
  revert r2. induction r1 as [|a r1 IH]; intros [|b r2]; cbn [row_compare];
    try reflexivity.
  rewrite (Z.compare_antisym a b).
  destruct (a ?= b); cbn [CompOpp]; [apply IH | reflexivity | reflexivity].
Qed.

Lemma row_compare_trans (r1 r2 r3 : list Z) :
  row_compare r1 r2 = Lt -> row_compare r2 r3 = Lt -> row_compare r1 r3 = Lt.
Proof.
  revert r2 r3. induction r1 as [|a r1 IH]; intros [|b r2] [|c r3];
    cbn [row_compare]; try discriminate; try reflexivity.
  destruct (Z.compare_spec a b) as [->|Hab|Hab]; try discriminate.
  - destruct (Z.compare_spec b c) as [->|Hbc|Hbc]; try discriminate.
    + apply IH.
    + reflexivity.
  - intros _. destruct (Z.compare_spec b c) as [->|Hbc|Hbc]; try discriminate.
    + intros _. destruct (Z.compare_spec a c); try lia. reflexivity.
    + intros _. destruct (Z.compare_spec a c); try lia. reflexivity.
Qed.

Lemma insert_unique_In (r : list Z) (m : list (list Z)) (x : list Z) :
  In x (insert_unique r m) <-> x = r \/ In x m.
Proof.
  induction m as [|r' m IH]; cbn [insert_unique].
  - cbn. intuition.
  - destruct (row_compare r r') eqn:E.
    + apply row_compare_eq in E. subst r'. cbn. intuition.
    + cbn. intuition.
    + cbn [In]. rewrite IH. intuition.
Qed.

Lemma insert_unique_sorted (r : list Z) (m : list (list Z)) :
  StronglySorted (fun a b => row_compare a b = Lt) m ->
  StronglySorted (fun a b => row_compare a b = Lt) (insert_unique r m).
Proof.
  induction 1 as [|r' m Hs IH Hall]; cbn [insert_unique].
  - repeat constructor.
  - destruct (row_compare r r') eqn:E.
    + constructor; assumption.
    + constructor; [constructor; assumption|].
      constructor; [exact E|].
      eapply Forall_impl; [|exact Hall].
      intros x Hx. cbv beta in *. eapply row_compare_trans; eauto.
    + constructor; [exact IH|].
      apply Forall_forall. intros x Hx.
      apply insert_unique_In in Hx as [->|Hx].
      * rewrite row_compare_antisym, E. reflexivity.
      * rewrite Forall_forall in Hall. now apply Hall.
Qed.

Lemma insert_unique_length (r : list Z) (m : list (list Z)) :
  (length (insert_unique r m) <= S (length m))%nat.
Proof.
  induction m as [|r' m IH]; cbn [insert_unique]; [cbn; lia|].
  destruct (row_compare r r'); cbn [length]; lia.
Qed.

Lemma np_unique_rows_spec (m : list (list Z)) :
  StronglySorted (fun a b => row_compare a b = Lt) (np_unique_rows m) /\
  (forall x, In x (np_unique_rows m) <-> In x m) /\
  (length (np_unique_rows m) <= length m)%nat.
Proof.
  unfold np_unique_rows. induction m as [|r m [IH1 [IH2 IH3]]]; cbn [fold_right].
  - split; [constructor|]. split; [tauto | lia].
  - split; [now apply insert_unique_sorted|]. split.
    + intros x. rewrite insert_unique_In, IH2. cbn. intuition.
    + pose proof (insert_unique_length r (fold_right insert_unique [] m)).
      cbn [length]. lia.
Qed.

Lemma sorted_NoDup (m : list (list Z)) :
  StronglySorted (fun a b => row_compare a b = Lt) m -> NoDup m.
Proof.
  induction 1 as [|r m _ IH Hall]; constructor; [|exact IH].
  intros Hin. rewrite Forall_forall in Hall. specialize (Hall r Hin).
  cbv beta in Hall.
  assert (E : row_compare r r = Eq) by (now apply row_compare_eq).
  congruence.
Qed.

(** [make_array_with_random_subset_of_dna_seqs] raises ValueError unless the
    alphabet has at least two symbols, all among A, C, G, T.  Otherwise its
    rows are the rows drawn by the generator, without repetition and in
    strictly increasing lexicographic order: there are at most as many as were
    drawn, and fewer when a row was drawn twice. *)
Theorem random_subset_spec (rng_choice : list Z -> nat -> nat -> list (list Z))
  (length num_seqs : nat) (bases : list ascii) :
  (subset_of_ACGT bases = false \/ (List.length bases < 2)%nat ->
   make_array_with_random_subset_of_dna_seqs rng_choice length num_seqs bases =
   Raise ValueError) /\
  (subset_of_ACGT bases = true -> (2 <= List.length bases)%nat ->
   exists base_bits arr,
     mapM base2bits bases = Ok base_bits /\
     make_array_with_random_subset_of_dna_seqs rng_choice length num_seqs bases =
     Ok arr /\
     StronglySorted (fun a b => row_compare a b = Lt) arr /\
     NoDup arr /\
     (forall r, In r arr <-> In r (rng_choice base_bits num_seqs length)) /\
     (List.length arr <= List.length (rng_choice base_bits num_seqs length))%nat).
Proof.
  unfold make_array_with_random_subset_of_dna_seqs. split.
  - intros [H|H].
    + now rewrite H.
    + destruct (subset_of_ACGT bases); [|reflexivity]. cbn [negb].
      destruct bases as [|a [|b bases]]; [reflexivity | reflexivity |].
      cbn [List.length] in H. lia.
  - intros Hs Hl. rewrite Hs. cbn [negb].
    destruct bases as [|a [|b bases]]; [cbn in Hl; lia | cbn in Hl; lia |].
    cbn [List.length Nat.eqb].
    assert (Hb : mapM base2bits (a :: b :: bases) =
                 Ok (map bits_of_base (a :: b :: bases))).
    { apply mapM_Ok_map. eapply Forall_impl; [|apply subset_of_ACGT_upper, Hs].
      intros c Hc. now apply base2bits_upper. }
    rewrite Hb. cbn [bind]. eexists. eexists. split; [reflexivity|].
    split; [reflexivity|].
    destruct (np_unique_rows_spec
                (rng_choice (map bits_of_base (a :: b :: bases)) num_seqs length))
      as [H1 [H2 H3]].
    split; [exact H1|]. split; [now apply sorted_NoDup|].
    split; [exact H2 | exact H3].
Qed.

Lemma random_subset_spec_witness :
  let rng_choice := fun (bits : list Z) (n l : nat) => repeat (repeat (hd 0 bits) l) n in
  make_array_with_random_subset_of_dna_seqs rng_choice 3 5 ["A"%char] =
  Raise ValueError /\
  exists base_bits arr,
    mapM base2bits ["G"; "T"]%char = Ok base_bits /\
    make_array_with_random_subset_of_dna_seqs rng_choice 3 5 ["G"; "T"]%char =
    Ok arr /\
    StronglySorted (fun a b => row_compare a b = Lt) arr /\
    NoDup arr /\
    (forall r, In r arr <-> In r (rng_choice base_bits 5%nat 3%nat)) /\
    (List.length arr <= List.length (rng_choice base_bits 5%nat 3%nat))%nat.
Proof.
  intros rng_choice. split.
  - apply (random_subset_spec rng_choice 3 5 ["A"%char]). right. cbn. lia.
  - apply (random_subset_spec rng_choice 3 5 ["G"; "T"]%char).
    + reflexivity.
    + cbn. lia.
Defined.

(** ** Correctness of the longest common substring *)

Lemma lcs_entry (a1 a2 : list Z) (i j : nat) :
  (j <= length a2)%nat ->
  nth j (layer_at (lcs_step a1 a2) (repeat 0 (S (length a2))) i) 0 =
  Z.of_nat (common_suffix a1 a2 i j).
Proof.
  revert j. induction i as [|i IH]; intros j Hj.
  - cbn [layer_at common_suffix]. now rewrite nth_repeat.
  - cbn [layer_at]. unfold lcs_step at 1, lcs_next.
    destruct j as [|j]; [reflexivity|].
    cbn [nth common_suffix].
    rewrite (nth_zip_with _ _ _ _ false 0 0);
      [|rewrite length_map; lia | rewrite lcs_table_rows; lia].
    rewrite (nth_indep _ false ((fun y => y =? nth i a1 0) 0))
      by (rewrite length_map; lia).
    rewrite (map_nth (fun y => y =? nth i a1 0)).
    rewrite IH by lia. rewrite (Z.eqb_sym (nth j a2 0)).
    destruct (nth i a1 0 =? nth j a2 0); lia.
Qed.

Lemma common_suffix_le (a1 a2 : list Z) (i j : nat) :
  (common_suffix a1 a2 i j <= i /\ common_suffix a1 a2 i j <= j)%nat.
Proof.
  revert j. induction i as [|i IH]; intros [|j]; cbn [common_suffix]; try lia.
  destruct (nth i a1 0 =? nth j a2 0); [|lia].
  specialize (IH j). lia.
Qed.

Lemma window_snoc (a : list Z) (s k : nat) :
  (s + k < length a)%nat ->
  window a s (S k) = window a s k ++ [nth (s + k) a 0].
Proof.
  unfold window. revert s k. induction a as [|x a IH]; intros s k H;
    [cbn in H; lia|].
  destruct s as [|s].
  - cbn [skipn Nat.add]. clear IH. revert x a H.
    induction k as [|k IHk]; intros x a H.
    + reflexivity.
    + destruct a as [|y a]; [cbn in H; lia|].
      cbn [firstn app nth]. f_equal.
      apply (IHk y a). cbn [length] in *. lia.
  - cbn [skipn Nat.add nth]. apply IH. cbn [length] in H. lia.
Qed.

Lemma common_suffix_window (a1 a2 : list Z) (i j : nat) :
  (i <= length a1)%nat -> (j <= length a2)%nat ->
  let c := common_suffix a1 a2 i j in
  window a1 (i - c) c = window a2 (j - c) c.
Proof.
  revert j. induction i as [|i IH]; intros [|j] Hi Hj; cbn [common_suffix];
    try reflexivity.
  destruct (Z.eqb_spec (nth i a1 0) (nth j a2 0)) as [E|E]; [|reflexivity].
  cbv zeta. specialize (IH j ltac:(lia) ltac:(lia)). cbv zeta in IH.
  pose proof (common_suffix_le a1 a2 i j) as [H1 H2].
  set (c := common_suffix a1 a2 i j) in *.
  replace (S i - S c)%nat with (i - c)%nat by lia.
  replace (S j - S c)%nat with (j - c)%nat by lia.
  rewrite !window_snoc by lia. rewrite IH.
  replace (i - c + c)%nat with i by lia.
  replace (j - c + c)%nat with j by lia.
  now rewrite E.
Qed.

Lemma common_suffix_max (a1 a2 : list Z) (k s1 s2 : nat) :
  (s1 + k <= length a1)%nat -> (s2 + k <= length a2)%nat ->
  window a1 s1 k = window a2 s2 k ->
  (k <= common_suffix a1 a2 (s1 + k) (s2 + k))%nat.
Proof.
  induction k as [|k IH]; intros H1 H2 Hw; [lia|].
  rewrite !window_snoc in Hw by lia.
  apply app_inj_tail in Hw as [Hw Hlast].
  specialize (IH ltac:(lia) ltac:(lia) Hw).
  replace (s1 + S k)%nat with (S (s1 + k)) by lia.
  replace (s2 + S k)%nat with (S (s2 + k)) by lia.
  cbn [common_suffix]. rewrite Hlast, Z.eqb_refl. lia.
Qed.

Lemma argmax_from_max (l pre : list Z) (bi : nat) (b : Z) :
  (bi < length pre)%nat -> nth bi pre 0 = b -> Forall (fun y => y <= b) pre ->
  let r := argmax_from Z.ltb bi b (length pre) l in
  (r < length (pre ++ l))%nat /\
  Forall (fun y => y <= nth r (pre ++ l) 0) (pre ++ l).
Proof.
  revert pre bi b. induction l as [|x l IH]; intros pre bi b Hbi Hb Hall.
  - cbn [argmax_from]. rewrite app_nil_r. split; [lia|]. now rewrite Hb.
  - cbn [argmax_from].
    replace (pre ++ x :: l) with ((pre ++ [x]) ++ l) by (now rewrite <- app_assoc).
    replace (S (length pre)) with (length (pre ++ [x]))
      by (rewrite length_app; cbn; lia).
    destruct (Z.ltb_spec b x) as [Hlt|Hge].
    + apply IH.
      * rewrite length_app. cbn. lia.
      * now rewrite nth_middle.
      * apply Forall_app. split.
        -- eapply Forall_impl; [|exact Hall]. intros y Hy. cbv beta in *. lia.
        -- constructor; [lia | constructor].
    + apply IH.
      * rewrite length_app. lia.
      * now rewrite app_nth1.
      * apply Forall_app. split; [exact Hall|]. constructor; [lia | constructor].
Qed.

Lemma first_max_max (l : list Z) (q : nat) :
  nth q l 0 <= nth (first_max l) l 0 \/ (length l <= q)%nat.
Proof.
  destruct (le_lt_dec (length l) q) as [H|H]; [now right|]. left.
  destruct l as [|x l]; [cbn in H; lia|].
  unfold first_max.
  destruct (argmax_from_max l [x] 0 x) as [_ Hall];
    [cbn; lia | reflexivity | repeat constructor; lia |].
  cbn [length app] in Hall. rewrite Forall_forall in Hall.
  apply Hall. now apply nth_In.
Qed.

Lemma lcs_flat_entry (a1 a2 : list Z) (i j : nat) :
  (i <= length a1)%nat -> (j <= length a2)%nat ->
  nth (i * S (length a2) + j) (concat (lcs_table a1 a2)) 0 =
  Z.of_nat (common_suffix a1 a2 i j).
Proof.
  intros Hi Hj.
  rewrite (nth_concat_rect 0 (S (length a2))) by (auto using lcs_table_rect).
  rewrite Nat.div_add_l, Nat.div_small, Nat.add_0_r by lia.
  rewrite Nat.add_comm, Nat.Div0.mod_add, Nat.mod_small by lia.
  unfold lcs_table.
  rewrite (nth_indep _ [] (layer_at (lcs_step a1 a2) (repeat 0 (S (length a2))) 0))
    by (rewrite length_map, length_seq; lia).
  rewrite (map_nth (layer_at (lcs_step a1 a2) (repeat 0 (S (length a2))))).
  rewrite seq_nth by lia. cbn [Nat.add]. now apply lcs_entry.
Qed.

Lemma best_window_correct (a1 a2 : list Z) :
  exists s1 s2 l,
    best_window a1 a2 = (s1, s2, l) /\
    (forall i j k,
       (i + k <= length a1)%nat -> (j + k <= length a2)%nat ->
       window a1 i k = window a2 j k -> Z.of_nat k <= l) /\
    0 <= l /\ 0 <= s1 /\ 0 <= s2 /\
    s1 + l <= Z.of_nat (length a1) /\ s2 + l <= Z.of_nat (length a2) /\
    window a1 (Z.to_nat s1) (Z.to_nat l) = window a2 (Z.to_nat s2) (Z.to_nat l).
Proof.
  unfold best_window.
  set (W := S (length a2)).
  set (flat := concat (lcs_table a1 a2)).
  set (r := first_max flat).
  assert (Hflat : length flat = (S (length a1) * W)%nat).
  { unfold flat. rewrite (concat_rect_length W) by apply lcs_table_rect.
    now rewrite lcs_table_length. }
  assert (Hr : (r < length flat)%nat).
  { apply first_max_spec, lcs_flat_nonempty. }
  assert (Hi : (r / W <= length a1)%nat).
  { apply Nat.lt_succ_r. apply Nat.Div0.div_lt_upper_bound. lia. }
  assert (Hj : (r mod W <= length a2)%nat).
  { pose proof (Nat.mod_upper_bound r W ltac:(unfold W; lia)). unfold W in *. lia. }
  assert (Hl : nth r flat 0 = Z.of_nat (common_suffix a1 a2 (r / W) (r mod W))).
  { rewrite <- (lcs_flat_entry a1 a2 (r / W) (r mod W) Hi Hj). fold W flat.
    f_equal. pose proof (Nat.div_mod_eq r W). lia. }
  pose proof (common_suffix_le a1 a2 (r / W) (r mod W)) as [Hc1 Hc2].
  pose proof (common_suffix_window a1 a2 (r / W) (r mod W) Hi Hj) as Hwin.
  cbv zeta in Hwin.
  set (c := common_suffix a1 a2 (r / W) (r mod W)) in *.
  eexists. eexists. eexists. split; [reflexivity|]. rewrite Hl. split.
  { intros i j k H1 H2 Hw.
    pose proof (common_suffix_max a1 a2 k i j H1 H2 Hw) as Hk.
    pose proof (lcs_flat_entry a1 a2 (i + k) (j + k) H1 H2) as He.
    fold W flat in He.
    destruct (first_max_max flat ((i + k) * W + (j + k))) as [Hm|Hm].
    - fold r in Hm. lia.
    - rewrite Hflat in Hm. unfold W in Hm. nia. }
  split; [lia|]. split; [lia|]. split; [lia|]. split; [lia|]. split; [lia|].
  replace (Z.to_nat (Z.of_nat (r / W) - Z.of_nat c)) with (r / W - c)%nat by lia.
  replace (Z.to_nat (Z.of_nat (r mod W) - Z.of_nat c)) with (r mod W - c)%nat
    by lia.
  rewrite Nat2Z.id. exact Hwin.
Qed.

(** ** What the Hamming filter guarantees *)

Lemma FOP_snoc {A : Type} (R : A -> A -> Prop) (l : list A) (x : A) :
  ForallOrdPairs R l -> Forall (fun k => R k x) l -> ForallOrdPairs R (l ++ [x]).
Proof.
  induction 1 as [|a l Ha _ IH]; intros Hx; cbn [app].
  - repeat constructor.
  - inversion Hx as [|? ? Hax Hx']; subst. constructor.
    + apply Forall_app. split; [exact Ha | repeat constructor; exact Hax].
    + now apply IH.
Qed.

Lemma FOP_removelast {A : Type} (R : A -> A -> Prop) (l : list A) :
  ForallOrdPairs R l -> ForallOrdPairs R (removelast l).
Proof.
  induction 1 as [|a l Ha Hl IH]; [constructor|].
  destruct l as [|b l]; [constructor|].
  change (removelast (a :: b :: l)) with (a :: removelast (b :: l)).
  constructor; [|exact IH].
  apply Forall_forall. intros x Hx. rewrite Forall_forall in Ha. apply Ha.
  clear - Hx. revert b Hx. induction l as [|c l IHl]; intros b Hx; [contradiction|].
  change (removelast (b :: c :: l)) with (b :: removelast (c :: l)) in Hx.
  destruct Hx as [->|Hx]; [now left | right; now apply IHl].
Qed.

Lemma pop_array_last (self : DNASeqList) :
  rows (seqarr self) <> [] ->
  exists self',
    pop_array self = Ok (last (rows (seqarr self)) [], self') /\
    rows (seqarr self') = removelast (rows (seqarr self)).
Proof.
  intros Hne. unfold pop_array.
  rewrite (getitem_last _ []) by assumption. cbn [bind].
  eexists. split; reflexivity.
Qed.

Lemma in_removelast {A : Type} (l : list A) (x : A) :
  In x (removelast l) -> In x l.
Proof.
  induction l as [|a [|b l] IH]; [contradiction | contradiction |].
  change (removelast (a :: b :: l)) with (a :: removelast (b :: l)).
  intros [->|H]; [now left | right; now apply IH].
Qed.

Lemma in_last {A : Type} (l : list A) (d : A) : l <> [] -> In (last l d) l.
Proof.
  intros Hne. destruct (exists_last Hne) as [l' [x ->]]. rewrite last_last.
  apply in_or_app. right. now left.
Qed.

Lemma hamming_min_of_far (threshold : Z) (keep : list (list Z)) (seq : list Z)
  (d : Z) :
  hamming_min_of keep seq = Ok d -> (d <? threshold) = false ->
  Forall (fun k => threshold <= hamming k seq) keep.
Proof.
  unfold hamming_min_of. intros E Hd. apply Z.ltb_ge in Hd.
  destruct keep as [|k keep]; [constructor|].
  destruct (np_min_spec (map (fun k0 => hamming k0 seq) (k :: keep)))
    as [d' [E' [_ Hall]]]; [discriminate|].
  rewrite E in E'. injection E' as <-.
  rewrite Forall_map in Hall. eapply Forall_impl; [|exact Hall].
  intros x Hx. cbv beta in Hx. lia.
Qed.

Lemma filter_hamming_inner_checked (fuel : nat) (threshold : Z)
  (keep : list (list Z)) :
  forall (seq : list Z) (self : DNASeqList) (seq' : list Z) (self' : DNASeqList),
    filter_hamming_inner fuel threshold keep seq self = Some (Ok (seq', self')) ->
    (rows (seqarr self') = [] \/
     Forall (fun k => threshold <= hamming k seq') keep) /\
    (forall x, In x (seq' :: rows (seqarr self')) ->
               In x (seq :: rows (seqarr self))).
Proof.
  induction fuel as [|fuel IH]; intros seq self seq' self' E; [discriminate|].
  cbn [filter_hamming_inner] in E.
  destruct (0 <? length (rows (seqarr self)))%nat eqn:Hpos.
  - destruct (hamming_min_of keep seq) as [d|e] eqn:Hd; [|discriminate].
    destruct (d <? threshold) eqn:Hclose; cbn [negb] in E.
    + destruct (pop_array_last self (rows_nonempty_ltb _ Hpos)) as [s1 [Hp Hr]].
      rewrite Hp in E. apply IH in E as [E1 E2]. split; [exact E1|].
      intros x Hx. apply E2 in Hx. right. destruct Hx as [<-|Hx].
      * apply in_last. now apply rows_nonempty_ltb.
      * rewrite Hr in Hx. now apply in_removelast.
    + injection E as <- <-. split; [|auto].
      right. eapply hamming_min_of_far; eauto.
  - injection E as <- <-. split; [|auto]. left.
    destruct (rows (seqarr self)); [reflexivity | discriminate].
Qed.

Lemma filter_hamming_outer_guarantee (fuel : nat) (threshold : Z) :
  forall (keep : list (list Z)) (self : DNASeqList)
         (keep' : list (list Z)) (self' : DNASeqList),
    ForallOrdPairs (fun a b => threshold <= hamming a b) keep ->
    filter_hamming_outer fuel threshold keep self = Some (Ok (keep', self')) ->
    ForallOrdPairs (fun a b => threshold <= hamming a b) (removelast keep') /\
    (forall x, In x keep' -> In x keep \/ In x (rows (seqarr self))) /\
    (exists more, keep' = keep ++ more).
Proof.
  induction fuel as [|fuel IH]; intros keep self keep' self' Hk E; [discriminate|].
  cbn [filter_hamming_outer] in E.
  destruct (0 <? length (rows (seqarr self)))%nat eqn:Hpos.
  - destruct (pop_array_last self (rows_nonempty_ltb _ Hpos)) as [s1 [Hp Hr]].
    rewrite Hp in E.
    destruct (filter_hamming_inner (S fuel) threshold keep
                (last (rows (seqarr self)) []) s1) as [[[seq2 self2]|e]|] eqn:Ei;
      try discriminate.
    apply filter_hamming_inner_checked in Ei as [Hc Hin].
    assert (Hin' : forall x, In x (seq2 :: rows (seqarr self2)) ->
                             In x (rows (seqarr self))).
    { intros x Hx. apply Hin in Hx as [<-|Hx].
      - apply in_last. now apply rows_nonempty_ltb.
      - rewrite Hr in Hx. now apply in_removelast. }
    destruct Hc as [Hempty|Hfar].
    + destruct fuel as [|fuel']; [discriminate|].
      cbn [filter_hamming_outer] in E. rewrite Hempty in E. cbn in E.
      injection E as <- <-. rewrite removelast_last.
      split; [exact Hk|]. split.
      * intros x Hx. apply in_app_or in Hx as [Hx|[<-|[]]]; [now left|].
        right. apply Hin'. now left.
      * eauto.
    + apply IH in E; [|now apply FOP_snoc].
      destruct E as [E1 [E2 [more E3]]]. split; [exact E1|]. split.
      * intros x Hx. apply E2 in Hx as [Hx|Hx].
        -- apply in_app_or in Hx as [Hx|[<-|[]]]; [now left|].
           right. apply Hin'. now left.
        -- right. apply Hin'. now right.
      * exists ([seq2] ++ more). now rewrite app_assoc.
  - injection E as <- <-. split; [now apply FOP_removelast|].
    split; [auto|]. exists []. now rewrite app_nil_r.
Qed.

(** What [filter_hamming] guarantees.  On a non-empty list, whatever
    permutation the shuffle applies, it returns; the sequences retained are
    sequences of the list, the first of them the last sequence of the list;
    and all retained sequences but the one appended last are pairwise at
    Hamming distance at least [threshold].  (The sequence appended last is
    not compared with the others.) *)
Theorem filter_hamming_guarantee (rng_shuffle : list (list Z) -> list (list Z))
  (self : DNASeqList) (threshold : Z) :
  (forall m, Permutation m (rng_shuffle m)) ->
  rows (seqarr self) <> [] ->
  exists kept,
    filter_hamming rng_shuffle (length (rows (seqarr self))) self threshold
    = Some (Ok kept) /\
    numseqs kept = Z.of_nat (length (rows (seqarr kept))) /\
    (forall x, In x (rows (seqarr kept)) -> In x (rows (seqarr self))) /\
    hd_error (rows (seqarr kept)) = Some (last (rows (seqarr self)) []) /\
    ForallOrdPairs (fun a b => threshold <= hamming a b)
                   (removelast (rows (seqarr kept))).
Proof.
  intros Hperm Hne.
  destruct (filter_hamming_returns rng_shuffle self threshold) as [kept E];
    [intros m; symmetry; apply Permutation_length, Hperm | exact Hne |].
  exists kept. split; [exact E|].
  unfold filter_hamming in E.
  destruct (pop_array_last self Hne) as [s1 [Hp Hr]]. rewrite Hp in E.
  destruct (filter_hamming_outer (length (rows (seqarr self))) threshold
              [last (rows (seqarr self)) []] (shuffle rng_shuffle s1))
    as [[[keep' self3]|e]|] eqn:Eo; try discriminate.
  injection E as <-. cbn [numseqs seqarr rows].
  apply filter_hamming_outer_guarantee in Eo as [H1 [H2 [more H3]]];
    [|repeat constructor].
  split; [reflexivity|]. split; [|split].
  - intros x Hx. apply H2 in Hx as [[<-|[]]|Hx].
    + now apply in_last.
    + unfold shuffle in Hx. cbn [seqarr rows] in Hx.
      apply (Permutation_in _ (Permutation_sym (Hperm _))) in Hx.
      rewrite Hr in Hx. now apply in_removelast.
  - rewrite H3. reflexivity.
  - exact H1.
Qed.

Lemma filter_hamming_guarantee_witness :
  let self :=
    DNASeqList_of_seqarr
      (mk_ndarray2 [[0; 0; 0; 0]; [0; 0; 0; 1]; [3; 3; 3; 3]; [0; 0; 1; 1]] 4) in
  exists kept,
    filter_hamming (fun m => m) (length (rows (seqarr self))) self 2
    = Some (Ok kept) /\
    numseqs kept = Z.of_nat (length (rows (seqarr kept))) /\
    (forall x, In x (rows (seqarr kept)) -> In x (rows (seqarr self))) /\
    hd_error (rows (seqarr kept)) = Some (last (rows (seqarr self)) []) /\
    ForallOrdPairs (fun a b => 2 <= hamming a b)
                   (removelast (rows (seqarr kept))).
Proof.
  intros self.
  apply (filter_hamming_guarantee (fun m => m) self 2).
  - intros m. apply Permutation_refl.
  - discriminate.
Defined.

(** ** The energy of a sequence and of its complement *)

Lemma pair_indices_row_snoc (r : list Z) (a b : Z) :
  pair_indices_row (r ++ [a; b]) =
  pair_indices_row (r ++ [a]) ++ [ubyte_add (ubyte_shl a 2) b].
Proof.
  induction r as [|x r IH]; [reflexivity|].
  destruct r as [|y r].
  - reflexivity.
  - change ((x :: y :: r) ++ [a; b]) with (x :: y :: (r ++ [a; b])).
    change ((x :: y :: r) ++ [a]) with (x :: y :: (r ++ [a])).
    rewrite !pair_indices_row_cons2.
    change (y :: r ++ [a; b]) with ((y :: r) ++ [a; b]).
    change (y :: r ++ [a]) with ((y :: r) ++ [a]).
    now rewrite IH.
Qed.

Lemma loop_energies_symmetric (t : spec_float) (negate : bool) (a b : Z) :
  is_code a -> is_code b ->
  getitem (fdata (calculate_loop_energies t negate))
          (ubyte_add (ubyte_shl (ubyte_sub 3 b) 2) (ubyte_sub 3 a)) =
  getitem (fdata (calculate_loop_energies t negate)) (ubyte_add (ubyte_shl a 2) b).
Proof.
  intros Ha Hb.
  destruct (is_code_cases a Ha) as [->|[->|[->| ->]]];
  destruct (is_code_cases b Hb) as [->|[->|[->| ->]]];
  destruct negate; reflexivity.
Qed.

Lemma complement_terms (t : spec_float) (negate : bool) (r : list Z)
  (terms : list spec_float) :
  codes_row r ->
  mapM (getitem (fdata (calculate_loop_energies t negate))) (pair_indices_row r) = Ok terms ->
  mapM (getitem (fdata (calculate_loop_energies t negate)))
       (pair_indices_row (rev (map (fun x => ubyte_sub 3 x) r))) = Ok (rev terms).
Proof.
  intros Hr. revert terms. induction Hr as [|a r Ha Hr IH]; intros terms E.
  - injection E as <-. reflexivity.
  - destruct r as [|b r].
    + injection E as <-. reflexivity.
    + inversion Hr as [|? ? Hb _]; subst.
      rewrite pair_indices_row_cons2 in E. cbn [mapM] in E.
      apply bind_Ok in E as [e [Ee E]]. apply bind_Ok in E as [es [Ees E]].
      injection E as <-.
      specialize (IH es Ees).
      cbn [map rev] in IH |- *. rewrite <- app_assoc. cbn [app].
      rewrite pair_indices_row_snoc.
      erewrite mapM_app; [reflexivity | exact IH |].
      cbn [mapM]. rewrite loop_energies_symmetric, Ee by assumption.
      reflexivity.
Qed.

Lemma wc_row_codes (r : list Z) :
  codes_row r -> codes_row (rev (map (fun x => ubyte_sub 3 x) r)).
Proof.
  intros H. apply Forall_rev, Forall_map.
  eapply Forall_impl; [|exact H]. intros a Ha.
  destruct (is_code_cases a Ha) as [->|[->|[->| ->]]]; unfold is_code; cbn; lia.
Qed.

Lemma wc_row_terms (t : spec_float) (negate : bool) (r : list Z) :
  codes_row r ->
  row_terms (calculate_loop_energies t negate) (rev (map (fun x => ubyte_sub 3 x) r))
  = rev (row_terms (calculate_loop_energies t negate) r).
Proof.
  intros Hr.
  pose proof (loop_energies_length t negate) as Hlen.
  pose proof (complement_terms t negate r _ Hr
                (gathered_row_terms _ r Hlen Hr)) as E.
  rewrite (gathered_row_terms _ _ Hlen (wc_row_codes r Hr)) in E.
  now injection E.
Qed.

(** A sequence and its Watson-Crick complement are given the same stacking
    terms, in reverse order: at every temperature the entry of
    [calculate_wc_energies(wc_arr(seqarr))] for a sequence is the [np.sum] of
    the terms of that sequence reversed.  (The table gives a pair of symbols
    and its reverse complement the same entry.)  The two energies can
    differ by the rounding of the two orders. *)
Theorem wc_energy_terms_reversed (seqarr : list (list Z)) (t : spec_float)
  (negate : bool) :
  codes seqarr ->
  let table := calculate_loop_energies t negate in
  calculate_wc_energies seqarr t negate =
    Ok (mk_farray (fdtype table)
                  (map (fun r => np_sum (fdtype table) (row_terms table r)) seqarr)) /\
  calculate_wc_energies (wc_arr seqarr) t negate =
    Ok (mk_farray (fdtype table)
                  (map (fun r => np_sum (fdtype table) (rev (row_terms table r)))
                       seqarr)).
Proof.
  intros Hc table. split.
  - now rewrite calculate_wc_energies_codes.
  - rewrite calculate_wc_energies_codes.
    + unfold wc_arr. rewrite map_map. do 2 f_equal.
      apply map_ext_in. intros r Hr. unfold batched_energy. fold table.
      unfold table. rewrite wc_row_terms; [reflexivity|].
      unfold codes in Hc. rewrite Forall_forall in Hc. now apply Hc.
    + unfold wc_arr, codes. apply Forall_map.
      eapply Forall_impl; [|exact Hc]. apply wc_row_codes.
Qed.

Lemma wc_energy_terms_reversed_witness :
  let table := calculate_loop_energies (float_of_int 37) false in
  calculate_wc_energies [[0; 1; 1; 2]; [3; 0; 2; 2]] (float_of_int 37) false =
    Ok (mk_farray (fdtype table)
                  (map (fun r => np_sum (fdtype table) (row_terms table r))
                       [[0; 1; 1; 2]; [3; 0; 2; 2]])) /\
  calculate_wc_energies (wc_arr [[0; 1; 1; 2]; [3; 0; 2; 2]]) (float_of_int 37) false =
    Ok (mk_farray (fdtype table)
                  (map (fun r => np_sum (fdtype table) (rev (row_terms table r)))
                       [[0; 1; 1; 2]; [3; 0; 2; 2]])).
Proof.
  apply (wc_energy_terms_reversed [[0; 1; 1; 2]; [3; 0; 2; 2]] (float_of_int 37) false).
  repeat constructor; unfold is_code; lia.
Defined.

(** ** Reading a file *)

Lemma parse_digits_uint (d : Decimal.uint) (acc : Z) (b : bool) :
  b = true \/ d <> Decimal.Nil ->
  parse_digits acc b (list_ascii_of_string (NilEmpty.string_of_uint d)) =
  Ok (uint_value acc d).
Proof.
  revert acc b. induction d; intros acc b Hb;
    cbn [NilEmpty.string_of_uint list_ascii_of_string parse_digits uint_value];
    try (change (digit_of "0") with (Some 0);
         change (digit_of "1") with (Some 1);
         change (digit_of "2") with (Some 2);
         change (digit_of "3") with (Some 3);
         change (digit_of "4") with (Some 4);
         change (digit_of "5") with (Some 5);
         change (digit_of "6") with (Some 6);
         change (digit_of "7") with (Some 7);
         change (digit_of "8") with (Some 8);
         change (digit_of "9") with (Some 9);
         cbv iota; rewrite ?Z.add_0_r; apply IHd; now left).
  destruct Hb as [->|H]; [reflexivity | congruence].
Qed.

Lemma of_uint_acc_value (d : Decimal.uint) (acc : positive) :
  Z.pos (Pos.of_uint_acc d acc) = uint_value (Z.pos acc) d.
Proof.
  revert acc. induction d; intros acc; cbn [Pos.of_uint_acc uint_value];
    try reflexivity; rewrite IHd; f_equal; lia.
Qed.

Lemma of_uint_value (d : Decimal.uint) :
  Z.of_N (Pos.of_uint d) = uint_value 0 d.
Proof.
  induction d; cbn [Pos.of_uint uint_value]; try reflexivity;
    try exact IHd; cbn [Z.of_N]; rewrite of_uint_acc_value; reflexivity.
Qed.

Lemma lstrip_spaces (s r : list ascii) :
  Forall (fun c => is_space c = true) s ->
  match r with [] => True | c :: _ => is_space c = false end ->
  lstrip (s ++ r) = r.
Proof.
  induction 1 as [|c s Hc _ IH]; intros Hr; cbn [app lstrip].
  - destruct r as [|c r]; [reflexivity|]. cbn [lstrip]. now rewrite Hr.
  - rewrite Hc. now apply IH.
Qed.

Lemma strip_word (w spaces : list ascii) :
  Forall (fun c => is_space c = false) w ->
  Forall (fun c => is_space c = true) spaces ->
  strip (w ++ spaces) = w.
Proof.
  intros Hw Hs. unfold strip. destruct w as [|c w].
  - cbn [app]. rewrite <- (app_nil_r spaces).
    rewrite (lstrip_spaces spaces []) by auto. reflexivity.
  - assert (E1 : lstrip ((c :: w) ++ spaces) = (c :: w) ++ spaces).
    { apply (lstrip_spaces [] ((c :: w) ++ spaces)); [constructor|].
      cbn [app]. now inversion Hw. }
    rewrite E1, rev_app_distr.
    rewrite lstrip_spaces; [apply rev_involutive | now apply Forall_rev |].
    destruct (rev (c :: w)) as [|x r] eqn:E; [exact I|].
    rewrite Forall_forall in Hw. apply Hw. apply in_rev. rewrite E. now left.
Qed.

Lemma parse_int_str_of_int (n : Z) : 0 <= n -> parse_int (str_of_int n) = Ok n.
Proof.
  intros Hn. unfold parse_int.
  rewrite <- (app_nil_r (str_of_int n)).
  rewrite strip_word by (auto using str_of_int_not_space).
  unfold str_of_int, NilZero.string_of_int.
  destruct n as [|p|p]; [reflexivity | | lia].
  cbn [Z.to_int]. unfold NilZero.string_of_uint.
  pose proof (DecimalPos.Unsigned.to_uint_nonnil p) as Hnn.
  pose proof (DecimalPos.Unsigned.of_to p) as Hof.
  apply (f_equal Z.of_N) in Hof. rewrite of_uint_value in Hof. cbn [Z.of_N] in Hof.
  destruct (Pos.to_uint p) as [|d|d|d|d|d|d|d|d|d|d] eqn:E; [congruence| | | | | | | | | |];
    rewrite <- Hof;
    cbn [NilEmpty.string_of_uint list_ascii_of_string];
    match goal with
    | |- context [Ascii.eqb ?c "-"] => change (Ascii.eqb c "-") with false
    end;
    match goal with
    | |- context [Ascii.eqb ?c "+"] => change (Ascii.eqb c "+") with false
    end;
    cbv iota;
    match goal with
    | |- parse_digits 0 false (?c :: list_ascii_of_string (NilEmpty.string_of_uint ?d')) = _ =>
        first
          [ apply (parse_digits_uint (Decimal.D0 d') 0 false)
          | apply (parse_digits_uint (Decimal.D1 d') 0 false)
          | apply (parse_digits_uint (Decimal.D2 d') 0 false)
          | apply (parse_digits_uint (Decimal.D3 d') 0 false)
          | apply (parse_digits_uint (Decimal.D4 d') 0 false)
          | apply (parse_digits_uint (Decimal.D5 d') 0 false)
          | apply (parse_digits_uint (Decimal.D6 d') 0 false)
          | apply (parse_digits_uint (Decimal.D7 d') 0 false)
          | apply (parse_digits_uint (Decimal.D8 d') 0 false)
          | apply (parse_digits_uint (Decimal.D9 d') 0 false) ]
    end; right; discriminate.
Qed.

Lemma base2bits_not_space (c : ascii) (z : Z) :
  base2bits c = Ok z -> is_space c = false.
Proof.
  destruct c as [[] [] [] [] [] [] [] []]; cbn; intros H;
    try discriminate; reflexivity.
Qed.

Lemma seq2arr_not_space (s : string) (arr : list Z) :
  seq2arr s = Ok arr ->
  Forall (fun c => is_space c = false) (list_ascii_of_string s).
Proof.
  unfold seq2arr. intros H. apply mapM_Forall2_inv in H.
  induction H as [|c z l zs Hc _ IH]; constructor; [|exact IH].
  eapply base2bits_not_space; eauto.
Qed.

Lemma header_three_fields (n l : Z) (third : list ascii) :
  third <> [] -> Forall (fun c => is_space c = false) third ->
  split (str_of_int n ++ " "%char :: str_of_int l ++ " "%char :: third
         ++ [newline]) =
  [str_of_int n; str_of_int l; third].
Proof.
  intros Hne Hthird. unfold split.
  rewrite split_ws_word by apply str_of_int_not_space.
  rewrite app_nil_r. cbn [app split_ws].
  change (is_space " ") with true. cbv iota.
  destruct (rev (str_of_int n)) as [|c0 w0] eqn:E0.
  { apply (f_equal (@rev ascii)) in E0. rewrite rev_involutive in E0.
    now apply str_of_int_nonempty in E0. }
  rewrite <- E0, rev_involutive. f_equal.
  rewrite split_ws_word by apply str_of_int_not_space.
  rewrite app_nil_r. cbn [app split_ws].
  change (is_space " ") with true. cbv iota.
  destruct (rev (str_of_int l)) as [|c1 w1] eqn:E1.
  { apply (f_equal (@rev ascii)) in E1. rewrite rev_involutive in E1.
    now apply str_of_int_nonempty in E1. }
  rewrite <- E1, rev_involutive. f_equal.
  rewrite split_ws_word by exact Hthird.
  rewrite app_nil_r. cbn [split_ws]. rewrite is_space_newline.
  destruct (rev third) as [|c2 w2] eqn:E2.
  { apply (f_equal (@rev ascii)) in E2. rewrite rev_involutive in E2.
    cbn [rev] in E2. congruence. }
  now rewrite <- E2, rev_involutive.
Qed.

Lemma read_rows_lines (l : nat) (seqs : list string) (m : list (list Z)) :
  Forall (fun s => str_len s = l) seqs ->
  mapM seq2arr seqs = Ok m ->
  read_rows (length seqs) l
    (concat (map (fun s => list_ascii_of_string s ++ [newline]) seqs)) = Ok m.
Proof.
  intros Hl. revert m. induction Hl as [|s seqs Hs _ IH]; intros m Hm.
  - injection Hm as <-. reflexivity.
  - cbn [mapM] in Hm.
    apply bind_Ok in Hm as [arr [Ea Hm]]. apply bind_Ok in Hm as [m' [Em Hm]].
    injection Hm as <-.
    cbn [length map concat read_rows]. rewrite <- app_assoc. cbn [app].
    pose proof (seq2arr_not_space s arr Ea) as Hns.
    rewrite readline_word
      by (eapply Forall_impl; [|exact Hns]; intros c Hc; now left).
    rewrite strip_word; [|exact Hns | repeat constructor; apply is_space_newline].
    unfold seq2arr in Ea. rewrite Ea. cbn [bind].
    destruct (mapM_base2bits_codes _ _ Ea) as [Hal _].
    rewrite list_ascii_length, Hs in Hal.
    unfold assign_row. rewrite Hal, Nat.eqb_refl. cbn [bind].
    now rewrite (IH m' Em).
Qed.

(** The reader accepts the writer's format once the header has a third
    field.  For a file holding the header [numseqs seqlen third] (any
    non-empty third word) and then one line per sequence, all sequences of
    [seqlen] valid symbols, [DNASeqList(filename=...)] succeeds and holds the
    encoded sequences, with [numseqs] and [seqlen] as in the header.  A
    missing file raises FileNotFoundError. *)
Theorem read_file_with_third_field
  (rng_choice : list Z -> nat -> nat -> list (list Z))
  (rng_shuffle : list (list Z) -> list (list Z))
  (fs : filesystem) (filename : string) :
  (fs filename = None ->
   DNASeqList_init rng_choice rng_shuffle fs
     {| arg_length := None; arg_num_random_seqs := None; arg_shuffle := false;
        arg_alphabet := bits2base; arg_seqs := None; arg_seqarr := None;
        arg_filename := Some filename |} = Raise FileNotFoundError) /\
  (forall (seqs : list string) (m : list (list Z)) (l : nat) (third : list ascii),
     Forall (fun s => str_len s = l) seqs ->
     mapM seq2arr seqs = Ok m ->
     third <> [] -> Forall (fun c => is_space c = false) third ->
     fs filename =
       Some (str_of_int (Z.of_nat (length seqs)) ++ [" "%char] ++
             str_of_int (Z.of_nat l) ++ [" "%char] ++ third ++ [newline] ++
             concat (map (fun s => list_ascii_of_string s ++ [newline]) seqs)) ->
     DNASeqList_init rng_choice rng_shuffle fs
       {| arg_length := None; arg_num_random_seqs := None; arg_shuffle := false;
          arg_alphabet := bits2base; arg_seqs := None; arg_seqarr := None;
          arg_filename := Some filename |} =
     Ok {| seqarr := mk_ndarray2 m l;
           numseqs := Z.of_nat (length seqs);
           seqlen := Z.of_nat l;
           shift := arange_shift (Z.of_nat l) |}).
Proof.
  unfold DNASeqList_init.
  cbn [arg_length arg_seqs arg_seqarr arg_filename arg_shuffle is_not_None
       combinations2 map app existsb fst snd andb orb].
  unfold _read_from_file. split.
  - intros ->. reflexivity.
  - intros seqs m l third Hl Hm Hne Hthird ->.
    set (body := concat (map (fun s => list_ascii_of_string s ++ [newline]) seqs)).
    replace (str_of_int (Z.of_nat (length seqs)) ++ " "%char ::
             str_of_int (Z.of_nat l) ++ " "%char :: third ++ newline :: body)
      with ((str_of_int (Z.of_nat (length seqs)) ++ " "%char ::
             str_of_int (Z.of_nat l) ++ " "%char :: third) ++ newline :: body)
      by (repeat (rewrite <- app_assoc; cbn [app]); reflexivity).
    rewrite readline_word.
    2:{ apply Forall_app. split.
        { eapply Forall_impl; [|apply str_of_int_not_space]. intros c Hc; now left. }
        constructor; [now right|].
        apply Forall_app. split.
        { eapply Forall_impl; [|apply str_of_int_not_space]. intros c Hc; now left. }
        constructor; [now right|].
        eapply Forall_impl; [|exact Hthird]. intros c Hc; now left. }
    repeat (rewrite <- app_assoc; cbn [app]).
    rewrite (header_three_fields _ _ third Hne Hthird).
    rewrite !parse_int_str_of_int by lia. cbn [bind].
    replace ((Z.of_nat (length seqs) <? 0) || (Z.of_nat l <? 0)) with false
      by (symmetry; apply orb_false_iff; split; apply Z.ltb_ge; lia).
    rewrite !Nat2Z.id. unfold body. rewrite (read_rows_lines l seqs m Hl Hm).
    reflexivity.
Qed.

Lemma read_file_with_third_field_witness :
  let fs : filesystem :=
    fun name =>
      if String.eqb name "seqs.txt"
      then Some (list_ascii_of_string "2 3 37.0" ++ [newline] ++
                 list_ascii_of_string "ACG" ++ [newline] ++
                 list_ascii_of_string "tTa" ++ [newline])
      else None in
  DNASeqList_init (fun _ _ _ => []) (fun m => m) fs
    {| arg_length := None; arg_num_random_seqs := None; arg_shuffle := false;
       arg_alphabet := bits2base; arg_seqs := None; arg_seqarr := None;
       arg_filename := Some "none.txt"%string |} = Raise FileNotFoundError /\
  DNASeqList_init (fun _ _ _ => []) (fun m => m) fs
    {| arg_length := None; arg_num_random_seqs := None; arg_shuffle := false;
       arg_alphabet := bits2base; arg_seqs := None; arg_seqarr := None;
       arg_filename := Some "seqs.txt"%string |} =
  Ok {| seqarr := mk_ndarray2 [[0; 1; 2]; [3; 3; 0]] 3;
        numseqs := 2; seqlen := 3; shift := arange_shift 3 |}.
Proof.
  intros fs. split.
  - apply (read_file_with_third_field (fun _ _ _ => []) (fun m => m) fs "none.txt").
    reflexivity.
  - destruct (read_file_with_third_field (fun _ _ _ => []) (fun m => m) fs
                "seqs.txt") as [_ H].
    apply (H ["ACG"; "tTa"]%string [[0; 1; 2]; [3; 3; 0]] 3%nat
             (list_ascii_of_string "37.0")).
    + repeat constructor.
    + reflexivity.
    + discriminate.
    + repeat constructor.
    + reflexivity.
Defined.

(** ** Writing a file *)

Lemma write_rows_lines (self : DNASeqList) (idxs : list nat) (written : list ascii) :
  let lines := fun ss : list string =>
    concat (map (fun s => list_ascii_of_string s ++ [newline]) ss) in
  match mapM (fun idx => get_seq_str self (Z.of_nat idx)) idxs with
  | Ok ss => write_rows self idxs written = (written ++ lines ss, Ok tt)
  | Raise e =>
      exists pre i post ss,
        idxs = pre ++ i :: post /\
        mapM (fun idx => get_seq_str self (Z.of_nat idx)) pre = Ok ss /\
        get_seq_str self (Z.of_nat i) = Raise e /\
        write_rows self idxs written = (written ++ lines ss, Raise e)
  end.
Proof.
  cbv zeta. revert written. induction idxs as [|i idxs IH]; intros written.
  - cbn. now rewrite app_nil_r.
  - cbn [mapM write_rows].
    destruct (get_seq_str self (Z.of_nat i)) as [s|e] eqn:Ei; cbn [bind].
    + specialize (IH (written ++ list_ascii_of_string s ++ [newline])).
      destruct (mapM (fun idx => get_seq_str self (Z.of_nat idx)) idxs) as [ss|e];
        cbn [bind].
      * rewrite IH. cbn [map concat]. now rewrite <- !app_assoc.
      * destruct IH as [pre [k [post [ss [Hsplit [Hpre [Hk E]]]]]]].
        exists (i :: pre), k, post, (s :: ss). repeat split.
        -- now rewrite Hsplit.
        -- cbn [mapM]. now rewrite Ei, Hpre.
        -- exact Hk.
        -- rewrite E. cbn [map concat]. now rewrite <- !app_assoc.
    + exists [], i, idxs, []. repeat split; try assumption.
      cbn. now rewrite app_nil_r.
Qed.

Lemma seq_split (s n : nat) (pre post : list nat) (i : nat) :
  seq s n = pre ++ i :: post ->
  pre = seq s (length pre) /\ i = (s + length pre)%nat /\ (length pre < n)%nat.
Proof.
  revert s n. induction pre as [|a pre IH]; intros s n H.
  - destruct n as [|n]; [discriminate|]. cbn in H. injection H as <- _.
    cbn. repeat split; lia.
  - destruct n as [|n]; [discriminate|]. cbn [seq app] in H.
    injection H as <- H. destruct (IH _ _ H) as [Hp [Hi Hl]].
    cbn [length seq]. repeat split; [now rewrite <- Hp | lia | lia].
Qed.

(** [write_to_file] writes what [to_list] returns: the file holds the header
    [numseqs seqlen] and then one line per string of [to_list()].  When a
    sequence cannot be converted ([to_list] raises), [write_to_file] raises
    the same error and leaves a truncated file: the header and the lines of
    the sequences before the first one that fails. *)
Theorem write_to_file_lines (self : DNASeqList) (fs : filesystem) (filename : string) :
  let header :=
    str_of_int (numseqs self) ++ [" "%char] ++ str_of_int (seqlen self) ++ [newline] in
  let lines := fun ss : list string =>
    concat (map (fun s => list_ascii_of_string s ++ [newline]) ss) in
  (forall ss, to_list self = Ok ss ->
     write_to_file self fs filename =
     (fs_write fs filename (header ++ lines ss), Ok tt)) /\
  (forall e, to_list self = Raise e ->
     exists (k : nat) (ss : list string),
       Z.of_nat k < numseqs self /\
       mapM (fun idx => get_seq_str self (Z.of_nat idx)) (seq 0 k) = Ok ss /\
       get_seq_str self (Z.of_nat k) = Raise e /\
       write_to_file self fs filename =
       (fs_write fs filename (header ++ lines ss), Raise e)).
Proof.
  intros header lines. unfold write_to_file, to_list. fold header.
  pose proof (write_rows_lines self (seq 0 (Z.to_nat (numseqs self))) header) as H.
  cbv zeta in H. split.
  - intros ss E. rewrite E in H. now rewrite H.
  - intros e E. rewrite E in H.
    destruct H as [pre [i [post [ss [Hsplit [Hpre [Hi H]]]]]]].
    destruct (seq_split _ _ _ _ _ Hsplit) as [Hp [Hk Hl]]. cbn [Nat.add] in Hk.
    exists (length pre), ss. subst i. rewrite <- Hp.
    repeat split; [lia | exact Hpre | exact Hi | now rewrite H].
Qed.

Lemma write_to_file_lines_witness :
  let self := DNASeqList_of_seqarr (mk_ndarray2 [[0; 1; 2]; [3; 3; 0]] 3) in
  let bad :=
    {| seqarr := mk_ndarray2 [[0; 1; 2]] 3; numseqs := 2; seqlen := 3;
       shift := arange_shift 3 |} in
  write_to_file self (fun _ => None) "out.txt" =
  (fs_write (fun _ => None) "out.txt"
     (list_ascii_of_string "2 3" ++ [newline] ++
      list_ascii_of_string "ACG" ++ [newline] ++
      list_ascii_of_string "TTA" ++ [newline]),
   Ok tt) /\
  exists (k : nat) (ss : list string),
    Z.of_nat k < 2 /\
    mapM (fun idx => get_seq_str bad (Z.of_nat idx)) (seq 0 k) = Ok ss /\
    get_seq_str bad (Z.of_nat k) = Raise IndexError /\
    write_to_file bad (fun _ => None) "out.txt" =
    (fs_write (fun _ => None) "out.txt"
       ((list_ascii_of_string "2 3" ++ [newline]) ++
        concat (map (fun s => list_ascii_of_string s ++ [newline]) ss)),
     Raise IndexError).
Proof.
  intros self bad. split.
  - destruct (write_to_file_lines self (fun _ => None) "out.txt") as [H _].
    apply (H ["ACG"; "TTA"]%string). reflexivity.
  - destruct (write_to_file_lines bad (fun _ => None) "out.txt") as [_ H].
    apply (H IndexError). reflexivity.
Defined.

(** ** The scalar loops of the single-pair matcher *)

Lemma fold_left_seq_rel {A B : Type} (f : A -> nat -> A) (g : B -> nat -> B)
  (R : nat -> A -> B -> Prop) (n : nat) (a : A) (b : B) :
  R 0%nat a b ->
  (forall i a b, (i < n)%nat -> R i a b -> R (S i) (f a i) (g b i)) ->
  R n (fold_left f (seq 0 n) a) (fold_left g (seq 0 n) b).
Proof.
  intros H0 Hstep.
  assert (G : forall k s a b, (s + k <= n)%nat -> R s a b ->
                R (s + k)%nat (fold_left f (seq s k) a) (fold_left g (seq s k) b)).
  { induction k as [|k IH]; intros s a' b' Hs HR.
    - now rewrite Nat.add_0_r.
    - cbn [seq fold_left]. replace (s + S k)%nat with (S s + k)%nat by lia.
      apply IH; [lia|]. apply Hstep; [lia | exact HR]. }
  apply (G n 0%nat a b); [lia | exact H0].
Qed.

Lemma nth_set_nth {A : Type} (i k : nat) (v d : A) (l : list A) :
  nth k (set_nth i v l) d =
  if ((k =? i) && (i <? length l))%nat then v else nth k l d.
Proof.
  revert i k. induction l as [|a l IH]; intros i k.
  - cbn [set_nth length]. destruct i; rewrite andb_false_r; reflexivity.
  - destruct i as [|i]; destruct k as [|k]; cbn [set_nth nth length]; try reflexivity.
    rewrite IH. reflexivity.
Qed.

Lemma get2_set2 (c : list (list Z)) (i j i' j' : nat) (v : Z) (w : nat) :
  (i < length c)%nat -> rect w c -> (j < w)%nat ->
  get2 (set2 c i j v) i' j' =
  if ((i' =? i) && (j' =? j))%nat then v else get2 c i' j'.
Proof.
  intros Hi Hr Hj. unfold get2, set2.
  rewrite nth_set_nth.
  replace (i <? length c)%nat with true by (symmetry; apply Nat.ltb_lt; exact Hi).
  rewrite andb_true_r.
  destruct (Nat.eqb_spec i' i) as [->|Hne]; cbn [andb]; [|reflexivity].
  rewrite nth_set_nth.
  assert (Hl : length (nth i c []) = w).
  { unfold rect in Hr. rewrite Forall_forall in Hr. apply Hr. now apply nth_In. }
  rewrite Hl.
  replace (j <? w)%nat with true by (symmetry; apply Nat.ltb_lt; exact Hj).
  now rewrite andb_true_r.
Qed.

Lemma set2_shape (c : list (list Z)) (i j : nat) (v : Z) (w : nat) :
  (i < length c)%nat -> rect w c ->
  length (set2 c i j v) = length c /\ rect w (set2 c i j v).
Proof.
  intros Hi Hr. unfold set2. split; [apply set_nth_length|].
  unfold rect in *. apply set_nth_Forall; [|exact Hr].
  rewrite set_nth_length.
  rewrite Forall_forall in Hr. apply Hr. now apply nth_In.
Qed.

Lemma get2_zeros (n w i j : nat) : get2 (repeat (repeat 0 w) n) i j = 0.
Proof.
  unfold get2. destruct (le_lt_dec n i) as [H|H].
  - rewrite (nth_overflow (repeat (repeat 0 w) n) [])
      by (rewrite repeat_length; exact H).
    now destruct j.
  - rewrite (nth_indep _ [] (repeat 0 w)) by (rewrite repeat_length; exact H).
    rewrite nth_repeat. apply nth_repeat.
Qed.

Lemma common_suffix_border (a1 a2 : list Z) (i j : nat) :
  (i = 0 \/ j = 0)%nat -> common_suffix a1 a2 i j = 0%nat.
Proof. intros [-> | ->]; [reflexivity | destruct i; reflexivity]. Qed.

Lemma scalar_loops (a1 a2 : list Z) :
  longest_common_substring a1 a2 false = Ok (lcs_scan a1 a2).
Proof.
  unfold longest_common_substring, lcs_scan. cbv zeta. f_equal.
  set (n1 := length a1). set (n2 := length a2).
  set (Inv := fun (i1 i2 : nat) (st : lcs_state) (tr : Z * Z * Z) =>
     (st_a1idx st, st_a2idx st, st_len st) = tr /\ 0 <= st_len st /\
     length (st_counter st) = S n1 /\ rect (S n2) (st_counter st) /\
     forall i j, (i <= n1)%nat -> (j <= n2)%nat ->
       get2 (st_counter st) i j =
       if written i1 i2 i j then Z.of_nat (common_suffix a1 a2 i j) else 0).
  assert (H : Inv n1 0%nat
            (fold_left
               (fun st i1 =>
                  fold_left
                    (fun st0 i2 =>
                       if nth i1 a1 0 =? nth i2 a2 0
                       then
                         if st_len st0 <? get2 (st_counter st0) i1 i2 + 1
                         then mk_lcs_state
                                (set2 (st_counter st0) (S i1) (S i2)
                                      (get2 (st_counter st0) i1 i2 + 1))
                                (Z.of_nat i1 + 1 - (get2 (st_counter st0) i1 i2 + 1))
                                (Z.of_nat i2 + 1 - (get2 (st_counter st0) i1 i2 + 1))
                                (get2 (st_counter st0) i1 i2 + 1)
                         else mk_lcs_state
                                (set2 (st_counter st0) (S i1) (S i2)
                                      (get2 (st_counter st0) i1 i2 + 1))
                                (st_a1idx st0) (st_a2idx st0) (st_len st0)
                       else st0)
                    (seq 0 n2) st)
               (seq 0 n1)
               (mk_lcs_state (repeat (repeat 0 (S n2)) (S n1)) (-1) (-1) 0))
            (fold_left
               (fun st i =>
                  fold_left (fun st0 j => lcs_track a1 a2 st0 i j) (seq 0 n2) st)
               (seq 0 n1) (-1, -1, 0))).
  { apply (fold_left_seq_rel _ _ (fun i1 => Inv i1 0%nat)).
    - unfold Inv. cbn [st_a1idx st_a2idx st_len st_counter].
      split; [reflexivity|]. split; [lia|]. split; [apply repeat_length|].
      split; [apply Forall_forall; intros r Hr; apply repeat_spec in Hr;
              subst; apply repeat_length|].
      intros i j _ _. rewrite get2_zeros. unfold written.
      replace (i - 1 <? 0)%nat with false by reflexivity.
      replace (j - 1 <? 0)%nat with false by reflexivity.
      now rewrite andb_false_r, andb_false_r.
    - intros i1 st tr Hi1 HI.
      assert (G : Inv i1 n2
                (fold_left
                   (fun st0 i2 =>
                      if nth i1 a1 0 =? nth i2 a2 0
                      then
                        if st_len st0 <? get2 (st_counter st0) i1 i2 + 1
                        then mk_lcs_state
                               (set2 (st_counter st0) (S i1) (S i2)
                                     (get2 (st_counter st0) i1 i2 + 1))
                               (Z.of_nat i1 + 1 - (get2 (st_counter st0) i1 i2 + 1))
                               (Z.of_nat i2 + 1 - (get2 (st_counter st0) i1 i2 + 1))
                               (get2 (st_counter st0) i1 i2 + 1)
                        else mk_lcs_state
                               (set2 (st_counter st0) (S i1) (S i2)
                                     (get2 (st_counter st0) i1 i2 + 1))
                               (st_a1idx st0) (st_a2idx st0) (st_len st0)
                      else st0)
                   (seq 0 n2) st)
                (fold_left (fun st0 j => lcs_track a1 a2 st0 i1 j) (seq 0 n2) tr)).
      { apply (fold_left_seq_rel _ _ (fun i2 => Inv i1 i2)); [exact HI|].
        clear st tr HI. intros i2 st tr Hi2 [Htr [Hpos [Hlen [Hrect Hval]]]].
        assert (Hget : get2 (st_counter st) i1 i2 =
                       Z.of_nat (common_suffix a1 a2 i1 i2)).
        { rewrite Hval by lia. unfold written.
          destruct i1 as [|i1']; [now rewrite common_suffix_border by auto|].
          destruct i2 as [|i2']; [now rewrite common_suffix_border by auto|].
          replace (S i1' - 1 <? S i1')%nat with true
            by (symmetry; apply Nat.ltb_lt; lia).
          reflexivity. }
        assert (Hnw : written i1 i2 (S i1) (S i2) = false).
        { unfold written. cbn [Nat.leb andb].
          replace (S i1 - 1)%nat with i1 by lia.
          replace (S i2 - 1)%nat with i2 by lia.
          rewrite Nat.ltb_irrefl, Nat.eqb_refl, Nat.ltb_irrefl. reflexivity. }
        assert (Hw : forall i j,
                   written i1 (S i2) i j =
                   written i1 i2 i j || ((i =? S i1) && (j =? S i2))%nat).
        { intros i j. unfold written.
          destruct i as [|i]; [reflexivity|]. destruct j as [|j];
            [cbn [Nat.leb andb orb Nat.eqb]; now rewrite andb_false_r|].
          cbn [Nat.leb andb Nat.eqb].
          replace (S i - 1)%nat with i by lia. replace (S j - 1)%nat with j by lia.
          destruct (Nat.ltb_spec i i1); destruct (Nat.eqb_spec i i1);
            destruct (Nat.ltb_spec j (S i2)); destruct (Nat.ltb_spec j i2);
            destruct (Nat.eqb_spec j i2); cbn; try reflexivity; lia. }
        unfold lcs_track, lcs_cell. cbn [common_suffix].
        rewrite <- Htr. cbn [snd].
        destruct (nth i1 a1 0 =? nth i2 a2 0) eqn:Em.
        - rewrite Hget.
          replace (Z.of_nat (common_suffix a1 a2 i1 i2) + 1)
            with (Z.of_nat (S (common_suffix a1 a2 i1 i2))) by lia.
          destruct (set2_shape (st_counter st) (S i1) (S i2)
                      (Z.of_nat (S (common_suffix a1 a2 i1 i2))) (S n2))
            as [Hl' Hr']; [lia | exact Hrect |].
          assert (Hval' : forall i j, (i <= n1)%nat -> (j <= n2)%nat ->
                    get2 (set2 (st_counter st) (S i1) (S i2)
                               (Z.of_nat (S (common_suffix a1 a2 i1 i2)))) i j =
                    if written i1 (S i2) i j
                    then Z.of_nat (common_suffix a1 a2 i j) else 0).
          { intros i j Hi Hj.
            rewrite (get2_set2 _ _ _ _ _ _ (S n2)) by (auto; lia).
            rewrite Hw. destruct ((i =? S i1) && (j =? S i2))%nat eqn:E.
            - apply andb_true_iff in E as [E1 E2].
              apply Nat.eqb_eq in E1, E2. subst i j.
              rewrite orb_true_r. cbn [common_suffix]. now rewrite Em.
            - rewrite orb_false_r. now apply Hval. }
          destruct (st_len st <? Z.of_nat (S (common_suffix a1 a2 i1 i2)));
            unfold Inv; cbn [st_a1idx st_a2idx st_len st_counter];
            repeat split; auto; try lia.
        - cbn [Z.of_nat].
          replace (st_len st <? 0) with false by (symmetry; apply Z.ltb_ge; lia).
          unfold Inv. repeat split; auto.
          intros i j Hi Hj. rewrite Hw, Hval by assumption.
          destruct ((i =? S i1) && (j =? S i2))%nat eqn:E.
          + apply andb_true_iff in E as [E1 E2].
            apply Nat.eqb_eq in E1, E2. subst i j.
            rewrite Hnw. cbn [orb common_suffix]. now rewrite Em.
          + now rewrite orb_false_r. }
      destruct G as [Htr [Hpos [Hlen [Hrect Hval]]]].
      unfold Inv. repeat split; auto.
      intros i j Hi Hj. rewrite Hval by assumption.
      f_equal. unfold written.
      destruct i as [|i]; [reflexivity|]. destruct j as [|j];
        [cbn [Nat.leb andb]; rewrite ?andb_false_r; reflexivity|].
      cbn [Nat.leb andb].
      replace (S i - 1)%nat with i by lia. replace (S j - 1)%nat with j by lia.
      destruct (Nat.ltb_spec i i1); destruct (Nat.eqb_spec i i1);
        destruct (Nat.ltb_spec j n2); destruct (Nat.ltb_spec i (S i1));
        destruct (Nat.eqb_spec i (S i1)); destruct (Nat.ltb_spec j 0);
        cbn; try reflexivity; lia. }
  destruct H as [Htr _]. exact Htr.
Qed.

Lemma best_from_fst (l : list Z) (bi : nat) (b : Z) (i : nat) :
  fst (best_from bi b i l) = argmax_from Z.ltb bi b i l.
Proof.
  revert bi b i. induction l as [|x l IH]; intros bi b i; [reflexivity|].
  cbn [best_from argmax_from]. destruct (b <? x); apply IH.
Qed.

Lemma best_from_app (l1 l2 : list Z) (bi : nat) (b : Z) (i : nat) :
  best_from bi b i (l1 ++ l2) =
  best_from (fst (best_from bi b i l1)) (snd (best_from bi b i l1))
            (i + length l1) l2.
Proof.
  revert bi b i. induction l1 as [|x l1 IH]; intros bi b i.
  - cbn [app best_from fst snd length]. now rewrite Nat.add_0_r.
  - cbn [app best_from length]. replace (i + S (length l1))%nat
      with (S i + length l1)%nat by lia.
    destruct (b <? x); apply IH.
Qed.

Lemma best_from_zeros (n bi : nat) (b : Z) (i : nat) :
  0 <= b -> best_from bi b i (repeat 0 n) = (bi, b).
Proof.
  intros Hb. revert i. induction n as [|n IH]; intros i; [reflexivity|].
  cbn [repeat best_from].
  replace (b <? 0) with false by (symmetry; apply Z.ltb_ge; lia). apply IH.
Qed.

Lemma best_from_value (l pre : list Z) (bi : nat) (b : Z) :
  (bi < length pre)%nat -> nth bi pre 0 = b ->
  snd (best_from bi b (length pre) l) =
  nth (fst (best_from bi b (length pre) l)) (pre ++ l) 0.
Proof.
  revert pre bi b. induction l as [|x l IH]; intros pre bi b Hbi Hb.
  - cbn [best_from fst snd]. rewrite app_nil_r. now rewrite Hb.
  - cbn [best_from].
    replace (pre ++ x :: l) with ((pre ++ [x]) ++ l) by (now rewrite <- app_assoc).
    replace (S (length pre)) with (length (pre ++ [x]))
      by (rewrite length_app; cbn; lia).
    destruct (b <? x).
    + apply IH; [rewrite length_app; cbn; lia | now rewrite nth_middle].
    + apply IH; [rewrite length_app; lia | now rewrite app_nth1].
Qed.

Lemma lcs_layer_0 (a1 a2 : list Z) :
  layer_at (lcs_step a1 a2) (repeat 0 (S (length a2))) 0 = repeat 0 (S (length a2)).
Proof. reflexivity. Qed.

Lemma lcs_layer_S (a1 a2 : list Z) (i : nat) :
  layer_at (lcs_step a1 a2) (repeat 0 (S (length a2))) (S i) =
  0 :: map (lcs_cell a1 a2 i) (seq 0 (length a2)).
Proof.
  apply (nth_ext _ _ 0 0).
  - rewrite lcs_table_rows. cbn [length]. now rewrite length_map, length_seq.
  - intros j Hj. rewrite lcs_table_rows in Hj.
    rewrite lcs_entry by lia.
    destruct j as [|j]; [reflexivity|]. cbn [nth].
    rewrite (nth_indep _ 0 (lcs_cell a1 a2 i 0))
      by (rewrite length_map, length_seq; lia).
    rewrite (map_nth (lcs_cell a1 a2 i)), seq_nth by lia. reflexivity.
Qed.

Lemma scan_row (a1 a2 : list Z) (i1 : nat) (W : nat) :
  W = S (length a2) ->
  forall (k s : nat) (tr : Z * Z * Z) (p : nat * Z),
    (s + k <= length a2)%nat ->
    snd tr = snd p ->
    (snd p = 0 /\ tr = (-1, -1, 0) /\ fst p = 0%nat) \/
    (0 < snd p /\
     tr = (Z.of_nat (fst p / W) - snd p, Z.of_nat (fst p mod W) - snd p, snd p)) ->
    let tr' := fold_left (fun st j => lcs_track a1 a2 st i1 j) (seq s k) tr in
    let p' := best_from (fst p) (snd p) (S i1 * W + 1 + s)
                        (map (lcs_cell a1 a2 i1) (seq s k)) in
    snd tr' = snd p' /\
    ((snd p' = 0 /\ tr' = (-1, -1, 0) /\ fst p' = 0%nat) \/
     (0 < snd p' /\
      tr' = (Z.of_nat (fst p' / W) - snd p', Z.of_nat (fst p' mod W) - snd p',
             snd p'))).
Proof.
  intros HW. induction k as [|k IH]; intros s tr p Hs Hsnd Hrel.
  - cbn. destruct p. auto.
  - cbn [seq map fold_left best_from].
    replace (S (S i1 * W + 1 + s)) with (S i1 * W + 1 + S s)%nat by lia.
    destruct (Z.ltb_spec (snd p) (lcs_cell a1 a2 i1 s)) as [Hlt|Hge].
    + replace (lcs_track a1 a2 tr i1 s)
        with (Z.of_nat i1 + 1 - lcs_cell a1 a2 i1 s,
              Z.of_nat s + 1 - lcs_cell a1 a2 i1 s, lcs_cell a1 a2 i1 s)
        by (unfold lcs_track; cbv zeta; rewrite Hsnd;
            now replace (snd p <? lcs_cell a1 a2 i1 s) with true
              by (symmetry; now apply Z.ltb_lt)).
      apply (IH (S s) _ ((S i1 * W + 1 + s)%nat, lcs_cell a1 a2 i1 s));
        [lia | reflexivity |].
      right. cbn [fst snd]. split; [destruct Hrel as [[H _]|[H _]]; lia|].
      replace (S i1 * W + 1 + s)%nat with (S s + S i1 * W)%nat by lia.
      rewrite Nat.div_add, Nat.Div0.mod_add by lia.
      rewrite Nat.div_small, Nat.mod_small by lia.
      f_equal. f_equal; lia.
    + replace (lcs_track a1 a2 tr i1 s) with tr
        by (unfold lcs_track; cbv zeta; rewrite Hsnd;
            now replace (snd p <? lcs_cell a1 a2 i1 s) with false
              by (symmetry; now apply Z.ltb_ge)).
      apply (IH (S s) tr p); [lia | exact Hsnd | exact Hrel].
Qed.

Lemma scan_table (a1 a2 : list Z) (n : nat) :
  (n <= length a1)%nat ->
  let W := S (length a2) in
  let tr := fold_left
              (fun st i =>
                 fold_left (fun st j => lcs_track a1 a2 st i j)
                           (seq 0 (length a2)) st)
              (seq 0 n) (-1, -1, 0) in
  let p := best_from 0 0 0
             (concat (map (layer_at (lcs_step a1 a2) (repeat 0 (S (length a2))))
                          (seq 0 (S n)))) in
  snd tr = snd p /\
  ((snd p = 0 /\ tr = (-1, -1, 0) /\ fst p = 0%nat) \/
   (0 < snd p /\
    tr = (Z.of_nat (fst p / W) - snd p, Z.of_nat (fst p mod W) - snd p, snd p))).
Proof.
  intros Hn W. induction n as [|n IH]; cbv zeta.
  - cbn [seq map concat fold_left]. rewrite app_nil_r, lcs_layer_0.
    rewrite best_from_zeros by lia. cbn [fst snd]. auto.
  - specialize (IH ltac:(lia)). cbv zeta in IH.
    assert (Hf : forall (f : Z * Z * Z -> nat -> Z * Z * Z) init,
               fold_left f (seq 0 (S n)) init = f (fold_left f (seq 0 n) init) n)
      by (intros f init; now rewrite seq_S, fold_left_app).
    rewrite Hf. clear Hf.
    rewrite (seq_S (S n)), map_app, concat_app. cbn [map concat Nat.add].
    rewrite app_nil_r, best_from_app.
    set (tr := fold_left _ (seq 0 n) _) in *.
    set (p := best_from 0 0 0 _) in *.
    destruct IH as [Hsnd Hrel].
    assert (Hlen : length (concat (map (layer_at (lcs_step a1 a2)
                                                 (repeat 0 (S (length a2))))
                                       (seq 0 (S n)))) = (S n * W)%nat).
    { rewrite (concat_rect_length W).
      - now rewrite length_map, length_seq.
      - apply Forall_map, Forall_forall. intros i _. apply lcs_table_rows. }
    rewrite Hlen, lcs_layer_S. cbn [best_from Nat.add].
    replace (snd p <? 0) with false
      by (symmetry; apply Z.ltb_ge; destruct Hrel as [[H _]|[H _]]; lia).
    replace (S (S n * W)) with (S n * W + 1 + 0)%nat by lia.
    apply (scan_row a1 a2 n W eq_refl (length a2) 0 tr p); auto.
Qed.

Lemma lcs_scan_best (a1 a2 : list Z) :
  lcs_scan a1 a2 =
  if 0 <? snd (best_window a1 a2) then best_window a1 a2 else (-1, -1, 0).
Proof.
  pose proof (scan_table a1 a2 (length a1) (le_n _)) as H. cbv zeta in H.
  fold (lcs_table a1 a2) in H. fold (lcs_scan a1 a2) in H.
  set (flat := concat (lcs_table a1 a2)) in *.
  assert (Hflat : exists l', flat = 0 :: l').
  { pose proof (lcs_flat_first_row a1 a2 0 ltac:(lia)) as H0. fold flat in H0.
    pose proof (lcs_flat_nonempty a1 a2) as Hne. fold flat in Hne.
    destruct flat as [|x l']; [congruence|]. cbn [nth] in H0. subst x. eauto. }
  destruct Hflat as [l' Hl'].
  assert (Hp : best_from 0 0 0 flat = best_from 0 0 1 l') by (now rewrite Hl').
  assert (Hr : first_max flat = fst (best_from 0 0 0 flat)).
  { rewrite Hp, Hl'. unfold first_max. now rewrite best_from_fst. }
  assert (Hv : nth (first_max flat) flat 0 = snd (best_from 0 0 0 flat)).
  { rewrite Hr, Hp, Hl'.
    symmetry. apply (best_from_value l' [0] 0 0); [cbn; lia | reflexivity]. }
  unfold best_window. fold flat. cbn [snd]. rewrite Hv, Hr.
  destruct H as [Hsnd [[Hz [Htr _]]|[Hpos Htr]]].
  - rewrite Hz. cbn. exact Htr.
  - replace (0 <? snd (best_from 0 0 0 flat)) with true
      by (symmetry; apply Z.ltb_lt; exact Hpos).
    exact Htr.
Qed.

(** [longest_common_substring] with [vectorized=False] is correct.  On any
    two arrays the scalar loops return a triple (start in [a1], start in
    [a2], length) such that no common substring is longer than the length
    returned; when the length is positive the two windows it designates lie
    inside the arrays and are equal; when it is 0 (no common symbol) both
    starts are -1. *)
Theorem longest_common_substring_correct (a1 a2 : list Z) :
  exists s1 s2 l,
    longest_common_substring a1 a2 false = Ok (s1, s2, l) /\
    (forall i j k,
       (i + k <= length a1)%nat -> (j + k <= length a2)%nat ->
       window a1 i k = window a2 j k -> Z.of_nat k <= l) /\
    ((l = 0 /\ s1 = -1 /\ s2 = -1) \/
     (0 < l /\ 0 <= s1 /\ 0 <= s2 /\
      s1 + l <= Z.of_nat (length a1) /\ s2 + l <= Z.of_nat (length a2) /\
      window a1 (Z.to_nat s1) (Z.to_nat l) = window a2 (Z.to_nat s2) (Z.to_nat l))).
Proof.
  rewrite scalar_loops, lcs_scan_best.
  destruct (best_window_correct a1 a2) as [s1 [s2 [l [E [Hmax H]]]]].
  rewrite E. cbn [snd].
  destruct (Z.ltb_spec 0 l) as [Hpos|Hzero].
  - exists s1, s2, l. split; [reflexivity|]. split; [exact Hmax|].
    right. split; [exact Hpos|]. tauto.
  - exists (-1), (-1), 0. split; [reflexivity|]. split.
    + intros i j k H1 H2 Hw. specialize (Hmax i j k H1 H2 Hw). lia.
    + left. auto.
Qed.

(** The flag [vectorized] decides whether [longest_common_substring]
    returns.  With the default [vectorized=True] it raises [IndexError] on
    every two non-empty arrays (the mask [idx] is one shorter than the row of
    the counter it indexes), where the scalar loops return their result.  On
    an empty [a1] the two agree on [(-1, -1, 0)]. *)
Theorem vectorized_default_raises (a1 a2 : list Z) :
  (a1 = [] ->
   longest_common_substring a1 a2 true = Ok (-1, -1, 0) /\
   longest_common_substring a1 a2 false = Ok (-1, -1, 0)) /\
  (a1 <> [] -> a2 <> [] ->
   longest_common_substring a1 a2 true = Raise IndexError /\
   longest_common_substring a1 a2 false = Ok (lcs_scan a1 a2)).
Proof.
  split.
  - intros ->. split; [apply vectorized_empty | reflexivity].
  - intros H1 _. split; [now apply vectorized_raises | apply scalar_loops].
Qed.

Lemma vectorized_default_raises_witness :
  longest_common_substring [0; 1; 2] [1; 2; 3] true = Raise IndexError /\
  longest_common_substring [0; 1; 2] [1; 2; 3] false = Ok (lcs_scan [0; 1; 2] [1; 2; 3]).
Proof.
  apply (vectorized_default_raises [0; 1; 2] [1; 2; 3]); discriminate.
Defined.

(** ** The other vectorized matchers *)

Lemma singlea1_step_raises (a1 : list Z) (a2s : list (list Z)) (len2 : nat) :
  a1 <> [] -> a2s <> [] -> rect len2 a2s ->
  longest_common_substrings_singlea1 a1 a2s = Raise IndexError.
Proof.
  intros Ha1 Hne H2.
  destruct a1 as [|x a1]; [contradiction|].
  destruct a2s as [|r2 a2s]; [contradiction|].
  unfold longest_common_substrings_singlea1. cbn [length].
  rewrite (rect_cons_shape1 _ _ _ H2).
  erewrite dp_loop_first_raises; [reflexivity | reflexivity | reflexivity |].
  cbn [map repeat]. rewrite take_mask2_mismatch; [reflexivity|].
  inversion H2; subst. cbn [length]. rewrite length_map, repeat_length. lia.
Qed.

Lemma singlea1_without_symbols (a2s : list (list Z)) :
  longest_common_substrings_singlea1 [] a2s =
  Ok (repeat 0 (length a2s), repeat 0 (length a2s), repeat 0 (length a2s)).
Proof.
  unfold longest_common_substrings_singlea1, dp_loop.
  cbn [length seq fold_left bind].
  change (repeat (repeat (repeat 0 (S (shape1 a2s))) (length a2s)) 1)
    with [repeat (repeat 0 (S (shape1 a2s))) (length a2s)].
  rewrite swapaxes_untouched.
  rewrite (mapM_repeat _ _ 0%nat) by apply argmax_zeros.
  cbn [bind]. rewrite pick_zeros, map_repeat.
  rewrite !zip_with_repeat_same, unravel_zero. reflexivity.
Qed.

(** [longest_common_substrings_singlea1] returns only for an empty [a1],
    with [(0, 0, 0)] for every row of [a2s].  For a non-empty [a1] and at
    least one row of at least one symbol in [a2s] it raises [IndexError]:
    the mask [idx] is one column narrower than the slice of the counter it
    indexes. *)
Theorem singlea1_raises (a1 : list Z) (a2s : list (list Z)) (len2 : nat) :
  rect len2 a2s ->
  (a1 = [] ->
   longest_common_substrings_singlea1 a1 a2s =
   Ok (repeat 0 (length a2s), repeat 0 (length a2s), repeat 0 (length a2s))) /\
  (a1 <> [] -> a2s <> [] -> (1 <= len2)%nat ->
   longest_common_substrings_singlea1 a1 a2s = Raise IndexError).
Proof.
  intros H2. split.
  - intros ->. apply singlea1_without_symbols.
  - intros Ha1 Hne _. now apply (singlea1_step_raises a1 a2s len2).
Qed.

Lemma singlea1_raises_witness :
  longest_common_substrings_singlea1 [] [[0; 1]; [2; 3]] = Ok ([0; 0], [0; 0], [0; 0]) /\
  longest_common_substrings_singlea1 [0; 1] [[0; 1]; [2; 3]] = Raise IndexError.
Proof.
  split.
  - apply (singlea1_raises [] [[0; 1]; [2; 3]] 2); [repeat constructor | reflexivity].
  - apply (singlea1_raises [0; 1] [[0; 1]; [2; 3]] 2);
      [repeat constructor | discriminate | discriminate | lia].
Defined.

(** [longest_common_substrings_all_pairs_strings] on two lists of strings
    that can be encoded.  Lists of different sizes raise [AssertionError].
    Lists of one size return only when the strings of the first list are
    empty, with [(0, 0, 0)] for every pair; when the strings of both lists
    have symbols the call raises [IndexError], for the same mask. *)
Theorem all_pairs_strings_raises (seqs1 seqs2 : list string)
  (a1s a2s : list (list Z)) :
  seqs2arr seqs1 = Ok a1s -> seqs2arr seqs2 = Ok a2s ->
  (length seqs1 <> length seqs2 ->
   longest_common_substrings_all_pairs_strings seqs1 seqs2 = Raise AssertionError) /\
  (length seqs1 = length seqs2 -> shape1 a1s = 0%nat ->
   longest_common_substrings_all_pairs_strings seqs1 seqs2 =
   Ok (repeat 0 (length seqs1), repeat 0 (length seqs1), repeat 0 (length seqs1))) /\
  (length seqs1 = length seqs2 -> seqs1 <> [] ->
   (1 <= shape1 a1s)%nat -> (1 <= shape1 a2s)%nat ->
   longest_common_substrings_all_pairs_strings seqs1 seqs2 = Raise IndexError).
Proof.
  intros E1 E2.
  destruct (seqs2arr_shape _ _ E1) as [L1 [R1 _]].
  destruct (seqs2arr_shape _ _ E2) as [L2 [R2 _]].
  unfold longest_common_substrings_all_pairs_strings. rewrite E1, E2. cbn [bind].
  split; [|split].
  - intros Hne. unfold _longest_common_substrings_pairs.
    replace (Nat.eqb (length a1s) (length a2s)) with false; [reflexivity|].
    symmetry. apply Nat.eqb_neq. congruence.
  - intros Hl Hs. rewrite <- L1. apply pairs_without_symbols; congruence.
  - intros Hl Hne Hs1 _.
    apply (pairs_raises a1s a2s (shape1 a1s) (shape1 a2s)); try assumption.
    + congruence.
    + intros ->. cbn in L1. destruct seqs1; [contradiction|discriminate].
Qed.

Lemma all_pairs_strings_raises_witness :
  longest_common_substrings_all_pairs_strings ["ACG"%string] ["ACG"%string; "TTT"%string]
    = Raise AssertionError /\
  longest_common_substrings_all_pairs_strings ["ACG"%string] ["CGT"%string]
    = Raise IndexError.
Proof.
  split.
  - apply (all_pairs_strings_raises ["ACG"%string] ["ACG"%string; "TTT"%string]
             [[0; 1; 2]] [[0; 1; 2]; [3; 3; 3]]);
      try reflexivity. cbn. lia.
  - apply (all_pairs_strings_raises ["ACG"%string] ["CGT"%string]
             [[0; 1; 2]] [[1; 2; 3]]);
      try reflexivity; try discriminate; cbn; lia.
Defined.

(** ** The prefilter for domains of length 10 and 11 *)

Lemma enumerate_codes (n : nat) : codes (enumerate [0; 1; 2; 3] n).
Proof.
  unfold codes. induction n as [|n IH]; [repeat constructor|].
  cbn [enumerate]. apply Forall_flat_map.
  eapply Forall_impl; [|exact IH]. intros r Hr.
  apply Forall_map, Forall_forall. intros b Hb.
  apply Forall_app. split; [exact Hr|].
  constructor; [|constructor]. unfold is_code. cbn in Hb. lia.
Qed.

Lemma init_all_of_length
  (rng_choice : list Z -> nat -> nat -> list (list Z))
  (rng_shuffle : list (list Z) -> list (list Z)) (fs : filesystem) (n : nat) :
  DNASeqList_init rng_choice rng_shuffle fs
    {| arg_length := Some n; arg_num_random_seqs := None; arg_shuffle := false;
       arg_alphabet := bits2base; arg_seqs := None; arg_seqarr := None;
       arg_filename := None |} =
  Ok (DNASeqList_of_seqarr (mk_ndarray2 (enumerate [0; 1; 2; 3] n) n)).
Proof.
  unfold DNASeqList_init.
  cbn [arg_length arg_seqs arg_seqarr arg_filename arg_num_random_seqs
       arg_alphabet arg_shuffle is_not_None combinations2 map app existsb
       fst snd andb orb].
  rewrite make_array_with_all_dna_seqs_enumerate by (reflexivity || discriminate).
  reflexivity.
Qed.

Lemma forbidden_subs_codes :
  mapM (fun sub => mapM base2bits (list_ascii_of_string sub)) forbidden_subs =
  Ok gc_quads.
Proof. reflexivity. Qed.

Lemma filter_gc_quads (m : list (list Z)) (n : nat) :
  (4 <= n)%nat -> rect n m -> codes m ->
  filter_substring (DNASeqList_of_seqarr (mk_ndarray2 m n)) forbidden_subs =
  Ok (DNASeqList_of_seqarr
        (mk_ndarray2
           (filter (fun r => negb (existsb (fun q => contains q r) gc_quads)) m)
           n)).
Proof.
  intros Hn Hrect Hc.
  apply (filter_substring_rows
           (DNASeqList_of_seqarr (mk_ndarray2 m n)) forbidden_subs 4 gc_quads).
  - repeat split; assumption.
  - discriminate.
  - repeat constructor.
  - exact Hn.
  - lia.
  - exact forbidden_subs_codes.
Qed.

Lemma filter_end_gc_filter (m : list (list Z)) (n : nat) :
  (3 <= n)%nat ->
  filter_end_gc (DNASeqList_of_seqarr (mk_ndarray2 m n)) =
  Ok (DNASeqList_of_seqarr (mk_ndarray2 (filter (end_gc_ok n) m) n)).
Proof.
  intros Hn.
  destruct (filter_end_gc_rows (DNASeqList_of_seqarr (mk_ndarray2 m n)) Hn)
    as [res [E ->]].
  rewrite E. unfold keep_rows.
  cbn [DNASeqList_of_seqarr seqarr rows ncols]. now rewrite select_rows_map.
Qed.

Lemma to_list_rows (m : list (list Z)) (n : nat) :
  codes m ->
  to_list (DNASeqList_of_seqarr (mk_ndarray2 m n)) = Ok (map row_string m).
Proof.
  intros Hc. unfold to_list, get_seq_str.
  cbn [DNASeqList_of_seqarr numseqs seqarr rows]. rewrite Nat2Z.id.
  change (mapM (fun idx => r <- getitem ([] ++ m) (Z.of_nat idx) ;; arr2seq r)
               (seq (length (@nil (list Z))) (length m)) = Ok (map row_string m)).
  rewrite (mapM_getitem_seq arr2seq [] m).
  apply mapM_Ok_map. eapply Forall_impl; [|exact Hc].
  intros r Hr. now apply arr2seq_codes.
Qed.

Lemma filter_rect {A : Type} (n : nat) (h : list A -> bool) (m : list (list A)) :
  rect n m -> rect n (filter h m).
Proof.
  unfold rect. intros H. apply Forall_forall. intros r Hr.
  apply filter_In in Hr as [Hr _]. revert r Hr. now apply Forall_forall.
Qed.

Lemma filter_codes (h : list Z -> bool) (m : list (list Z)) :
  codes m -> codes (filter h m).
Proof.
  unfold codes. intros H. apply Forall_forall. intros r Hr.
  apply filter_In in Hr as [Hr _]. revert r Hr. now apply Forall_forall.
Qed.

Lemma numseqs_zero (m : list (list Z)) (n : nat) :
  (numseqs (DNASeqList_of_seqarr (mk_ndarray2 m n)) =? 0) =
  match m with [] => true | _ :: _ => false end.
Proof. destruct m; reflexivity. Qed.

Lemma prefilter_rows_stages (low high t : spec_float) (end_gc : bool) (n : nat) :
  let stage2 :=
    filter (fun r => negb (existsb (fun q => contains q r) gc_quads))
      (filter (fun r =>
                 within_range (fdtype (calculate_loop_energies t false))
                              low high (batched_energy t false r))
         (enumerate [0; 1; 2; 3] n)) in
  prefilter_rows low high t end_gc n =
  if end_gc then filter (end_gc_ok n) stage2 else stage2.
Proof.
  cbv zeta. unfold prefilter_rows.
  destruct end_gc; rewrite !filter_filter; apply filter_ext; intros r;
    unfold prefilter_keep.
  - now rewrite ?andb_assoc.
  - now rewrite andb_true_r.
Qed.

(** The body of [prefilter_length_10_11], for any two lengths from 4 on. *)
Lemma prefilter_two_lengths
  (rng_choice : list Z -> nat -> nat -> list (list Z))
  (rng_shuffle : list (list Z) -> list (list Z))
  (fs : filesystem) (low high t : spec_float) (end_gc convert_to_list : bool)
  (n10 n11 : nat) :
  (4 <= n10)%nat -> (4 <= n11)%nat ->
  bind_printing
    (s10 <- DNASeqList_init rng_choice rng_shuffle fs
      {| arg_length := Some n10; arg_num_random_seqs := None; arg_shuffle := false;
         arg_alphabet := bits2base; arg_seqs := None; arg_seqarr := None;
         arg_filename := None |} ;;
     s11 <- DNASeqList_init rng_choice rng_shuffle fs
      {| arg_length := Some n11; arg_num_random_seqs := None; arg_shuffle := false;
         arg_alphabet := bits2base; arg_seqs := None; arg_seqarr := None;
         arg_filename := None |} ;;
     s10 <- filter_energy s10 low high t ;;
     s11 <- filter_energy s11 low high t ;;
     s10 <- filter_substring s10 forbidden_subs ;;
     s11 <- filter_substring s11 forbidden_subs ;;
     Ok (s10, s11))
    (fun s =>
       (if end_gc then [prefilter_message] else [],
        s <- (if end_gc
              then s10 <- filter_end_gc (fst s) ;;
                   s11 <- filter_end_gc (snd s) ;;
                   Ok (s10, s11)
              else Ok s) ;;
        if numseqs (fst s) =? 0 then Raise ValueError
        else if numseqs (snd s) =? 0 then Raise ValueError
        else if convert_to_list
             then l10 <- to_list (fst s) ;;
                  l11 <- to_list (snd s) ;;
                  Ok (inl (l10, l11))
             else Ok (inr s))) =
  (if end_gc then [prefilter_message] else [],
   match prefilter_rows low high t end_gc n10,
         prefilter_rows low high t end_gc n11 with
   | _ :: _, _ :: _ =>
       Ok (if convert_to_list
           then inl (map row_string (prefilter_rows low high t end_gc n10),
                     map row_string (prefilter_rows low high t end_gc n11))
           else inr (DNASeqList_of_seqarr
                       (mk_ndarray2 (prefilter_rows low high t end_gc n10) n10),
                     DNASeqList_of_seqarr
                       (mk_ndarray2 (prefilter_rows low high t end_gc n11) n11)))
   | _, _ => Raise ValueError
   end).
Proof.
  intros Hn10 Hn11.
  rewrite !init_all_of_length. cbn [bind].
  rewrite !filter_energy_rows
    by (cbn [DNASeqList_of_seqarr seqarr rows]; apply enumerate_codes).
  cbn [bind DNASeqList_of_seqarr seqarr rows ncols].
  rewrite !filter_gc_quads
    by first [lia | apply filter_rect, enumerate_row_length
                  | apply filter_codes, enumerate_codes].
  cbn [bind bind_printing fst snd].
  rewrite !prefilter_rows_stages. cbv zeta.
  set (q10 := filter _ (filter _ (enumerate _ n10))).
  set (q11 := filter _ (filter _ (enumerate _ n11))).
  assert (H10 : codes q10) by (do 2 apply filter_codes; apply enumerate_codes).
  assert (H11 : codes q11) by (do 2 apply filter_codes; apply enumerate_codes).
  clearbody q10 q11.
  destruct end_gc.
  - f_equal. rewrite !filter_end_gc_filter by lia. cbn [bind fst snd].
    rewrite !numseqs_zero.
    assert (G10 : codes (filter (end_gc_ok n10) q10)) by now apply filter_codes.
    assert (G11 : codes (filter (end_gc_ok n11) q11)) by now apply filter_codes.
    destruct (filter (end_gc_ok n10) q10) as [|r10 l10]; [reflexivity|].
    destruct (filter (end_gc_ok n11) q11) as [|r11 l11]; [reflexivity|].
    destruct convert_to_list; [|reflexivity].
    now rewrite !to_list_rows.
  - f_equal. cbn [bind fst snd]. rewrite !numseqs_zero.
    destruct q10 as [|r10 l10]; [reflexivity|].
    destruct q11 as [|r11 l11]; [reflexivity|].
    destruct convert_to_list; [|reflexivity].
    now rewrite !to_list_rows.
Qed.

(** [prefilter_length_10_11] never fails for another reason than an empty
    selection.  It prints its message exactly when [end_gc] is set, and it
    selects, for each of the lengths 10 and 11, all sequences over A, C, G, T
    of that length, in lexicographic order, whose batched energy lies between the
    bounds, that have no four consecutive symbols among C and G and, with
    [end_gc], that pass the end test of [filter_end_gc].  When one of the two
    selections is empty it raises [ValueError]; otherwise it returns the two
    selections, as strings or as [DNASeqList]s. *)
Theorem prefilter_length_10_11_spec
  (rng_choice : list Z -> nat -> nat -> list (list Z))
  (rng_shuffle : list (list Z) -> list (list Z))
  (fs : filesystem) (low high t : spec_float) (end_gc convert_to_list : bool) :
  let s10 := prefilter_rows low high t end_gc 10 in
  let s11 := prefilter_rows low high t end_gc 11 in
  prefilter_length_10_11 rng_choice rng_shuffle fs low high t end_gc
                         convert_to_list =
  (if end_gc then [prefilter_message] else [],
   match s10, s11 with
   | _ :: _, _ :: _ =>
       Ok (if convert_to_list
           then inl (map row_string s10, map row_string s11)
           else inr (DNASeqList_of_seqarr (mk_ndarray2 s10 10),
                     DNASeqList_of_seqarr (mk_ndarray2 s11 11)))
   | _, _ => Raise ValueError
   end).
Proof.
  cbv zeta. unfold prefilter_length_10_11.
  apply prefilter_two_lengths; lia.
Qed.
